(** * Blueshift batch delete: the batch execution engine

    A shallow embedding of [batch-processor.js] (class [RateLimiter], class
    [Logger], class [BatchProcessor]) and of the command-line twin in
    [batch-delete.js], followed by the properties of the engine.

    Conventions of the embedding.
    - JavaScript numbers that hold delays (milliseconds, multipliers) are
      rationals [Q]; counters, attempt numbers, HTTP statuses and clock
      readings are integers.  [NaN] and the infinities are outside the model,
      so a division by a zero multiplier is not given a meaning here; no
      statement below divides by zero.
    - The retry delay is computed as the program computes it, in double
      precision: the product is rounded to the nearest double, and
      [Math.pow], whose value the language leaves to the implementation, is
      an input of the model (class [MathLibrary]).  The rate limiter is kept
      over exact rationals: its properties are inequalities between delays,
      which rounding to the nearest double preserves.
    - [process.env] and the file system are finite maps from names to
      strings.
    - The remote call [deleteCustomer], the clock, number formatting by the
      host and the arrival of [cancel()] requests are inputs of a run,
      collected in a record [Host].
    - Everything a run does that an observer can see (emitted events,
      suspensions, remote calls) is appended to a trace.  Listeners of the
      events do not throw.
    - An [async] function is modelled by the order of its effects.  The
      program is single-threaded, so other code runs only where the run is
      suspended: a [cancel()] request is served at the suspension points of
      [start], and the recursive call of [deleteWithRetry], which is
      returned without being awaited, interleaves with the [finally] block
      of its caller.
    - An exception is a result of the run: the state monad of the engine
      carries [Ok] or [Throw].  The only source of exceptions in the model
      is a failing [writeFileSync]. *)

From Stdlib Require Import ZArith QArith Qminmax String Ascii List Lia DecimalString.
From stdpp Require Import gmap strings list.

Open Scope Z_scope.

(** ** Numbers and strings of the host language *)

(** [`${n}`] for an integer [n]. *)
Definition Z_to_string (z : Z) : string := NilZero.string_of_int (Z.to_int z).

(** [a > b] on delays. *)
Definition Qgtb (a b : Q) : bool := negb (Qle_bool a b).

(** ** Adaptive rate limiter *)

Record RateConfig := {
  baseDelayMs : Q;
  maxDelayMs : Q;
  rate_backoffMultiplier : Q
}.

Module RateLimiter.

Record t := {
  currentDelay : Q;
  baseDelay : Q;
  maxDelay : Q;
  backoffMultiplier : Q;
  consecutiveSuccesses : nat
}.

(** [constructor(config)] *)
Definition new (config : RateConfig) : t :=
  {| currentDelay := baseDelayMs config;
     baseDelay := baseDelayMs config;
     maxDelay := maxDelayMs config;
     backoffMultiplier := rate_backoffMultiplier config;
     consecutiveSuccesses := 0 |}.

(** [onSuccess()] *)
Definition onSuccess (r : t) : t :=
  let n := S (consecutiveSuccesses r) in
  if (10 <=? n)%nat && Qgtb (currentDelay r) (baseDelay r) then
    {| currentDelay := Qmax (baseDelay r) (currentDelay r / backoffMultiplier r);
       baseDelay := baseDelay r;
       maxDelay := maxDelay r;
       backoffMultiplier := backoffMultiplier r;
       consecutiveSuccesses := 0 |}
  else
    {| currentDelay := currentDelay r;
       baseDelay := baseDelay r;
       maxDelay := maxDelay r;
       backoffMultiplier := backoffMultiplier r;
       consecutiveSuccesses := n |}.

(** [onRateLimit()]: the new state and the pair [{ oldDelay, newDelay }]. *)
Definition onRateLimit (r : t) : t * (Q * Q) :=
  let oldDelay := currentDelay r in
  let newDelay := Qmin (maxDelay r) (currentDelay r * backoffMultiplier r) in
  ({| currentDelay := newDelay;
      baseDelay := baseDelay r;
      maxDelay := maxDelay r;
      backoffMultiplier := backoffMultiplier r;
      consecutiveSuccesses := 0 |},
   (oldDelay, newDelay)).

(** [getCurrentDelay()] *)
Definition getCurrentDelay (r : t) : Q := currentDelay r.

(** The two signals the engine sends to the limiter. *)
Inductive signal := Succeeded | Throttled.

Definition feed (r : t) (s : signal) : t :=
  match s with
  | Succeeded => onSuccess r
  | Throttled => fst (onRateLimit r)
  end.

(** The limiter after a sequence of signals, oldest first. *)
Definition run (config : RateConfig) (calls : list signal) : t :=
  fold_left feed calls (new config).

(** The interval property, and the configuration it is stated for. *)
Definition within_bounds (r : t) : Prop :=
  (baseDelay r <= currentDelay r)%Q /\ (currentDelay r <= maxDelay r)%Q.

Definition non_negative (config : RateConfig) : Prop :=
  (0 <= baseDelayMs config)%Q /\ (0 <= maxDelayMs config)%Q /\
  (0 <= rate_backoffMultiplier config)%Q.

(** A limiter that belongs to a configuration and is within its bounds. *)
Definition tuned (config : RateConfig) (r : t) : Prop :=
  baseDelay r = baseDelayMs config /\
  maxDelay r = maxDelayMs config /\
  backoffMultiplier r = rate_backoffMultiplier config /\
  within_bounds r.

End RateLimiter.

(** ** Values crossing the boundary to the host *)

(** [String(v)] for a value that is a string or [null]: what an assignment
    to a property of [process.env] stores. *)
Definition env_string (v : option string) : string :=
  match v with
  | Some s => s
  | None => "null"
  end.

(** [`${v}`] for a value that is a string or [undefined]. *)
Definition template (v : option string) : string :=
  match v with
  | Some s => s
  | None => "undefined"
  end.

(** Truthiness of a value that is a string or [undefined]. *)
Definition truthy (v : option string) : bool :=
  match v with
  | Some s => negb (String.eqb s EmptyString)
  | None => false
  end.

(** An [Error] object: its message and its [status] property, when set. *)
Record JsError := {
  message : string;
  err_status : option Z
}.

(** What [deleteCustomer] resolves with: [{ success: true, status, data }]. *)
Record ApiResult := {
  res_status : Z;
  res_data : string
}.

(** How one call of [deleteCustomer] settles. *)
Inductive CallResult :=
| Resolved (r : ApiResult)
| Rejected (e : JsError).

(** The argument of [deleteCustomer]:
    [{ [identifierType]: identifier, deleteAll, silent }]. *)
Record DeleteOptions := {
  opt_identifierType : string;
  opt_identifier : option string;
  opt_deleteAll : bool;
  opt_silent : bool
}.

Record RetryConfig := {
  maxAttempts : Z;
  initialDelayMs : Q;
  retry_backoffMultiplier : Q
}.

(** What [deleteWithRetry] resolves with: [{ success: true, result }] or
    [{ success: false, error, status, attempt }]. *)
Inductive Outcome :=
| Success (result : ApiResult)
| Failure (error : string) (status : Z) (attempt : Z).

(** ** Events and the trace *)

(** The payload of [complete]. *)
Record Summary := {
  successCount : nat;
  failureCount : nat;
  totalProcessed : nat;
  duration : string;
  durationMs : Z;
  logFile : string;
  failedRecordsFile : option string;
  hasFailedRecords : bool
}.

Inductive Event :=
| EvStart (total : nat)
| EvProgress (current total : nat) (percentage : string)
| EvSuccess (identifier : option string) (current total : nat)
| EvFailure (identifier : option string) (error : string) (status : Z)
            (current total : nat)
| EvRateLimit (oldDelay newDelay : Q)
| EvComplete (summary : Summary)
| EvCancelled.

(** One observable step of a run. *)
Inductive Obs :=
| Emit (e : Event)
| Sleep (ms : Q)
| Call (options : DeleteOptions) (attempt : Z).

(** The places where a run is suspended and a [cancel()] request can be
    served: while the item at an index is being deleted, and during the
    rate-limiting wait that follows it. *)
Inductive AwaitPoint :=
| InDelete (i : nat)
| InWait (i : nat).

(** The inputs of a run that the engine does not control. *)
Record Host := {
  (** how the call of [deleteCustomer] for the item at an index settles, at
      each attempt *)
  remote : nat -> Z -> CallResult;
  (** whether [cancel()] is called while the run is suspended there *)
  cancel_at : AwaitPoint -> bool;
  (** the message of the error thrown by the k-th [writeFileSync], if that
      write fails *)
  write_error : nat -> option string;
  (** the k-th reading of the clock, in milliseconds *)
  Date_now : nat -> Z;
  (** [new Date(ms).toISOString()] *)
  toISOString : Z -> string;
  (** [x.toFixed(1)] *)
  toFixed1 : Q -> string
}.

(** ** Retry policy *)

Definition KEY : string := "BLUESHIFT_USER_API_KEY".
Definition REGION : string := "BLUESHIFT_REGION".

(** [error.status || 500] *)
Definition status_or_500 (e : JsError) : Z :=
  match err_status e with
  | Some s => if s =? 0 then 500 else s
  | None => 500
  end.

(** *** Double-precision arithmetic

    The numbers of the program are doubles.  A finite double is a rational
    number, and the model keeps it as one; a product is the exact product
    rounded to the nearest double, ties to even.  Results beyond the
    largest double, which are [Infinity] in the runtime, are outside the
    model. *)

(** [num / den] rounded to the nearest integer, ties to even, for a
    positive [den]. *)
Definition round_half_even (num den : Z) : Z :=
  let q := num / den in
  let twice := 2 * (num mod den) in
  if twice <? den then q
  else if den <? twice then q + 1
  else if Z.even q then q else q + 1.

(** The exponent of the power of two at or below [num / den], for positive
    [num] and [den]. *)
Definition floor_log2 (num den : Z) : Z :=
  let l := Z.log2 num - Z.log2 den in
  let reached :=
    if 0 <=? l then den * 2 ^ l <=? num else den <=? num * 2 ^ (- l) in
  if reached then l else l - 1.

(** The double nearest to a rational: a significand of 53 bits, scaled by
    a power of two not below [2^-1074]. *)
Definition nearest_double (q : Q) : Q :=
  let n := Qnum q in
  let d := Zpos (Qden q) in
  if n =? 0 then 0%Q
  else
    let a := Z.abs n in
    let e := Z.max (floor_log2 a d - 52) (-1074) in
    let m :=
      if 0 <=? e then round_half_even a (d * 2 ^ e)
      else round_half_even (a * 2 ^ (- e)) d in
    let v :=
      if 0 <=? e then inject_Z (m * 2 ^ e)
      else Qred (m # Z.to_pos (2 ^ (- e))) in
    if n <? 0 then Qopp v else v.

(** [a * b] *)
Definition times (a b : Q) : Q := nearest_double (a * b).

(** [Math.pow(base, exponent)] for an integer exponent.  The language
    leaves its value to the implementation ("implementation-approximated"),
    so it is an input of the model. *)
Class MathLibrary := {
  Math_pow : Q -> Z -> Q
}.

(** A library whose [Math.pow] is the exact power rounded to the nearest
    double. *)
Definition nearest_pow : MathLibrary :=
  {| Math_pow := fun base exponent => nearest_double (Qpower base exponent) |}.

(** The delay before the retry that follows a failed attempt:
    [initialDelayMs * Math.pow(backoffMultiplier, attempt - 1)]. *)
Definition backoff {math : MathLibrary} (retry : RetryConfig) (attempt : Z) : Q :=
  times (initialDelayMs retry) (Math_pow (retry_backoffMultiplier retry) (attempt - 1)).

(** The command-line [deleteWithRetry(identifier, config, attempt)] of
    [batch-delete.js]: the outcome and the calls and suspensions made after
    the first call has been issued.  [fuel] bounds the number of retries;
    [None] is a run out of fuel. *)
Module Cli.

Section DeleteWithRetry.

Context {math : MathLibrary}.

Variable call : Z -> CallResult.
Variable retry : RetryConfig.
Variable deleteOptions : DeleteOptions.

Fixpoint attempts (fuel : nat) (attempt : Z) : option (Outcome * list Obs) :=
  match call attempt with
  | Resolved result => Some (Success result, [])
  | Rejected error =>
      let status := status_or_500 error in
      let shouldRetry :=
        (attempt <? maxAttempts retry) && ((status =? 429) || (500 <=? status)) in
      if shouldRetry then
        let delayMs :=
          times (initialDelayMs retry)
                (Math_pow (retry_backoffMultiplier retry) (attempt - 1)) in
        match fuel with
        | O => None
        | S fuel' =>
            match attempts fuel' (attempt + 1) with
            | Some (outcome, obs) =>
                Some (outcome,
                      Sleep delayMs :: Call deleteOptions (attempt + 1) :: obs)
            | None => None
            end
        end
      else Some (Failure (message error) status attempt, [])
  end.

Definition deleteWithRetry (attempt : Z) : option (Outcome * list Obs) :=
  match attempts (Z.to_nat (maxAttempts retry - attempt)) attempt with
  | Some (outcome, obs) => Some (outcome, Call deleteOptions attempt :: obs)
  | None => None
  end.

End DeleteWithRetry.

End Cli.

(** ** Logger *)

(** [s.replace(/[:.]/g, '-')] *)
Fixpoint replace_colon_dot (s : string) : string :=
  match s with
  | EmptyString => EmptyString
  | String c rest =>
      String (if (Ascii.eqb c ":" || Ascii.eqb c ".")%bool then "-"%char else c)
             (replace_colon_dot rest)
  end.

(** [s.slice(0, -5)] *)
Definition slice_0_minus5 (s : string) : string :=
  String.substring 0 (String.length s - 5) s.

(** The double quote, and the line break with [arr.join('\n')]. *)
Definition quote : string := String (ascii_of_nat 34) EmptyString.

Definition newline : string := String (ascii_of_nat 10) EmptyString.

Definition join_lines (rows : list string) : string := String.concat newline rows.

(** The physical lines of a text: the pieces between line breaks. *)
Fixpoint lines (s : string) : list string :=
  match s with
  | EmptyString => [EmptyString]
  | String c rest =>
      if Ascii.eqb c (ascii_of_nat 10) then EmptyString :: lines rest
      else
        match lines rest with
        | l :: ls => String c l :: ls
        | [] => [String c EmptyString]
        end
  end.

(** A text without a line break. *)
Fixpoint single_line (s : string) : bool :=
  match s with
  | EmptyString => true
  | String c rest => negb (Ascii.eqb c (ascii_of_nat 10)) && single_line rest
  end.

Module Logger.

(** An entry of [failedRecords]: [{ identifier, error, status }]. *)
Record FailedRecord := {
  identifier : option string;
  error : string;
  status : Z
}.

Record t := {
  logDir : string;
  timestamp : string;
  logFile : string;
  failedRecordsFile : string;
  failedRecords : list FailedRecord
}.

(** [constructor()], given the reading of the clock; the creation of the
    directory is left out, directories are not part of the model. *)
Definition new (toISOString : Z -> string) (now : Z) : t :=
  let logDir := "./logs" in
  let timestamp := slice_0_minus5 (replace_colon_dot (toISOString now)) in
  {| logDir := logDir;
     timestamp := timestamp;
     logFile := logDir ++ "/batch-log-" ++ timestamp ++ ".txt";
     failedRecordsFile := logDir ++ "/failed-records-" ++ timestamp ++ ".csv";
     failedRecords := [] |}.

Definition with_failedRecords (l : t) (rs : list FailedRecord) : t :=
  {| logDir := logDir l;
     timestamp := timestamp l;
     logFile := logFile l;
     failedRecordsFile := failedRecordsFile l;
     failedRecords := rs |}.

(** [addFailedRecord(identifier, error, status)] *)
Definition addFailedRecord (l : t) (identifier : option string) (error : string)
           (status : Z) : t :=
  with_failedRecords l
    (failedRecords l ++
     [{| identifier := identifier; error := error; status := status |}]).

(** [hasFailedRecords()] *)
Definition hasFailedRecords (l : t) : bool :=
  (0 <? length (failedRecords l))%nat.

(** [getLogFile()] *)
Definition getLogFile (l : t) : string := logFile l.

(** The header and one row of the failed-records file. *)
Definition csvHeader (columnName : string) : string :=
  columnName ++ ",error,status" ++ newline.

Definition csvRow (r : FailedRecord) : string :=
  quote ++ template (identifier r) ++ quote ++ "," ++ quote ++ error r ++ quote
  ++ "," ++ Z_to_string (status r).

Definition csvRows (l : t) : string := join_lines (map csvRow (failedRecords l)).

End Logger.

(** [formatDuration(ms)] *)
Definition formatDuration (ms : Z) : string :=
  let seconds := ms / 1000 in
  let minutes := seconds / 60 in
  let hours := minutes / 60 in
  if 0 <? hours then
    Z_to_string hours ++ "h " ++ Z_to_string (Z.rem minutes 60) ++ "m "
    ++ Z_to_string (Z.rem seconds 60) ++ "s"
  else if 0 <? minutes then
    Z_to_string minutes ++ "m " ++ Z_to_string (Z.rem seconds 60) ++ "s"
  else
    Z_to_string seconds ++ "s".

(** ** Batch processor *)

Module BatchProcessor.

(** The argument of the constructor. *)
Record Config := {
  cfg_records : list (gmap string string);
  cfg_identifierType : string;
  cfg_columnName : string;
  cfg_deleteAll : bool;
  cfg_apiKey : option string;
  cfg_region : string;
  cfg_rateLimit : option RateConfig;
  cfg_retry : option RetryConfig
}.

(** The object: [apiKey] is a string or [null]. *)
Record t := {
  records : list (gmap string string);
  identifierType : string;
  columnName : string;
  deleteAll : bool;
  apiKey : option string;
  region : string;
  rateLimit : RateConfig;
  retry : RetryConfig;
  cancelled : bool;
  rateLimiter : RateLimiter.t;
  logger : Logger.t
}.

(** [constructor(config)], given the reading of the clock taken by the
    logger. *)
Definition new (toISOString : Z -> string) (now : Z) (config : Config) : t :=
  let rateLimit :=
    match cfg_rateLimit config with
    | Some r => r
    | None => {| baseDelayMs := 100; maxDelayMs := 5000;
                 rate_backoffMultiplier := 3 # 2 |}
    end in
  let retry :=
    match cfg_retry config with
    | Some r => r
    | None => {| maxAttempts := 3; initialDelayMs := 1000;
                 retry_backoffMultiplier := 2 |}
    end in
  {| records := cfg_records config;
     identifierType := cfg_identifierType config;
     columnName := cfg_columnName config;
     deleteAll := cfg_deleteAll config;
     apiKey := cfg_apiKey config;
     region := cfg_region config;
     rateLimit := rateLimit;
     retry := retry;
     cancelled := false;
     rateLimiter := RateLimiter.new rateLimit;
     logger := Logger.new toISOString now |}.

Definition with_apiKey (p : t) (k : option string) : t :=
  {| records := records p; identifierType := identifierType p;
     columnName := columnName p; deleteAll := deleteAll p;
     apiKey := k; region := region p; rateLimit := rateLimit p;
     retry := retry p; cancelled := cancelled p;
     rateLimiter := rateLimiter p; logger := logger p |}.

Definition with_cancelled (p : t) (c : bool) : t :=
  {| records := records p; identifierType := identifierType p;
     columnName := columnName p; deleteAll := deleteAll p;
     apiKey := apiKey p; region := region p; rateLimit := rateLimit p;
     retry := retry p; cancelled := c;
     rateLimiter := rateLimiter p; logger := logger p |}.

Definition with_rateLimiter (p : t) (r : RateLimiter.t) : t :=
  {| records := records p; identifierType := identifierType p;
     columnName := columnName p; deleteAll := deleteAll p;
     apiKey := apiKey p; region := region p; rateLimit := rateLimit p;
     retry := retry p; cancelled := cancelled p;
     rateLimiter := r; logger := logger p |}.

Definition with_logger (p : t) (l : Logger.t) : t :=
  {| records := records p; identifierType := identifierType p;
     columnName := columnName p; deleteAll := deleteAll p;
     apiKey := apiKey p; region := region p; rateLimit := rateLimit p;
     retry := retry p; cancelled := cancelled p;
     rateLimiter := rateLimiter p; logger := l |}.

(** *** [deleteWithRetry]

    The function is [async] and its retry is [return
    this.deleteWithRetry(identifier, attempt + 1)], not awaited.  The
    callee therefore runs up to its first [await] (it reads and overrides
    the environment), then the [finally] block of the caller runs, and the
    [finally] block of the callee runs later, when the callee settles. *)

Section DeleteWithRetry.

Context {math : MathLibrary}.

Variable p : t.
Variable call : Z -> CallResult.
Variable identifier : option string.

Definition deleteOptions : DeleteOptions :=
  {| opt_identifierType := identifierType p;
     opt_identifier := identifier;
     opt_deleteAll := deleteAll p;
     opt_silent := true |}.

(** Up to the call of [deleteCustomer]: [originalKey] and the environment
    after the two assignments. *)
Definition override (env : gmap string string)
  : option string * gmap string string :=
  let originalKey := env !! KEY in
  (originalKey, <[REGION := region p]> (<[KEY := env_string (apiKey p)]> env)).

(** The [finally] block. *)
Definition restore (originalKey : option string) (env : gmap string string)
  : gmap string string :=
  match originalKey with
  | Some k => if truthy originalKey then <[KEY := k]> env else delete KEY env
  | None => delete KEY env
  end.

(** From the moment the call of [deleteCustomer] made at [attempt]
    settles. *)
Fixpoint settle (fuel : nat) (attempt : Z) (originalKey : option string)
         (env : gmap string string)
  : option (Outcome * gmap string string * list Obs) :=
  match call attempt with
  | Resolved result => Some (Success result, restore originalKey env, [])
  | Rejected error =>
      let status := status_or_500 error in
      let shouldRetry :=
        (attempt <? maxAttempts (retry p))
        && ((status =? 429) || (500 <=? status)) in
      if shouldRetry then
        let delayMs :=
          times (initialDelayMs (retry p))
                (Math_pow (retry_backoffMultiplier (retry p)) (attempt - 1)) in
        match fuel with
        | O => None
        | S fuel' =>
            let '(originalKey', env1) := override env in
            let env2 := restore originalKey env1 in
            match settle fuel' (attempt + 1) originalKey' env2 with
            | Some (outcome, env3, obs) =>
                Some (outcome, env3,
                      Sleep delayMs :: Call deleteOptions (attempt + 1) :: obs)
            | None => None
            end
        end
      else
        Some (Failure (message error) status attempt,
              restore originalKey env, [])
  end.

Definition deleteWithRetry (attempt : Z) (env : gmap string string)
  : option (Outcome * gmap string string * list Obs) :=
  let '(originalKey, env1) := override env in
  match settle (Z.to_nat (maxAttempts (retry p) - attempt)) attempt
               originalKey env1 with
  | Some (outcome, env', obs) =>
      Some (outcome, env', Call deleteOptions attempt :: obs)
  | None => None
  end.

End DeleteWithRetry.

(** *** The run: object, process and trace *)

Record State := {
  this : t;
  env : gmap string string;
  files : gmap string string;
  writes : nat;
  clock_reads : nat;
  trace : list Obs
}.

Definition with_this (st : State) (p : t) : State :=
  {| this := p; env := env st; files := files st; writes := writes st;
     clock_reads := clock_reads st; trace := trace st |}.

Definition with_env (st : State) (e : gmap string string) : State :=
  {| this := this st; env := e; files := files st; writes := writes st;
     clock_reads := clock_reads st; trace := trace st |}.

Definition with_files (st : State) (f : gmap string string) : State :=
  {| this := this st; env := env st; files := f; writes := writes st;
     clock_reads := clock_reads st; trace := trace st |}.

Definition with_writes (st : State) (n : nat) : State :=
  {| this := this st; env := env st; files := files st; writes := n;
     clock_reads := clock_reads st; trace := trace st |}.

Definition with_clock_reads (st : State) (n : nat) : State :=
  {| this := this st; env := env st; files := files st; writes := writes st;
     clock_reads := n; trace := trace st |}.

Definition with_trace (st : State) (tr : list Obs) : State :=
  {| this := this st; env := env st; files := files st; writes := writes st;
     clock_reads := clock_reads st; trace := tr |}.

(** What is thrown: an error of the program, or the retry loop of the model
    out of fuel. *)
Inductive Exn :=
| JsThrow (e : JsError)
| OutOfFuel.

Inductive Res (A : Type) :=
| Ok (a : A)
| Throw (e : Exn).

Arguments Ok {A} a.
Arguments Throw {A} e.

Definition M (A : Type) : Type := State -> Res A * State.

Definition ret {A} (a : A) : M A := fun st => (Ok a, st).

Definition bind {A B} (m : M A) (k : A -> M B) : M B :=
  fun st =>
    match m st with
    | (Ok a, st') => k a st'
    | (Throw e, st') => (Throw e, st')
    end.

Definition gets {A} (f : State -> A) : M A := fun st => (Ok (f st), st).

Definition modify (f : State -> State) : M unit := fun st => (Ok tt, f st).

Definition throw {A} (e : Exn) : M A := fun st => (Throw e, st).

Notation "'let*' x ':=' m 'in' k" := (bind m (fun x => k))
  (at level 10, x pattern, m at level 100, k at level 200).

Notation "m '>>' k" := (bind m (fun _ => k))
  (at level 90, right associativity).

Section Run.

Context {math : MathLibrary}.

Variable host : Host.

(** [this.emit(name, payload)] *)
Definition emit (e : Event) : M unit :=
  modify (fun st => with_trace st (trace st ++ [Emit e])).

(** [sleep(ms)], awaited. *)
Definition sleep (ms : Q) : M unit :=
  modify (fun st => with_trace st (trace st ++ [Sleep ms])).

(** [Date.now()] *)
Definition now : M Z :=
  fun st => (Ok (Date_now host (clock_reads st)),
             with_clock_reads st (S (clock_reads st))).

(** [writeFileSync(path, content)], and with [{ flag: 'a' }] when
    [append] is set. *)
Definition writeFileSync (path content : string) (append : bool) : M unit :=
  fun st =>
    let st' := with_writes st (S (writes st)) in
    match write_error host (writes st) with
    | Some msg => (Throw (JsThrow {| message := msg; err_status := None |}), st')
    | None =>
        let old :=
          match files st !! path with
          | Some text => text
          | None => EmptyString
          end in
        (Ok tt,
         with_files st' (<[path := if append then (old ++ content)%string else content]>
                           (files st)))
    end.

(** [this.logger.log(message)] *)
Definition log (message : string) : M unit :=
  let* t := now in
  let timestamp := toISOString host t in
  let logMessage := ("[" ++ timestamp ++ "] " ++ message ++ newline)%string in
  let* l := gets (fun st => logger (this st)) in
  writeFileSync (Logger.logFile l) logMessage true.

(** [this.logger.addFailedRecord(identifier, error, status)] *)
Definition addFailedRecord (identifier : option string) (error : string)
           (status : Z) : M unit :=
  modify (fun st =>
    with_this st
      (with_logger (this st)
         (Logger.addFailedRecord (logger (this st)) identifier error status))).

(** [this.logger.saveFailedRecords(columnName)]: the path, or [null]. *)
Definition saveFailedRecords (columnName : string) : M (option string) :=
  let* l := gets (fun st => logger (this st)) in
  if (length (Logger.failedRecords l) =? 0)%nat then ret None
  else
    let csvHeader := Logger.csvHeader columnName in
    let csvRows := Logger.csvRows l in
    writeFileSync (Logger.failedRecordsFile l) (csvHeader ++ csvRows)%string false >>
    ret (Some (Logger.failedRecordsFile l)).

(** [cancel()] *)
Definition cancel : M unit :=
  modify (fun st => with_this st (with_cancelled (this st) true)) >>
  emit EvCancelled.

(** A suspension of the run: a pending [cancel()] request is served. *)
Definition suspended (a : AwaitPoint) : M unit :=
  if cancel_at host a then cancel else ret tt.

(** [await this.deleteWithRetry(identifier)] for the item at index [i]. *)
Definition await_deleteWithRetry (i : nat) (identifier : option string)
  : M Outcome :=
  let* st := gets (fun st => st) in
  match deleteWithRetry (this st) (remote host i) identifier 1 (env st) with
  | Some (outcome, env', obs) =>
      modify (fun st => with_trace (with_env st env') (trace st ++ obs)) >>
      suspended (InDelete i) >>
      ret outcome
  | None => throw OutOfFuel
  end.

(** [await this.rateLimiter.wait()] after the item at index [i]. *)
Definition await_wait (i : nat) : M unit :=
  let* r := gets (fun st => rateLimiter (this st)) in
  sleep (RateLimiter.currentDelay r) >>
  suspended (InWait i).

(** [this.rateLimiter.onSuccess()] *)
Definition onSuccess : M unit :=
  modify (fun st =>
    with_this st
      (with_rateLimiter (this st) (RateLimiter.onSuccess (rateLimiter (this st))))).

(** [this.rateLimiter.onRateLimit()] *)
Definition onRateLimit : M (Q * Q) :=
  fun st =>
    let '(r, delays) := RateLimiter.onRateLimit (rateLimiter (this st)) in
    (Ok delays, with_this st (with_rateLimiter (this st) r)).

(** The body of the loop of [start] for the item at index [i], after the
    test of the cancellation flag. *)
Definition process (i : nat) (record : gmap string string)
           (successCount failureCount : nat) : M (nat * nat) :=
  let* p := gets this in
  let identifier := record !! columnName p in
  let current := S i in
  let total := length (records p) in
  let percentage :=
    toFixed1 host ((inject_Z (Z.of_nat current) / inject_Z (Z.of_nat total))
                   * 100)%Q in
  emit (EvProgress current total percentage) >>
  let* result := await_deleteWithRetry i identifier in
  let* counts :=
    match result with
    | Success _ =>
        log ("SUCCESS: " ++ template identifier) >>
        emit (EvSuccess identifier current total) >>
        onSuccess >>
        ret (S successCount, failureCount)
    | Failure error status _ =>
        log ("FAILED: " ++ template identifier ++ " - Status: "
             ++ Z_to_string status ++ " - Error: " ++ error) >>
        addFailedRecord identifier error status >>
        emit (EvFailure identifier error status current total) >>
        (if status =? 429 then
           let* delays := onRateLimit in
           emit (EvRateLimit (fst delays) (snd delays))
         else ret tt) >>
        ret (successCount, S failureCount)
    end in
  (if Z.of_nat i <? Z.of_nat total - 1 then await_wait i else ret tt) >>
  ret counts.

(** The loop of [start], entered at index [i] with the records from
    [i] on still to do. *)
Fixpoint loop (todo : list (gmap string string)) (i : nat)
         (successCount failureCount : nat) : M (nat * nat) :=
  match todo with
  | [] => ret (successCount, failureCount)
  | record :: rest =>
      let* stop := gets (fun st => cancelled (this st)) in
      if stop then
        log "Batch processing cancelled by user" >>
        emit EvCancelled >>
        ret (successCount, failureCount)
      else
        let* counts := process i record successCount failureCount in
        loop rest (S i) (fst counts) (snd counts)
  end.

(** [start()] *)
Definition start : M unit :=
  let* startTime := now in
  let* p := gets this in
  let total := length (records p) in
  log "=== Batch Delete Started ===" >>
  log ("Total Records: " ++ Z_to_string (Z.of_nat total)) >>
  log ("Identifier Type: " ++ identifierType p) >>
  log ("Column Name: " ++ columnName p) >>
  emit (EvStart total) >>
  let* counts := loop (records p) 0 0 0 in
  let successCount := fst counts in
  let failureCount := snd counts in
  let* t := now in
  let duration := t - startTime in
  let* failedRecordsFile := saveFailedRecords (columnName p) in
  log "=== Batch Delete Completed ===" >>
  log ("Total Processed: " ++ Z_to_string (Z.of_nat total)) >>
  log ("Successful: " ++ Z_to_string (Z.of_nat successCount)) >>
  log ("Failed: " ++ Z_to_string (Z.of_nat failureCount)) >>
  log ("Duration: " ++ formatDuration duration) >>
  let* l := gets (fun st => logger (this st)) in
  emit (EvComplete
          {| successCount := successCount;
             failureCount := failureCount;
             totalProcessed := total;
             duration := formatDuration duration;
             durationMs := duration;
             logFile := Logger.getLogFile l;
             failedRecordsFile := failedRecordsFile;
             hasFailedRecords := Logger.hasFailedRecords l |}) >>
  modify (fun st => with_this st (with_apiKey (this st) None)).

End Run.

End BatchProcessor.

(** ** Vocabulary of the properties *)

(** The calls and suspensions of an item whose first call is attempt [k] and
    that is retried [retries] times, in the words of the retry policy: after
    a failed attempt [k] the engine suspends for
    [initialDelay * backoffMultiplier^(k-1)] and then makes attempt [k+1]. *)
Fixpoint prescribed {math : MathLibrary} (retry : RetryConfig)
         (options : DeleteOptions) (k : Z) (retries : nat) : list Obs :=
  Call options k ::
  match retries with
  | O => []
  | S n =>
      Sleep (times (initialDelayMs retry)
                   (Math_pow (retry_backoffMultiplier retry) (k - 1)))
      :: prescribed retry options (k + 1) n
  end.

(** The attempt numbers of the remote calls of a trace, and its events. *)
Definition call_attempts (obs : list Obs) : list Z :=
  omap (fun o => match o with Call _ a => Some a | _ => None end) obs.

Definition suspensions (obs : list Obs) : list Q :=
  omap (fun o => match o with Sleep ms => Some ms | _ => None end) obs.

Definition events (obs : list Obs) : list Event :=
  omap (fun o => match o with Emit e => Some e | _ => None end) obs.

(** The 1-based position of the item an event is about. *)
Definition event_item (e : Event) : option nat :=
  match e with
  | EvProgress current _ _ => Some current
  | EvSuccess _ current _ => Some current
  | EvFailure _ _ _ current _ => Some current
  | _ => None
  end.

(** The summaries carried by the [complete] events of a trace. *)
Definition summaries (obs : list Obs) : list Summary :=
  omap (fun o => match o with Emit (EvComplete s) => Some s | _ => None end) obs.

(** A remote call that rejects with the given status at every attempt. *)
Definition always_rejects (status : Z) (call : Z -> CallResult) : Prop :=
  forall attempt, exists msg,
    call attempt = Rejected {| message := msg; err_status := Some status |}.

(** A result of the engine's [deleteWithRetry] without the environment. *)
Definition forget_env (r : Outcome * gmap string string * list Obs)
  : Outcome * list Obs :=
  (fst (fst r), snd r).

(** Kinds of events, and how many events of a kind a stream holds. *)
Definition is_progress (e : Event) : bool :=
  match e with EvProgress _ _ _ => true | _ => false end.

Definition is_success (e : Event) : bool :=
  match e with EvSuccess _ _ _ => true | _ => false end.

Definition is_failure (e : Event) : bool :=
  match e with EvFailure _ _ _ _ _ => true | _ => false end.

Definition is_rateLimit (e : Event) : bool :=
  match e with EvRateLimit _ _ => true | _ => false end.

Definition is_complete (e : Event) : bool :=
  match e with EvComplete _ => true | _ => false end.

Fixpoint count (f : Event -> bool) (evs : list Event) : nat :=
  match evs with
  | [] => O
  | e :: rest => ((if f e then 1 else 0) + count f rest)%nat
  end.

(** A stream of events in which every [rateLimit] comes right after a
    [failure] with status 429; [after429] tells whether the stream is read
    from right after such a failure. *)
Fixpoint justified_from (after429 : bool) (evs : list Event) : bool :=
  match evs with
  | [] => true
  | EvRateLimit _ _ :: rest => after429 && justified_from false rest
  | EvFailure _ _ status _ _ :: rest => justified_from (status =? 429) rest
  | _ :: rest => justified_from false rest
  end.

(** The fields of the processor that a run leaves alone until it ends. *)
Definition frame (p p' : BatchProcessor.t) : Prop :=
  BatchProcessor.records p' = BatchProcessor.records p /\
  BatchProcessor.identifierType p' = BatchProcessor.identifierType p /\
  BatchProcessor.columnName p' = BatchProcessor.columnName p /\
  BatchProcessor.deleteAll p' = BatchProcessor.deleteAll p /\
  BatchProcessor.apiKey p' = BatchProcessor.apiKey p /\
  BatchProcessor.region p' = BatchProcessor.region p /\
  BatchProcessor.retry p' = BatchProcessor.retry p.

(** A host whose file system accepts every write. *)
Definition no_write_errors (host : Host) : Prop :=
  forall k, write_error host k = None.

(** Whether the run is cancelled while the item at index [i] of [total] is
    processed: during its deletion, or during the wait that follows it when
    it is not the last one. *)
Definition cancelled_during (host : Host) (total i : nat) : bool :=
  cancel_at host (InDelete i)
  || ((Z.of_nat i <? Z.of_nat total - 1) && cancel_at host (InWait i)).

(** A [failure] event that reports the final outcome of its item: the
    record at that position of the input has the identifier of the event,
    and the retry policy run on it ends as a Failure with the error and the
    status of the event.  Other events satisfy it trivially. *)
Definition final_failure {math : MathLibrary} (host : Host) (p : BatchProcessor.t)
           (e : Event) : Prop :=
  match e with
  | EvFailure identifier error status current total =>
      exists record attempt obs,
        BatchProcessor.records p !! pred current = Some record /\
        identifier = record !! BatchProcessor.columnName p /\
        Cli.deleteWithRetry (remote host (pred current)) (BatchProcessor.retry p)
          (BatchProcessor.deleteOptions p identifier) 1
        = Some (Failure error status attempt, obs)
  | _ => True
  end.

(** ** Sample inputs *)

Module Sample.

Definition record (v : string) : gmap string string := <["email" := v]> ∅.

Definition config : BatchProcessor.Config :=
  {| BatchProcessor.cfg_records := [record "a@x.io"; record "b@x.io"; record "c@x.io"];
     BatchProcessor.cfg_identifierType := "email";
     BatchProcessor.cfg_columnName := "email";
     BatchProcessor.cfg_deleteAll := false;
     BatchProcessor.cfg_apiKey := Some "secret";
     BatchProcessor.cfg_region := "us";
     BatchProcessor.cfg_rateLimit := None;
     BatchProcessor.cfg_retry := None |}.

Definition iso (ms : Z) : string := "2024-01-01T12:00:00.000Z".

Definition processor : BatchProcessor.t := BatchProcessor.new iso 0 config.

Definition ok : CallResult := Resolved {| res_status := 200; res_data := "{}" |}.

Definition rejected (status : Z) : CallResult :=
  Rejected {| message := "API Error"; err_status := Some status |}.


(** One retryable rejection, then success. *)
Definition flaky (status : Z) (attempt : Z) : CallResult :=
  if attempt <? 2 then rejected status else ok.

(** A host whose remote call always succeeds, that never cancels and
    whose writes never fail. *)
Definition calm : Host :=
  {| remote := fun _ _ => ok;
     cancel_at := fun _ => false;
     write_error := fun _ => None;
     Date_now := fun k => 1000 * Z.of_nat k;
     toISOString := iso;
     toFixed1 := fun _ => "0.0" |}.

(** The same, with a request to cancel while the first item is deleted. *)
Definition cancelling : Host :=
  {| remote := fun _ _ => ok;
     cancel_at := fun a => match a with InDelete O => true | _ => false end;
     write_error := fun _ => None;
     Date_now := fun k => 1000 * Z.of_nat k;
     toISOString := iso;
     toFixed1 := fun _ => "0.0" |}.

(** A host whose file system refuses every write. *)
Definition disk_full : Host :=
  {| remote := fun _ _ => ok;
     cancel_at := fun _ => false;
     write_error := fun _ => Some "ENOSPC: no space left on device";
     Date_now := fun k => 1000 * Z.of_nat k;
     toISOString := iso;
     toFixed1 := fun _ => "0.0" |}.

(** A host that throttles the second item at every attempt, and the third
    item once. *)
Definition throttling : Host :=
  {| remote := fun i attempt =>
                 match i with
                 | 1%nat => rejected 429
                 | 2%nat => flaky 429 attempt
                 | _ => ok
                 end;
     cancel_at := fun _ => false;
     write_error := fun _ => None;
     Date_now := fun k => 1000 * Z.of_nat k;
     toISOString := iso;
     toFixed1 := fun _ => "0.0" |}.

Definition state_of (p : BatchProcessor.t) : BatchProcessor.State :=
  {| BatchProcessor.this := p;
     BatchProcessor.env := ∅;
     BatchProcessor.files := ∅;
     BatchProcessor.writes := 0;
     BatchProcessor.clock_reads := 0;
     BatchProcessor.trace := [] |}.

(** A processor that has recorded failures. *)
Definition with_failures (rs : list Logger.FailedRecord) : BatchProcessor.t :=
  BatchProcessor.with_logger processor
    (Logger.with_failedRecords (BatchProcessor.logger processor) rs).

Definition failure_404 (identifier : string) : Logger.FailedRecord :=
  {| Logger.identifier := Some identifier;
     Logger.error := "API Error: 404";
     Logger.status := 404 |}.

End Sample.

(** ** The remote call: [deleteCustomer] of [delete-customer.js] *)

Definition EVENT_KEY : string := "BLUESHIFT_EVENT_API_KEY".

(** The two symbols of the console messages, as their UTF-8 bytes. *)
Definition blue_circle : string :=
  String (ascii_of_nat 240) (String (ascii_of_nat 159)
    (String (ascii_of_nat 148) (String (ascii_of_nat 181) EmptyString))).

Definition cross_mark : string :=
  String (ascii_of_nat 226) (String (ascii_of_nat 157)
    (String (ascii_of_nat 140) EmptyString)).

Module DeleteCustomer.

(** [CONFIG]: read from the environment once, when the module is loaded,
    after [dotenv.config()]. *)
Record Config := {
  userApiKey : option string;
  eventApiKey : option string;
  region : string
}.

Definition load (env : gmap string string) : Config :=
  {| userApiKey := env !! KEY;
     eventApiKey := env !! EVENT_KEY;
     region := if truthy (env !! REGION) then template (env !! REGION) else "us" |}.

(** [getBaseUrl(region)] *)
Definition getBaseUrl (region : string) : string :=
  if String.eqb region "eu" then "https://api.eu.getblueshift.com"
  else "https://api.getblueshift.com".

(** The argument of [deleteCustomer], as far as the function reads it: the
    four identifiers, strings or [undefined], and the truthiness of
    [deleteAll] and [silent]. *)
Record Options := {
  email : option string;
  customer_id : option string;
  cookie : option string;
  device_id : option string;
  deleteAll : bool;
  silent : bool
}.

(** The object [{ [identifierType]: identifier, deleteAll, silent }] built
    by [deleteWithRetry], read as an argument of [deleteCustomer]:
    [options[id]] is the identifier when [id] is the identifier type, and
    [undefined] otherwise. *)
Definition of_call (o : DeleteOptions) : Options :=
  let field id :=
    if String.eqb (opt_identifierType o) id then opt_identifier o else None in
  {| email := field "email";
     customer_id := field "customer_id";
     cookie := field "cookie";
     device_id := field "device_id";
     deleteAll := opt_deleteAll o;
     silent := opt_silent o |}.

(** The second argument of [fetch], with the URL. *)
Record Request := {
  url : string;
  method : string;
  headers : list (string * string);
  body : string
}.

(** How [fetch] settles.  It rejects with an error that has a message and
    may have a [status] and a [code]; or it resolves with a response, whose
    [json()] resolves with a value, given by its JSON text, or rejects. *)
Inductive FetchResult :=
| FetchError (message : string) (status : option Z) (code : option string)
| FetchResponse (ok : bool) (status : Z) (statusText : string) (json : option string).

(** A line written by [console.log] or by [console.error]. *)
Inductive Line :=
| Out (text : string)
| Err (text : string).

(** Functions of the runtime. *)
Record Runtime := {
  (** [Buffer.from(s).toString('base64')] *)
  base64 : string -> string;
  (** [s.toUpperCase()] *)
  toUpperCase : string -> string;
  (** [JSON.stringify(body)] and [JSON.stringify(body, null, 2)] for an
      object with the given string properties, in order *)
  stringify : list (string * string) -> string;
  stringify_indented : list (string * string) -> string;
  (** [JSON.stringify(v, null, 2)] for the value whose JSON text is given *)
  indented : string -> string
}.

(** What a call does: how it settles, what it prints, and the requests it
    sends. *)
Record Result := {
  settled : CallResult;
  console : list Line;
  requests : list Request
}.

Section DeleteCustomer.

Variable runtime : Runtime.
Variable CONFIG : Config.

Definition identifiers (options : Options) : list (string * option string) :=
  [("email", email options); ("customer_id", customer_id options);
   ("cookie", cookie options); ("device_id", device_id options)].

(** The [catch] block, for an error with the given properties. *)
Definition rethrow (silent : bool) (message : string) (status : option Z)
           (code : option string) : CallResult * list Line :=
  let printed :=
    if silent then [] else [Err (newline ++ cross_mark ++ " Error: " ++ message)] in
  let no_status :=
    match status with
    | Some s => s =? 0
    | None => true
    end in
  let status' :=
    if no_status && truthy code then
      Some (if String.eqb (template code) "ECONNREFUSED" then 503 else 500)
    else status in
  (Rejected {| message := message; err_status := status' |}, printed).

Definition deleteCustomer (options : Options) (fetch : Request -> FetchResult)
  : Result :=
  let silent := silent options in
  if negb (truthy (userApiKey CONFIG)) then
    {| settled :=
         Rejected {| message :=
                       "Missing User API key. Please set BLUESHIFT_USER_API_KEY in .env file";
                     err_status := None |};
       console := [];
       requests := [] |}
  else
    let hasIdentifier := existsb (fun id => truthy (snd id)) (identifiers options) in
    if negb hasIdentifier then
      {| settled :=
           Rejected {| message :=
                         "At least one customer identifier (email, customer_id, cookie, or device_id) is required";
                       err_status := None |};
         console := [];
         requests := [] |}
    else
      let body :=
        omap (fun id => if truthy (snd id) then Some (fst id, template (snd id))
                        else None)
             (identifiers options) in
      let baseUrl := getBaseUrl (region CONFIG) in
      let url :=
        (baseUrl ++ "/api/v1/customers/delete"
         ++ (if deleteAll options then "?delete_all_matching_customers=true"
             else EmptyString))%string in
      let authString := base64 runtime (template (userApiKey CONFIG) ++ ":") in
      let printed1 :=
        if silent then []
        else
          [Out (newline ++ blue_circle ++ " Blueshift Delete Customer API Test");
           Out "=====================================";
           Out ("Region: " ++ toUpperCase runtime (region CONFIG));
           Out ("Endpoint: " ++ url);
           Out ("Request Body: " ++ stringify_indented runtime body);
           Out ("Delete All Matching: " ++ (if deleteAll options then "Yes" else "No"));
           Out ("=====================================" ++ newline)] in
      let request :=
        {| url := url;
           method := "POST";
           headers := [("Authorization", ("Basic " ++ authString)%string);
                       ("Content-Type", "application/json")];
           body := stringify runtime body |} in
      match fetch request with
      | FetchResponse ok status statusText json =>
          let responseData :=
            match json with
            | Some data => data
            | None => "{}"
            end in
          let printed2 :=
            if silent then []
            else
              [Out ("Status: " ++ Z_to_string status ++ " " ++ statusText);
               Out ("Response: " ++ indented runtime responseData)] in
          if negb ok then
            let thrown :=
              rethrow silent
                      ("API Error: " ++ Z_to_string status ++ " - " ++ responseData)
                      (Some status) None in
            {| settled := fst thrown;
               console := printed1 ++ printed2 ++ snd thrown;
               requests := [request] |}
          else
            {| settled := Resolved {| res_status := status; res_data := responseData |};
               console := printed1 ++ printed2;
               requests := [request] |}
      | FetchError message status code =>
          let thrown := rethrow silent message status code in
          {| settled := fst thrown;
             console := printed1 ++ snd thrown;
             requests := [request] |}
      end.

End DeleteCustomer.

End DeleteCustomer.

(** ** Further vocabulary *)

(** The names of the identifiers that [deleteCustomer] reads. *)
Definition identifier_names : list string :=
  ["email"; "customer_id"; "cookie"; "device_id"].


(** What the [finally] block of [deleteWithRetry] leaves in the variable
    when it has read [v] on entry: [v] itself when it is a non-empty string,
    nothing otherwise. *)
Definition restored (v : option string) : option string :=
  if truthy v then v else None.

(** The retry delay in the words of the specification: the real number
    [initialDelay * backoffMultiplier^(k-1)]. *)
Definition spec_delay (retry : RetryConfig) (k : Z) : Q :=
  (initialDelayMs retry * Qpower (retry_backoffMultiplier retry) (k - 1))%Q.

(** The double written [1.1], and a retry configuration that grows by it. *)
Definition one_point_one : Q := 2476979795053773 # 2251799813685248.

Definition slow_growth : RetryConfig :=
  {| maxAttempts := 4; initialDelayMs := 1000; retry_backoffMultiplier := one_point_one |}.

(** A retryable status: 429, or 500 and above. *)
Definition retryable (status : Z) : bool := (status =? 429) || (500 <=? status).

(** A retryable failure, read off the error itself: its status is 429, or
    500 or above, or it has no status (or the status 0, which the program
    cannot tell from none) and counts as a 500. *)
Definition retryable_failure (e : JsError) : Prop :=
  match err_status e with
  | Some status => status = 429 \/ 500 <= status \/ status = 0
  | None => True
  end.

(** The identifiers whose deletion a trace requests: those of its first
    attempts. *)
Definition requested (obs : list Obs) : list (option string) :=
  omap (fun o =>
          match o with
          | Call options attempt =>
              if attempt =? 1 then Some (opt_identifier options) else None
          | _ => None
          end) obs.

(** The failed record that a [failure] event reports. *)
Definition failure_record (e : Event) : option Logger.FailedRecord :=
  match e with
  | EvFailure identifier error status _ _ =>
      Some {| Logger.identifier := identifier;
              Logger.error := error;
              Logger.status := status |}
  | _ => None
  end.

Definition failures (evs : list Event) : list Logger.FailedRecord :=
  omap failure_record evs.

Definition is_cancelled (e : Event) : bool :=
  match e with EvCancelled => true | _ => false end.

(** The text of a file; a file that does not exist has none. *)
Definition text (files : gmap string string) (path : string) : string :=
  match files !! path with
  | Some t => t
  | None => EmptyString
  end.

(** Whether a character occurs in a text. *)
Fixpoint occurs (c : ascii) (s : string) : bool :=
  match s with
  | EmptyString => false
  | String c' rest => Ascii.eqb c' c || occurs c rest
  end.

(** A [success] event that the remote side has confirmed: the record at
    that position of the input has the identifier of the event, and one of
    the attempts that the retry policy allows for it resolved.  Other events
    satisfy it trivially. *)
Definition confirmed_success (host : Host) (p : BatchProcessor.t) (e : Event) : Prop :=
  match e with
  | EvSuccess identifier current total =>
      exists record k r,
        BatchProcessor.records p !! pred current = Some record /\
        identifier = record !! BatchProcessor.columnName p /\
        1 <= k <= Z.max 1 (maxAttempts (BatchProcessor.retry p)) /\
        remote host (pred current) k = Resolved r
  | _ => True
  end.

(** A [rateLimit] event whose delays are within the bounds of a
    configuration, the new one not below the old one.  Other events satisfy
    it trivially. *)
Definition bounded_rateLimit (config : RateConfig) (e : Event) : Prop :=
  match e with
  | EvRateLimit oldDelay newDelay =>
      (baseDelayMs config <= oldDelay)%Q /\ (oldDelay <= newDelay)%Q /\
      (newDelay <= maxDelayMs config)%Q
  | _ => True
  end.

(** A host on which [cancel()] is never called. *)
Definition never_cancelled (host : Host) : Prop :=
  forall a, cancel_at host a = false.

(** What a run may touch outside the processor: the two files of its
    logger, of which the log only grows, and the two variables of the
    environment that [deleteWithRetry] assigns. *)
Definition footprint (st st' : BatchProcessor.State) : Prop :=
  let l := BatchProcessor.logger (BatchProcessor.this st) in
  Logger.logFile (BatchProcessor.logger (BatchProcessor.this st')) = Logger.logFile l /\
  Logger.failedRecordsFile (BatchProcessor.logger (BatchProcessor.this st'))
  = Logger.failedRecordsFile l /\
  (forall path, path <> Logger.logFile l -> path <> Logger.failedRecordsFile l ->
                BatchProcessor.files st' !! path = BatchProcessor.files st !! path) /\
  (Logger.logFile l <> Logger.failedRecordsFile l ->
   exists suffix,
     text (BatchProcessor.files st') (Logger.logFile l)
     = (text (BatchProcessor.files st) (Logger.logFile l) ++ suffix)%string) /\
  (forall k, k <> KEY -> k <> REGION ->
             BatchProcessor.env st' !! k = BatchProcessor.env st !! k).

(** A computation of the engine that stays within the footprint, however
    it ends. *)
Definition within_footprint {A} (m : BatchProcessor.M A) : Prop :=
  forall st res st', m st = (res, st') -> footprint st st'.

(** A server started without an API key in its environment: the runtime,
    a network on which every request would succeed, and the host of a run
    of the sample processor there. *)
Module Keyless.

Definition runtime : DeleteCustomer.Runtime :=
  {| DeleteCustomer.base64 := fun s => s;
     DeleteCustomer.toUpperCase := fun s => s;
     DeleteCustomer.stringify := fun _ => "{}";
     DeleteCustomer.stringify_indented := fun _ => "{}";
     DeleteCustomer.indented := fun s => s |}.

Definition fetch (request : DeleteCustomer.Request) : DeleteCustomer.FetchResult :=
  DeleteCustomer.FetchResponse true 200 "OK" None.

Definition host : Host :=
  {| remote := fun i _ =>
       DeleteCustomer.settled
         (DeleteCustomer.deleteCustomer runtime (DeleteCustomer.load ∅)
            (DeleteCustomer.of_call
               (BatchProcessor.deleteOptions Sample.processor
                  (match BatchProcessor.records Sample.processor !! i with
                   | Some record => record !! "email"
                   | None => None
                   end)))
            fetch);
     cancel_at := fun _ => false;
     write_error := fun _ => None;
     Date_now := fun k => 1000 * Z.of_nat k;
     toISOString := Sample.iso;
     toFixed1 := fun _ => "0.0" |}.

End Keyless.

(** * Properties *)

(** ** The rate limiter *)

Section RateLimiterInvariant.

Import RateLimiter.

Variable config : RateConfig.
Hypothesis base_nonneg : (0 <= baseDelayMs config)%Q.
Hypothesis base_le_max : (baseDelayMs config <= maxDelayMs config)%Q.
Hypothesis multiplier_ge_1 : (1 <= rate_backoffMultiplier config)%Q.

Lemma tuned_new : tuned config (new config).
Proof.
  unfold tuned, within_bounds; simpl.
  repeat split; auto using Qle_refl.
Qed.

Lemma grow_ge (x m : Q) : (0 <= x)%Q -> (1 <= m)%Q -> (x <= x * m)%Q.
Proof.
  intros Hx Hm.
  apply Qle_trans with (1 * x)%Q.
  - rewrite Qmult_1_l. apply Qle_refl.
  - rewrite (Qmult_comm x m). apply Qmult_le_compat_r; assumption.
Qed.

Lemma shrink_le (x m : Q) : (0 <= x)%Q -> (1 <= m)%Q -> (x / m <= x)%Q.
Proof.
  intros Hx Hm.
  assert (Hpos : (0 < m)%Q) by (apply Qlt_le_trans with 1%Q; [reflexivity | exact Hm]).
  apply Qle_shift_div_r; [exact Hpos |].
  apply grow_ge; assumption.
Qed.

Lemma current_nonneg r : tuned config r -> (0 <= currentDelay r)%Q.
Proof.
  intros (Hb & _ & _ & Hlo & _).
  apply Qle_trans with (baseDelay r); [rewrite Hb; assumption | assumption].
Qed.

Lemma tuned_onSuccess r : tuned config r -> tuned config (onSuccess r).
Proof.
  intros Hr. pose proof (current_nonneg r Hr) as Hpos.
  destruct Hr as (Hb & Hm & Hk & Hlo & Hhi).
  unfold onSuccess.
  destruct ((10 <=? S (consecutiveSuccesses r))%nat
            && Qgtb (currentDelay r) (baseDelay r)) eqn:E;
    unfold tuned, within_bounds; simpl; repeat split; auto.
  - apply Q.le_max_l.
  - apply Q.max_lub; [apply Qle_trans with (currentDelay r); assumption |].
    apply Qle_trans with (currentDelay r); [| assumption].
    apply shrink_le; [assumption | rewrite Hk; assumption].
Qed.

Lemma tuned_onRateLimit r : tuned config r -> tuned config (fst (onRateLimit r)).
Proof.
  intros Hr. pose proof (current_nonneg r Hr) as Hpos.
  destruct Hr as (Hb & Hm & Hk & Hlo & Hhi).
  unfold tuned, within_bounds; simpl; repeat split; auto.
  - apply Q.min_glb; [apply Qle_trans with (currentDelay r); assumption |].
    apply Qle_trans with (currentDelay r); [assumption |].
    apply grow_ge; [assumption | rewrite Hk; assumption].
  - apply Q.le_min_l.
Qed.

Lemma tuned_feed r s : tuned config r -> tuned config (feed r s).
Proof.
  intros Hr. destruct s; [apply tuned_onSuccess | apply tuned_onRateLimit]; exact Hr.
Qed.

Lemma tuned_fold calls : forall r, tuned config r -> tuned config (fold_left feed calls r).
Proof.
  induction calls as [| s calls IH]; simpl; intros r Hr; [exact Hr |].
  apply IH, tuned_feed, Hr.
Qed.

End RateLimiterInvariant.

(** C3, as stated, fails: with a multiplier below one (here one half, base
    delay 100, maximum 5000) a single [onRateLimit] call brings the current
    delay to 50, below the base delay. *)
Lemma rate_limiter_bounds_fail_below_one :
  ~ (forall (config : RateConfig) (calls : list RateLimiter.signal),
        RateLimiter.non_negative config ->
        (baseDelayMs config <= maxDelayMs config)%Q ->
        RateLimiter.within_bounds (RateLimiter.run config calls)).
Proof.
  intros H.
  specialize (H {| baseDelayMs := 100; maxDelayMs := 5000;
                   rate_backoffMultiplier := 1 # 2 |}
                [RateLimiter.Throttled]).
  destruct H as [Hlo _].
  - repeat split; discriminate.
  - discriminate.
  - vm_compute in Hlo. apply Hlo. reflexivity.
Qed.

(** C3, amended: for every rate configuration with a non-negative base
    delay, [baseDelay <= maxDelay] and a backoff multiplier of at least one,
    the current delay stays within [[baseDelay, maxDelay]] after every finite
    sequence of [onSuccess] and [onRateLimit] calls from the initial state. *)
Theorem rate_limiter_delay_within_bounds
        (config : RateConfig) (calls : list RateLimiter.signal) :
  (0 <= baseDelayMs config)%Q ->
  (baseDelayMs config <= maxDelayMs config)%Q ->
  (1 <= rate_backoffMultiplier config)%Q ->
  (baseDelayMs config <= RateLimiter.currentDelay (RateLimiter.run config calls))%Q /\
  (RateLimiter.currentDelay (RateLimiter.run config calls) <= maxDelayMs config)%Q.
Proof.
  intros H0 Hle H1.
  destruct (tuned_fold config H0 H1 calls (RateLimiter.new config)
                       (tuned_new config Hle))
    as (Hb & Hm & _ & Hlo & Hhi).
  rewrite <- Hb at 1. rewrite <- Hm. split; assumption.
Qed.

Lemma rate_limiter_delay_within_bounds_witness :
  let config := {| baseDelayMs := 100; maxDelayMs := 200;
                   rate_backoffMultiplier := 3 # 2 |} in
  let calls := [RateLimiter.Throttled; RateLimiter.Throttled; RateLimiter.Succeeded] in
  (baseDelayMs config <= RateLimiter.currentDelay (RateLimiter.run config calls))%Q /\
  (RateLimiter.currentDelay (RateLimiter.run config calls) <= maxDelayMs config)%Q.
Proof.
  intros config calls.
  apply (rate_limiter_delay_within_bounds config calls); discriminate.
Defined.

(** ** The retry policy *)

Section RetryPolicy.

Context {math : MathLibrary}.

Variable call : Z -> CallResult.
Variable retry : RetryConfig.
Variable options : DeleteOptions.

Lemma prescribed_S k n :
  prescribed retry options k (S n)
  = Call options k :: Sleep (backoff retry k) :: prescribed retry options (k + 1) n.
Proof. reflexivity. Qed.

Lemma prescribed_head k n :
  prescribed retry options k n = Call options k :: tail (prescribed retry options k n).
Proof. destruct n; reflexivity. Qed.

(** The retry loop never runs out of the fuel [deleteWithRetry] gives it. *)
Lemma attempts_total fuel : forall attempt,
  (Z.to_nat (maxAttempts retry - attempt) <= fuel)%nat ->
  exists r, Cli.attempts call retry options fuel attempt = Some r.
Proof.
  induction fuel as [| fuel IH]; intros attempt Hfuel; simpl;
    destruct (call attempt) as [r | e]; eauto;
    destruct (attempt <? maxAttempts retry) eqn:Hlt; simpl; eauto;
    destruct ((status_or_500 e =? 429) || (500 <=? status_or_500 e)); eauto.
  - apply Z.ltb_lt in Hlt. lia.
  - apply Z.ltb_lt in Hlt.
    destruct (IH (attempt + 1)) as [[out obs] ->]; [lia | eauto].
Qed.

(** Every result has the prescribed shape. *)
Lemma attempts_prescribed fuel : forall attempt outcome obs,
  Cli.attempts call retry options fuel attempt = Some (outcome, obs) ->
  exists n,
    Call options attempt :: obs = prescribed retry options attempt n /\
    (n = O \/ attempt + Z.of_nat n <= maxAttempts retry) /\
    match outcome with
    | Failure _ _ k => k = attempt + Z.of_nat n
    | Success _ => True
    end.
Proof.
  induction fuel as [| fuel IH]; intros attempt outcome obs; simpl;
    destruct (call attempt) as [r | e].
  1, 3: intros [= <- <-]; exists O; simpl; auto.
  all: destruct (attempt <? maxAttempts retry) eqn:Hlt; simpl;
    destruct ((status_or_500 e =? 429) || (500 <=? status_or_500 e)); simpl;
    try discriminate;
    try (intros [= <- <-]; exists O; simpl; repeat split; auto; lia).
  destruct (Cli.attempts call retry options fuel (attempt + 1))
    as [[out' obs'] |] eqn:Hrec; [| discriminate].
  intros [= <- <-].
  destruct (IH _ _ _ Hrec) as (n & Hshape & Hbound & Hout).
  exists (S n). rewrite prescribed_S. unfold backoff. rewrite <- Hshape.
  apply Z.ltb_lt in Hlt.
  repeat split; [right; lia |].
  destruct out'; [exact I | lia].
Qed.

(** A call that is rejected with a retryable status at every attempt is
    retried up to the limit. *)
Lemma attempts_exhausted status fuel :
  ((status =? 429) || (500 <=? status) = true) ->
  (forall attempt, exists e, call attempt = Rejected e /\ status_or_500 e = status) ->
  forall attempt,
    attempt <= maxAttempts retry ->
    (Z.to_nat (maxAttempts retry - attempt) <= fuel)%nat ->
    exists msg,
      Cli.attempts call retry options fuel attempt
      = Some (Failure msg status (maxAttempts retry),
              tail (prescribed retry options attempt
                      (Z.to_nat (maxAttempts retry - attempt)))).
Proof.
  intros Hretry Hcall.
  induction fuel as [| fuel IH]; intros attempt Hle Hfuel; simpl;
    destruct (Hcall attempt) as (e & -> & ->); rewrite Hretry;
    destruct (attempt <? maxAttempts retry) eqn:Hlt; simpl.
  - apply Z.ltb_lt in Hlt. lia.
  - apply Z.ltb_ge in Hlt. assert (attempt = maxAttempts retry) as -> by lia.
    rewrite Z.sub_diag. simpl. eauto.
  - apply Z.ltb_lt in Hlt.
    destruct (IH (attempt + 1)) as (msg & ->); [lia | lia |].
    exists msg.
    replace (Z.to_nat (maxAttempts retry - attempt))
      with (S (Z.to_nat (maxAttempts retry - (attempt + 1)))) by lia.
    rewrite prescribed_S, (prescribed_head (attempt + 1)). reflexivity.
  - apply Z.ltb_ge in Hlt. assert (attempt = maxAttempts retry) as -> by lia.
    rewrite Z.sub_diag. simpl. eauto.
Qed.

Lemma call_attempts_prescribed n : forall k,
  call_attempts (prescribed retry options k n) = seqZ k (Z.of_nat (S n)).
Proof.
  induction n as [| n IH]; intros k.
  - reflexivity.
  - rewrite prescribed_S. unfold call_attempts in *. simpl. rewrite IH.
    rewrite (seqZ_cons k (Z.of_nat (S (S n)))) by lia.
    f_equal. f_equal; lia.
Qed.

Lemma suspensions_prescribed n : forall k,
  suspensions (prescribed retry options k n)
  = map (backoff retry) (seqZ k (Z.of_nat n)).
Proof.
  induction n as [| n IH]; intros k.
  - reflexivity.
  - rewrite prescribed_S. unfold suspensions in *. simpl. rewrite IH.
    rewrite (seqZ_cons k (Z.of_nat (S n))) by lia.
    simpl. f_equal. f_equal. f_equal; lia.
Qed.

(** In a prescribed trace, the suspension that follows call [j] is
    [backoff retry j] and is followed by call [j + 1]. *)
Lemma prescribed_adjacent n : forall k pre post j d,
  prescribed retry options k n = pre ++ Call options j :: Sleep d :: post ->
  d = backoff retry j /\
  exists post', post = Call options (j + 1) :: post'.
Proof.
  induction n as [| n IH]; intros k pre post j d Heq.
  - destruct pre as [| x [| y pre]]; discriminate.
  - rewrite prescribed_S in Heq.
    destruct pre as [| x pre].
    + injection Heq as Hj Hd Hpost. subst j. split; [congruence |].
      destruct n; simpl in Hpost; eauto.
    + destruct pre as [| y pre]; [discriminate |].
      injection Heq as _ _ Heq.
      eapply IH. exact Heq.
Qed.

End RetryPolicy.

(** ** The retry policy inside the engine *)

Section EngineRetry.

Context {math : MathLibrary}.

Import BatchProcessor.

Variable p : t.
Variable call : Z -> CallResult.
Variable identifier : option string.

Let options := deleteOptions p identifier.

(** The engine's retry loop makes the calls and suspensions of the
    command-line one, with the same outcome. *)
Lemma settle_forget fuel : forall attempt originalKey env,
  option_map forget_env (settle p call identifier fuel attempt originalKey env)
  = Cli.attempts call (retry p) options fuel attempt.
Proof.
  induction fuel as [| fuel IH]; intros attempt originalKey env; simpl;
    destruct (call attempt) as [r | e]; try reflexivity;
    destruct ((attempt <? maxAttempts (retry p))
              && ((status_or_500 e =? 429) || (500 <=? status_or_500 e)));
    try reflexivity.
  rewrite <- (IH (attempt + 1) (env !! KEY)
                 (restore originalKey
                    (<[REGION:=region p]> (<[KEY:=env_string (apiKey p)]> env)))).
  destruct (settle p call identifier fuel (attempt + 1) _ _) as [[[out env3] obs] |];
    reflexivity.
Qed.

Lemma deleteWithRetry_forget attempt env :
  option_map forget_env (deleteWithRetry p call identifier attempt env)
  = Cli.deleteWithRetry call (retry p) options attempt.
Proof.
  unfold deleteWithRetry, Cli.deleteWithRetry, override.
  rewrite <- (settle_forget _ attempt (env !! KEY)
                (<[REGION:=region p]> (<[KEY:=env_string (apiKey p)]> env))).
  destruct (settle p call identifier _ attempt _ _) as [[[out env3] obs] |];
    reflexivity.
Qed.

(** [deleteWithRetry] always returns. *)
Lemma deleteWithRetry_total attempt env :
  exists outcome env' obs,
    deleteWithRetry p call identifier attempt env = Some (outcome, env', obs).
Proof.
  pose proof (deleteWithRetry_forget attempt env) as H.
  unfold Cli.deleteWithRetry in H.
  destruct (attempts_total call (retry p) options
              (Z.to_nat (maxAttempts (retry p) - attempt)) attempt)
    as [[out obs] Hrun]; [lia |].
  rewrite Hrun in H.
  destruct (deleteWithRetry p call identifier attempt env)
    as [[[out' env'] obs'] |]; [eauto | discriminate].
Qed.

(** What the engine's result is, from the command-line one. *)
Lemma deleteWithRetry_of_cli attempt env outcome obs :
  Cli.deleteWithRetry call (retry p) options attempt = Some (outcome, obs) ->
  exists env', deleteWithRetry p call identifier attempt env = Some (outcome, env', obs).
Proof.
  intros H. rewrite <- (deleteWithRetry_forget attempt env) in H.
  destruct (deleteWithRetry p call identifier attempt env)
    as [[[out' env'] obs'] |]; [| discriminate].
  injection H as -> ->. eauto.
Qed.

End EngineRetry.

Section RetryEquations.

Context {math : MathLibrary}.

Import BatchProcessor.

Variable p : t.
Variable call : Z -> CallResult.
Variable identifier : option string.

Lemma settle_resolved fuel attempt originalKey env result :
  call attempt = Resolved result ->
  settle p call identifier fuel attempt originalKey env
  = Some (Success result, restore originalKey env, []).
Proof. intros H. destruct fuel; simpl; rewrite H; reflexivity. Qed.

Lemma settle_retry fuel attempt originalKey env e :
  call attempt = Rejected e ->
  attempt < maxAttempts (retry p) ->
  (status_or_500 e =? 429) || (500 <=? status_or_500 e) = true ->
  settle p call identifier (S fuel) attempt originalKey env
  = match settle p call identifier fuel (attempt + 1)
                 (fst (override p env)) (restore originalKey (snd (override p env))) with
    | Some (outcome, env3, obs) =>
        Some (outcome, env3,
              Sleep (backoff (retry p) attempt)
              :: Call (deleteOptions p identifier) (attempt + 1) :: obs)
    | None => None
    end.
Proof.
  intros H Hlt Hst. simpl. rewrite H, Hst.
  apply Z.ltb_lt in Hlt. rewrite Hlt. reflexivity.
Qed.

Lemma settle_final fuel attempt originalKey env e :
  call attempt = Rejected e ->
  (attempt <? maxAttempts (retry p))
  && ((status_or_500 e =? 429) || (500 <=? status_or_500 e)) = false ->
  settle p call identifier fuel attempt originalKey env
  = Some (Failure (message e) (status_or_500 e) attempt, restore originalKey env, []).
Proof. intros H Hst. destruct fuel; simpl; rewrite H, Hst; reflexivity. Qed.

Lemma lookup_override_KEY env :
  snd (override p env) !! KEY = Some (env_string (apiKey p)).
Proof.
  unfold override; simpl.
  rewrite lookup_insert_ne by discriminate. apply lookup_insert_eq.
Qed.

Lemma lookup_restore_REGION originalKey env :
  restore originalKey env !! REGION = env !! REGION.
Proof.
  unfold restore. destruct originalKey as [k |].
  - destruct (truthy (Some k)).
    + apply lookup_insert_ne. discriminate.
    + apply lookup_delete_ne. discriminate.
  - apply lookup_delete_ne. discriminate.
Qed.

Lemma lookup_restore_KEY originalKey env :
  restore originalKey env !! KEY
  = if truthy originalKey then originalKey else None.
Proof.
  unfold restore. destruct originalKey as [k |].
  - destruct (truthy (Some k)).
    + apply lookup_insert_eq.
    + apply lookup_delete_eq.
  - apply lookup_delete_eq.
Qed.

End RetryEquations.

(** C4: with [maxAttempts >= 1], an item whose remote call is rejected with
    status 500 at every attempt is tried exactly [maxAttempts] times
    (attempts 1 to [maxAttempts]) and ends as a Failure with status 500 whose
    attempt count is [maxAttempts]; an item whose first call is rejected with
    status 404 is tried once, never retried, and ends as a Failure of
    attempt 1.  The engine and the command-line [deleteWithRetry] agree. *)
Theorem retry_attempt_count {math : MathLibrary}
        (p : BatchProcessor.t) (identifier : option string)
        (env : gmap string string)
        (call500 call404 : Z -> CallResult) (msg404 : string) :
  1 <= maxAttempts (BatchProcessor.retry p) ->
  always_rejects 500 call500 ->
  call404 1 = Rejected {| message := msg404; err_status := Some 404 |} ->
  (exists msg env' obs,
      BatchProcessor.deleteWithRetry p call500 identifier 1 env
      = Some (Failure msg 500 (maxAttempts (BatchProcessor.retry p)), env', obs) /\
      Cli.deleteWithRetry call500 (BatchProcessor.retry p)
                          (BatchProcessor.deleteOptions p identifier) 1
      = Some (Failure msg 500 (maxAttempts (BatchProcessor.retry p)), obs) /\
      call_attempts obs = seqZ 1 (maxAttempts (BatchProcessor.retry p)) /\
      length (call_attempts obs) = Z.to_nat (maxAttempts (BatchProcessor.retry p))) /\
  (exists env',
      BatchProcessor.deleteWithRetry p call404 identifier 1 env
      = Some (Failure msg404 404 1, env',
              [Call (BatchProcessor.deleteOptions p identifier) 1]) /\
      Cli.deleteWithRetry call404 (BatchProcessor.retry p)
                          (BatchProcessor.deleteOptions p identifier) 1
      = Some (Failure msg404 404 1,
              [Call (BatchProcessor.deleteOptions p identifier) 1])).
Proof.
  intros Hmax H500 H404.
  set (options := BatchProcessor.deleteOptions p identifier).
  set (retry := BatchProcessor.retry p) in *.
  split.
  - destruct (attempts_exhausted call500 retry options 500
                (Z.to_nat (maxAttempts retry - 1)) eq_refl) with (attempt := 1)
      as (msg & Hrun); [| lia | lia |].
    { intros a. destruct (H500 a) as (m & ->). eauto. }
    assert (Hcli : Cli.deleteWithRetry call500 retry options 1
                   = Some (Failure msg 500 (maxAttempts retry),
                           prescribed retry options 1 (Z.to_nat (maxAttempts retry - 1)))).
    { unfold Cli.deleteWithRetry. rewrite Hrun.
      rewrite <- prescribed_head. reflexivity. }
    destruct (deleteWithRetry_of_cli p call500 identifier 1 env _ _ Hcli)
      as (env' & Heng).
    exists msg, env', (prescribed retry options 1 (Z.to_nat (maxAttempts retry - 1))).
    split; [exact Heng |]. split; [exact Hcli |].
    rewrite call_attempts_prescribed.
    replace (Z.of_nat (S (Z.to_nat (maxAttempts retry - 1)))) with (maxAttempts retry) by lia.
    split; [reflexivity | apply length_seqZ].
  - assert (Hcli : Cli.deleteWithRetry call404 retry options 1
                   = Some (Failure msg404 404 1, [Call options 1])).
    { unfold Cli.deleteWithRetry.
      destruct (Z.to_nat (maxAttempts retry - 1)); simpl; rewrite H404; simpl;
        rewrite andb_false_r; reflexivity. }
    destruct (deleteWithRetry_of_cli p call404 identifier 1 env _ _ Hcli)
      as (env' & Heng).
    exists env'. split; [exact Heng | exact Hcli].
Qed.

Lemma retry_attempt_count_witness :
  1 <= maxAttempts (BatchProcessor.retry Sample.processor) /\
  always_rejects 500 (fun _ => Sample.rejected 500) /\
  (exists msg env' obs,
      BatchProcessor.deleteWithRetry (math := nearest_pow) Sample.processor (fun _ => Sample.rejected 500)
                                     (Some "a@x.io") 1 ∅
      = Some (Failure msg 500 3, env', obs) /\
      call_attempts obs = [1; 2; 3]).
Proof.
  assert (H1 : 1 <= maxAttempts (BatchProcessor.retry Sample.processor))
    by (vm_compute; discriminate).
  assert (H2 : always_rejects 500 (fun _ => Sample.rejected 500))
    by (intros a; eexists; reflexivity).
  split; [exact H1 | split; [exact H2 |]].
  destruct (retry_attempt_count (math := nearest_pow) Sample.processor (Some "a@x.io") ∅
              (fun _ => Sample.rejected 500) (fun _ => Sample.rejected 404)
              "API Error" H1 H2 eq_refl)
    as [(msg & env' & obs & Hrun & _ & Hcalls & _) _].
  exists msg, env', obs. split; [exact Hrun | exact Hcalls].
Defined.



(** ** The process environment *)

Section ProcessEnvironment.

Context {math : MathLibrary}.

Import BatchProcessor.

Variable p : t.
Variable call : Z -> CallResult.
Variable identifier : option string.

(** Without a retry the [finally] block puts the variable back: to its
    former value when that was a non-empty string, and removes it
    otherwise. *)
Lemma deleteWithRetry_restores_without_retry env :
  (match call 1 with
   | Resolved _ => true
   | Rejected e =>
       negb ((1 <? maxAttempts (retry p))
             && ((status_or_500 e =? 429) || (500 <=? status_or_500 e)))
   end = true) ->
  exists outcome env',
    deleteWithRetry p call identifier 1 env
    = Some (outcome, env', [Call (deleteOptions p identifier) 1]) /\
    env' !! KEY = (if truthy (env !! KEY) then env !! KEY else None) /\
    env' !! REGION = Some (region p).
Proof.
  intros Hdirect. unfold deleteWithRetry, override.
  destruct (call 1) as [r | e] eqn:Hcall.
  - rewrite (settle_resolved _ _ _ _ _ _ _ r Hcall).
    eexists _, _. split; [reflexivity |]. split.
    + apply lookup_restore_KEY.
    + rewrite lookup_restore_REGION. apply lookup_insert_eq.
  - apply negb_true_iff in Hdirect.
    rewrite (settle_final _ _ _ _ _ _ _ e Hcall Hdirect).
    eexists _, _. split; [reflexivity |]. split.
    + apply lookup_restore_KEY.
    + rewrite lookup_restore_REGION. apply lookup_insert_eq.
Qed.

End ProcessEnvironment.

(** C10 does not hold on the retry path.  The retry is returned without
    being awaited, so the [finally] block of the first call runs before the
    second call settles, and the [finally] block of the second call then
    writes back what it read on entry: the API key of the engine.  After one
    retryable rejection followed by a success, [BLUESHIFT_USER_API_KEY] holds
    the API key whatever it held (or not) before the call. *)
Theorem env_key_not_restored_after_one_retry {math : MathLibrary}
        (p : BatchProcessor.t) (call : Z -> CallResult)
        (identifier : option string) (env : gmap string string)
        (key : string) (e : JsError) (r : ApiResult) :
  BatchProcessor.apiKey p = Some key ->
  key <> EmptyString ->
  call 1 = Rejected e ->
  (status_or_500 e =? 429) || (500 <=? status_or_500 e) = true ->
  1 < maxAttempts (BatchProcessor.retry p) ->
  call 2 = Resolved r ->
  exists env' obs,
    BatchProcessor.deleteWithRetry p call identifier 1 env = Some (Success r, env', obs) /\
    env' !! KEY = Some key /\
    env' !! REGION = Some (BatchProcessor.region p).
Proof.
  intros Hkey Hne H1 Hretry Hmax H2.
  unfold BatchProcessor.deleteWithRetry.
  destruct (BatchProcessor.override p env) as [originalKey env1] eqn:Hov.
  replace (Z.to_nat (maxAttempts (BatchProcessor.retry p) - 1))
    with (S (Z.to_nat (maxAttempts (BatchProcessor.retry p) - 2))) by lia.
  rewrite (settle_retry p call identifier _ 1 originalKey env1 e H1 Hmax Hretry).
  change (1 + 1) with 2.
  rewrite (settle_resolved p call identifier _ 2 _ _ r H2).
  eexists _, _. split; [reflexivity |]. split.
  - rewrite lookup_restore_KEY.
    assert (Hfst : fst (BatchProcessor.override p env1) = Some key).
    { unfold BatchProcessor.override; simpl.
      replace env1 with (snd (BatchProcessor.override p env)) by (rewrite Hov; reflexivity).
      rewrite lookup_override_KEY, Hkey. reflexivity. }
    rewrite Hfst. simpl.
    destruct (String.eqb_spec key EmptyString) as [-> | _]; [congruence | reflexivity].
  - rewrite !lookup_restore_REGION. unfold BatchProcessor.override; simpl.
    apply lookup_insert_eq.
Qed.

Lemma env_key_not_restored_after_one_retry_witness :
  exists env' obs,
    BatchProcessor.deleteWithRetry (math := nearest_pow) Sample.processor (Sample.flaky 500)
                                   (Some "a@x.io") 1 ∅
    = Some (Success {| res_status := 200; res_data := "{}" |}, env', obs) /\
    env' !! KEY = Some "secret" /\
    env' !! REGION = Some "us".
Proof.
  apply (env_key_not_restored_after_one_retry (math := nearest_pow) Sample.processor (Sample.flaky 500)
           (Some "a@x.io") ∅ "secret"
           {| message := "API Error"; err_status := Some 500 |}
           {| res_status := 200; res_data := "{}" |});
    first [reflexivity | discriminate].
Defined.

(** ** The failed-records file *)

Section Lines.

Lemma lines_nonempty s : lines s <> [].
Proof.
  destruct s as [| c rest]; simpl; [discriminate |].
  destruct (Ascii.eqb c (ascii_of_nat 10)); [discriminate |].
  destruct (lines rest); discriminate.
Qed.

Lemma single_line_app a b :
  single_line (a ++ b) = single_line a && single_line b.
Proof.
  induction a as [| c a IH]; simpl; [reflexivity |].
  rewrite IH. apply andb_assoc.
Qed.

Lemma lines_single s : single_line s = true -> lines s = [s].
Proof.
  induction s as [| c s IH]; simpl; [reflexivity |].
  intros H. apply andb_true_iff in H as [Hc Hs].
  apply negb_true_iff in Hc. rewrite Hc, (IH Hs). reflexivity.
Qed.

Lemma lines_break a b :
  single_line a = true -> lines (a ++ newline ++ b) = a :: lines b.
Proof.
  induction a as [| c a IH]; simpl; [reflexivity |].
  intros H. apply andb_true_iff in H as [Hc Ha].
  apply negb_true_iff in Hc. rewrite Hc, (IH Ha). reflexivity.
Qed.

Lemma lines_join rows :
  Forall (fun r => single_line r = true) rows ->
  rows <> [] ->
  lines (join_lines rows) = rows.
Proof.
  induction rows as [| r rows IH]; intros Hall Hne; [congruence |].
  inversion Hall as [| ? ? Hr Hrest]; subst.
  destruct rows as [| r' rows].
  - simpl. apply lines_single, Hr.
  - change (join_lines (r :: r' :: rows))
      with (r ++ newline ++ join_lines (r' :: rows))%string.
    rewrite (lines_break _ _ Hr), IH; [reflexivity | exact Hrest | discriminate].
Qed.

Lemma single_line_uint d : single_line (NilEmpty.string_of_uint d) = true.
Proof. induction d; simpl; auto. Qed.

Lemma single_line_Z_to_string z : single_line (Z_to_string z) = true.
Proof.
  unfold Z_to_string, NilZero.string_of_int, NilZero.string_of_uint.
  destruct (Z.to_int z) as [d | d]; destruct d; simpl;
    auto using single_line_uint.
Qed.

Lemma single_line_csvRow r :
  single_line (template (Logger.identifier r)) = true ->
  single_line (Logger.error r) = true ->
  single_line (Logger.csvRow r) = true.
Proof.
  intros Hid Herr. unfold Logger.csvRow.
  rewrite !single_line_app, Hid, Herr, single_line_Z_to_string. reflexivity.
Qed.

Lemma string_app_assoc (a b c : string) : ((a ++ b) ++ c = a ++ (b ++ c))%string.
Proof.
  induction a as [| x a IH]; [reflexivity |].
  change (String x ((a ++ b) ++ c) = String x (a ++ (b ++ c)))%string.
  rewrite IH. reflexivity.
Qed.

(** The lines of the text written for a non-empty collection. *)
Lemma lines_failed_records columnName l :
  single_line columnName = true ->
  Forall (fun r => single_line (template (Logger.identifier r)) = true /\
                   single_line (Logger.error r) = true) (Logger.failedRecords l) ->
  Logger.failedRecords l <> [] ->
  lines (Logger.csvHeader columnName ++ Logger.csvRows l)
  = (columnName ++ ",error,status")%string :: map Logger.csvRow (Logger.failedRecords l).
Proof.
  intros Hcol Hall Hne. unfold Logger.csvHeader, Logger.csvRows.
  set (rows := join_lines (map Logger.csvRow (Logger.failedRecords l))).
  replace ((columnName ++ ",error,status" ++ newline) ++ rows)%string
    with ((columnName ++ ",error,status") ++ newline ++ rows)%string
    by (rewrite !string_app_assoc; reflexivity).
  subst rows. rewrite lines_break.
  - rewrite lines_join; [reflexivity | | destruct (Logger.failedRecords l); [congruence | discriminate]].
    apply Forall_map. eapply Forall_impl; [exact Hall |].
    intros r [Hid Herr]. apply single_line_csvRow; assumption.
  - rewrite single_line_app, Hcol. reflexivity.
Qed.

End Lines.

(** C8, as stated, fails on the number of lines: a recorded identifier that
    contains a line break (a quoted field of the input may) is written as it
    is, so the file of one failure has three lines instead of two. *)
Lemma flush_line_count_fails_on_line_break :
  ~ (forall (host : Host) (columnName : string) (st : BatchProcessor.State),
        Logger.failedRecords (BatchProcessor.logger (BatchProcessor.this st)) <> [] ->
        write_error host (BatchProcessor.writes st) = None ->
        exists path content st',
          BatchProcessor.saveFailedRecords host columnName st
          = (BatchProcessor.Ok (Some path), st') /\
          BatchProcessor.files st' !! path = Some content /\
          length (lines content)
          = S (length (Logger.failedRecords
                         (BatchProcessor.logger (BatchProcessor.this st))))).
Proof.
  intros H.
  destruct (H Sample.calm "email"
              (Sample.state_of
                 (Sample.with_failures
                    [Sample.failure_404 ("a" ++ newline ++ "b")%string])))
    as (path & content & st' & Hrun & Hfile & Hlen);
    [discriminate | reflexivity |].
  vm_compute in Hrun. injection Hrun as <- <-.
  vm_compute in Hfile. injection Hfile as <-.
  vm_compute in Hlen. discriminate.
Qed.

(** C8, amended: with an empty failure collection [saveFailedRecords] writes
    nothing and returns no path; with [n >= 1] recorded failures, when the
    write succeeds, exactly one file is written, at the failed-records path,
    and that path is returned; when moreover the column name, the
    identifiers and the error messages contain no line break, the first line
    of the file is [<columnName>,error,status] and it is followed by one
    quoted row per recorded failure, [n + 1] lines in total. *)
Theorem saveFailedRecords_contract
        (host : Host) (columnName : string) (st : BatchProcessor.State) :
  (Logger.failedRecords (BatchProcessor.logger (BatchProcessor.this st)) = [] ->
   BatchProcessor.saveFailedRecords host columnName st = (BatchProcessor.Ok None, st)) /\
  (Logger.failedRecords (BatchProcessor.logger (BatchProcessor.this st)) <> [] ->
   write_error host (BatchProcessor.writes st) = None ->
   exists content,
     BatchProcessor.saveFailedRecords host columnName st
     = (BatchProcessor.Ok
          (Some (Logger.failedRecordsFile (BatchProcessor.logger (BatchProcessor.this st)))),
        BatchProcessor.with_files
          (BatchProcessor.with_writes st (S (BatchProcessor.writes st)))
          (<[Logger.failedRecordsFile (BatchProcessor.logger (BatchProcessor.this st))
             := content]> (BatchProcessor.files st))) /\
     (single_line columnName = true ->
      Forall (fun r => single_line (template (Logger.identifier r)) = true /\
                       single_line (Logger.error r) = true)
             (Logger.failedRecords (BatchProcessor.logger (BatchProcessor.this st))) ->
      lines content
      = (columnName ++ ",error,status")%string
        :: map Logger.csvRow
               (Logger.failedRecords (BatchProcessor.logger (BatchProcessor.this st))) /\
      length (lines content)
      = S (length (Logger.failedRecords
                     (BatchProcessor.logger (BatchProcessor.this st)))))).
Proof.
  unfold BatchProcessor.saveFailedRecords, BatchProcessor.bind, BatchProcessor.gets,
    BatchProcessor.ret, BatchProcessor.writeFileSync.
  split.
  - intros ->. reflexivity.
  - intros Hne Hwrite.
    destruct (Logger.failedRecords (BatchProcessor.logger (BatchProcessor.this st)))
      as [| r rs] eqn:Hrs; [congruence |].
    cbn [length Nat.eqb]. rewrite Hwrite.
    eexists. split; [reflexivity |].
    intros Hcol Hall.
    rewrite lines_failed_records; [| exact Hcol | rewrite Hrs; exact Hall
                                   | rewrite Hrs; discriminate].
    rewrite Hrs. split; [reflexivity |].
    simpl. rewrite length_map. reflexivity.
Qed.

Lemma saveFailedRecords_contract_witness :
  exists content,
    BatchProcessor.saveFailedRecords Sample.calm "email"
      (Sample.state_of
         (Sample.with_failures [Sample.failure_404 "a@x.io"; Sample.failure_404 "b@x.io"]))
    = (BatchProcessor.Ok (Some "./logs/failed-records-2024-01-01T12-00-00.csv"),
       BatchProcessor.with_files
         (BatchProcessor.with_writes
            (Sample.state_of
               (Sample.with_failures
                  [Sample.failure_404 "a@x.io"; Sample.failure_404 "b@x.io"])) 1%nat)
         (<["./logs/failed-records-2024-01-01T12-00-00.csv" := content]> ∅)) /\
    length (lines content) = 3%nat.
Proof.
  destruct (saveFailedRecords_contract Sample.calm "email"
              (Sample.state_of
                 (Sample.with_failures
                    [Sample.failure_404 "a@x.io"; Sample.failure_404 "b@x.io"])))
    as [_ H].
  destruct H as (content & Hrun & Hlines); [discriminate | reflexivity |].
  exists content. split; [exact Hrun |].
  destruct Hlines as [_ Hlen]; [reflexivity | repeat constructor | exact Hlen].
Defined.

(** ** Streams of events *)

Section EventStreams.

Context {math : MathLibrary}.

Lemma events_app a b : events (a ++ b) = events a ++ events b.
Proof. apply omap_app. Qed.

Lemma summaries_app a b : summaries (a ++ b) = summaries a ++ summaries b.
Proof. apply omap_app. Qed.

Lemma count_app f a b : count f (a ++ b) = (count f a + count f b)%nat.
Proof. induction a as [| e a IH]; simpl; [reflexivity | rewrite IH; lia]. Qed.

Lemma justified_app a : forall b c,
  justified_from c a = true ->
  (forall c', justified_from c' b = true) ->
  justified_from c (a ++ b) = true.
Proof.
  induction a as [| e a IH]; intros b c Ha Hb; simpl; [apply Hb |].
  destruct e; simpl in Ha; try (apply IH; assumption).
  apply andb_true_iff in Ha as [-> Ha]. simpl. apply IH; assumption.
Qed.

(** The reading of [justified_from]: a [rateLimit] event is never first
    and always comes right after a [failure] event with status 429. *)
Lemma justified_adjacent evs : forall c,
  justified_from c evs = true ->
  forall pre oldDelay newDelay post,
    evs = pre ++ EvRateLimit oldDelay newDelay :: post ->
    (pre = [] /\ c = true) \/
    exists pre' identifier error current total,
      pre = pre' ++ [EvFailure identifier error 429 current total].
Proof.
  induction evs as [| e evs IH]; intros c Hj pre oldDelay newDelay post Heq.
  - destruct pre; discriminate.
  - destruct pre as [| x pre].
    + injection Heq as -> _. simpl in Hj.
      apply andb_true_iff in Hj as [-> _]. left. split; reflexivity.
    + injection Heq as <- Heq. right.
      assert (Hnext : exists c', justified_from c' evs = true /\
                                 (c' = true ->
                                  exists identifier error current total,
                                    e = EvFailure identifier error 429 current total)).
      { destruct e; simpl in Hj;
          try (exists false; split; [exact Hj | discriminate]).
        - exists (status =? 429). split; [exact Hj |].
          intros Hs. apply Z.eqb_eq in Hs. subst. eauto.
        - apply andb_true_iff in Hj as [_ Hj].
          exists false; split; [exact Hj | discriminate]. }
      destruct Hnext as (c' & Hj' & Hc').
      destruct (IH c' Hj' pre oldDelay newDelay post Heq)
        as [[-> Hc] | (pre' & identifier & error & current & total & ->)].
      * destruct (Hc' Hc) as (identifier & error & current & total & ->).
        exists [], identifier, error, current, total. reflexivity.
      * exists (e :: pre'), identifier, error, current, total. reflexivity.
Qed.

Lemma frame_refl p : frame p p.
Proof. repeat split. Qed.

Lemma frame_trans p q r : frame p q -> frame q r -> frame p r.
Proof.
  unfold frame. intros (H1 & H2 & H3 & H4 & H5 & H6 & H7)
                       (G1 & G2 & G3 & G4 & G5 & G6 & G7).
  repeat split; congruence.
Qed.

Lemma attempts_no_events call retry options fuel : forall attempt outcome obs,
  Cli.attempts call retry options fuel attempt = Some (outcome, obs) ->
  events obs = [].
Proof.
  induction fuel as [| fuel IH]; intros attempt outcome obs; simpl;
    destruct (call attempt) as [r | e]; try (intros [= <- <-]; reflexivity);
    destruct ((attempt <? maxAttempts retry)
              && ((status_or_500 e =? 429) || (500 <=? status_or_500 e)));
    try discriminate; try (intros [= <- <-]; reflexivity).
  destruct (Cli.attempts call retry options fuel (attempt + 1))
    as [[out' obs'] |] eqn:Hrec; [| discriminate].
  intros [= <- <-]. simpl. eapply IH, Hrec.
Qed.

Lemma deleteWithRetry_no_events p call identifier attempt env outcome env' obs :
  BatchProcessor.deleteWithRetry p call identifier attempt env
  = Some (outcome, env', obs) ->
  events obs = [].
Proof.
  intros H. pose proof (deleteWithRetry_forget p call identifier attempt env) as Hf.
  rewrite H in Hf. simpl in Hf. unfold Cli.deleteWithRetry in Hf.
  destruct (Cli.attempts _ _ _ _ _) as [[out obs'] |] eqn:Ha; [| discriminate].
  injection Hf as _ ->. simpl. eapply attempts_no_events, Ha.
Qed.

End EventStreams.

(** ** One item of a run *)

Section EngineRun.

Context {math : MathLibrary}.

Import BatchProcessor.

Variable host : Host.

Ltac unfold_run H :=
  unfold start, process, await_deleteWithRetry, await_wait, suspended, cancel, log,
    onSuccess, onRateLimit, addFailedRecord, saveFailedRecords, emit, sleep, now,
    writeFileSync, bind, gets, modify, ret, throw, RateLimiter.onRateLimit in H.

Ltac proj :=
  cbn [this env trace writes clock_reads files with_trace with_env with_this
       with_files with_writes with_clock_reads records identifierType columnName
       deleteAll apiKey region rateLimit retry cancelled rateLimiter logger
       with_apiKey with_cancelled with_rateLimiter with_logger fst snd] in *.

Ltac branch H :=
  match type of H with
  | context [match write_error ?h ?n with _ => _ end] =>
      let E := fresh "Hwrite" in destruct (write_error h n) eqn:E
  | context [if ?c then _ else _] =>
      let E := fresh "Hcond" in destruct c eqn:E
  | context [match ?o with Success _ => _ | Failure _ _ _ => _ end] =>
      destruct o
  end.

Ltac rewrite_conds :=
  repeat match goal with
         | H : ?x = true |- context [?x] => rewrite H
         | H : ?x = false |- context [?x] => rewrite H
         end.

Ltac events_norm :=
  repeat rewrite events_app; cbn [events omap list_omap]; rewrite <- ?app_assoc.

Ltac no_write_error :=
  let Hno := fresh "Hno" in
  intros Hno;
  match goal with
  | Hw : write_error host ?n = Some _ |- _ => specialize (Hno n); congruence
  | |- _ => eexists; reflexivity
  end.

(** What processing one item does to the stream of events, to the counts
    and to the cancellation flag. *)
Lemma process_spec i record sc fc st res st' :
  process host i record sc fc st = (res, st') ->
  exists evs,
    events (trace st') = events (trace st) ++ evs /\
    frame (this st) (this st') /\
    Forall (fun e => forall c, event_item e = Some c -> c = S i) evs /\
    (forall b, justified_from b evs = true) /\
    count is_complete evs = O /\
    (forall sc' fc', res = Ok (sc', fc') ->
       sc' = (sc + count is_success evs)%nat /\
       fc' = (fc + count is_failure evs)%nat /\
       (count is_success evs + count is_failure evs = 1)%nat /\
       count is_progress evs = 1%nat /\
       cancelled (this st')
       = cancelled (this st) || cancelled_during host (length (records (this st))) i) /\
    (no_write_errors host -> exists c, res = Ok c) /\
    res <> Throw OutOfFuel.
Proof.
  intros H. unfold_run H.
  destruct (deleteWithRetry_total (this st) (remote host i)
              (record !! columnName (this st)) 1 (env st))
    as (outcome & env' & obs & Hrun).
  pose proof (deleteWithRetry_no_events _ _ _ _ _ _ _ _ Hrun) as Hsilent.
  proj. rewrite Hrun in H.
  repeat (branch H; proj).
  all: injection H as <- <-; proj.
  all: eexists; split; [events_norm; rewrite ?Hsilent; cbn [app]; reflexivity |].
  all: cbn [events omap list_omap app].
  all: repeat split.
  all: try reflexivity.
  all: try discriminate.
  all: try (intros; discriminate).
  all: try (repeat constructor; cbn; intros c; intros [= <-]; reflexivity).
  all: try (intros b; cbn [justified_from]; rewrite_conds; reflexivity).
  all: try (match goal with H : Ok _ = Ok _ |- _ => injection H as <- <- end;
            cbn [count is_success is_failure is_progress]; lia).
  all: try (unfold cancelled_during; rewrite_conds;
            destruct (cancelled (this st)); reflexivity).
  all: no_write_error.
Qed.

(** How the events and the rate limiter depend on the final outcome of the
    item. *)
Lemma process_outcome i record sc fc st res st' :
  process host i record sc fc st = (res, st') ->
  exists outcome obs evs,
    Cli.deleteWithRetry (remote host i) (retry (this st))
      (deleteOptions (this st) (record !! columnName (this st))) 1
    = Some (outcome, obs) /\
    events (trace st') = events (trace st) ++ evs /\
    match outcome with
    | Success _ =>
        count is_rateLimit evs = O /\
        count is_failure evs = O /\
        (rateLimiter (this st') = rateLimiter (this st) \/
         rateLimiter (this st') = RateLimiter.onSuccess (rateLimiter (this st)))
    | Failure error status _ =>
        count is_success evs = O /\
        Forall (fun e => is_failure e = true ->
                         e = EvFailure (record !! columnName (this st)) error status
                                       (S i) (length (records (this st)))) evs /\
        ((count is_rateLimit evs = 1%nat /\ status = 429 /\
          rateLimiter (this st') = fst (RateLimiter.onRateLimit (rateLimiter (this st))))
         \/
         (count is_rateLimit evs = O /\ rateLimiter (this st') = rateLimiter (this st)))
    end.
Proof.
  intros H. unfold_run H.
  destruct (deleteWithRetry_total (this st) (remote host i)
              (record !! columnName (this st)) 1 (env st))
    as (outcome & env' & obs & Hrun).
  pose proof (deleteWithRetry_no_events _ _ _ _ _ _ _ _ Hrun) as Hsilent.
  pose proof (deleteWithRetry_forget (this st) (remote host i)
                (record !! columnName (this st)) 1 (env st)) as Hcli.
  rewrite Hrun in Hcli. simpl in Hcli. symmetry in Hcli.
  proj. rewrite Hrun in H.
  exists outcome, obs.
  repeat (branch H; proj).
  all: injection H as <- <-; proj.
  all: eexists; split; [exact Hcli |].
  all: split; [events_norm; rewrite ?Hsilent; cbn [app]; reflexivity |].
  all: cbn [events omap list_omap app].
  all: repeat split.
  all: try reflexivity.
  all: try (left; reflexivity).
  all: try (right; reflexivity).
  all: try (repeat constructor; cbn; intros; congruence).
  all: try (left; split; [reflexivity | split; [apply Z.eqb_eq; assumption | reflexivity]]).
  all: try (right; split; reflexivity).
Qed.

(** ** The loop *)

Lemma loop_cons record rest i sc fc st :
  loop host (record :: rest) i sc fc st
  = if cancelled (this st) then
      (log host "Batch processing cancelled by user" >>
       emit EvCancelled >> ret (sc, fc)) st
    else
      match process host i record sc fc st with
      | (Ok counts, st1) => loop host rest (S i) (fst counts) (snd counts) st1
      | (Throw e, st1) => (Throw e, st1)
      end.
Proof.
  cbn [loop]. unfold bind at 1. unfold gets. cbn [fst snd].
  destruct (cancelled (this st)); reflexivity.
Qed.

(** Leaving the loop on the cancellation flag. *)
Lemma loop_stop (sc fc : nat) st res st' :
  (log host "Batch processing cancelled by user" >>
   emit EvCancelled >> ret (sc, fc)) st = (res, st') ->
  exists evs,
    events (trace st') = events (trace st) ++ evs /\
    frame (this st) (this st') /\
    count is_progress evs = O /\
    count is_success evs = O /\
    count is_failure evs = O /\
    count is_complete evs = O /\
    Forall (fun e => event_item e = None) evs /\
    (forall b, justified_from b evs = true) /\
    (forall c, res = Ok c -> c = (sc, fc)) /\
    (no_write_errors host -> res = Ok (sc, fc)) /\
    res <> Throw OutOfFuel.
Proof.
  intros H. unfold_run H. proj.
  repeat (branch H; proj).
  all: injection H as <- <-; proj.
  all: eexists; split;
    [events_norm; first [reflexivity | symmetry; apply app_nil_r] |].
  all: cbn [events omap list_omap app].
  all: repeat split.
  all: try reflexivity.
  all: try discriminate.
  all: try (intros; discriminate).
  all: try (repeat constructor).
  all: try (intros c [= <-]; reflexivity).
  all: try (intros Hno; match goal with
                        | Hw : write_error host ?n = Some _ |- _ =>
                            specialize (Hno n); congruence
                        end).
Qed.

(** What the loop does to the stream of events and to the counts. *)
Lemma loop_spec todo : forall i sc fc st res st',
  loop host todo i sc fc st = (res, st') ->
  exists evs,
    events (trace st') = events (trace st) ++ evs /\
    frame (this st) (this st') /\
    Forall (fun e => forall c, event_item e = Some c ->
                               (i < c <= i + length todo)%nat) evs /\
    (forall b, justified_from b evs = true) /\
    count is_complete evs = O /\
    (forall sc' fc', res = Ok (sc', fc') ->
       sc' = (sc + count is_success evs)%nat /\
       fc' = (fc + count is_failure evs)%nat /\
       (count is_success evs + count is_failure evs = count is_progress evs)%nat /\
       (count is_progress evs <= length todo)%nat) /\
    (no_write_errors host -> exists c, res = Ok c) /\
    res <> Throw OutOfFuel.
Proof.
  induction todo as [| record rest IH]; intros i sc fc st res st' H.
  - cbn in H. unfold ret in H. injection H as <- <-.
    exists []. rewrite app_nil_r.
    repeat split; try reflexivity; try discriminate; eauto.
    all: match goal with H : Ok _ = Ok _ |- _ => injection H as <- <- end; cbn; lia.
  - rewrite loop_cons in H.
    destruct (cancelled (this st)) eqn:Hflag.
    + destruct (loop_stop _ _ _ _ _ H)
        as (evs & Hev & Hfr & Hp & Hs & Hf & Hc & Hitems & Hj & Hres & Hno & Hfuel).
      exists evs.
      split; [exact Hev |]. split; [exact Hfr |].
      split; [eapply Forall_impl; [exact Hitems |]; cbn; intros e He c Hc'; congruence |].
      split; [exact Hj |]. split; [exact Hc |].
      split; [| split; [intros Hw; eauto | exact Hfuel]].
      intros sc' fc' Hr. specialize (Hres _ Hr). injection Hres as -> ->. lia.
    + destruct (process host i record sc fc st) as [[counts | e] st1] eqn:Hp.
      * destruct (process_spec _ _ _ _ _ _ _ Hp)
          as (evs1 & Hev1 & Hfr1 & Hit1 & Hj1 & Hc1 & Hok1 & _ & _).
        destruct (IH _ _ _ _ _ _ H)
          as (evs2 & Hev2 & Hfr2 & Hit2 & Hj2 & Hc2 & Hok2 & Hno2 & Hfuel2).
        destruct counts as [sc1 fc1].
        destruct (Hok1 sc1 fc1 eq_refl) as (Hsc1 & Hfc1 & Hone & Hprog & _).
        exists (evs1 ++ evs2).
        split; [rewrite Hev2, Hev1, app_assoc; reflexivity |].
        split; [eapply frame_trans; eassumption |].
        split.
        { apply Forall_app. split.
          - eapply Forall_impl; [exact Hit1 |]. cbn. intros e He c Hc.
            specialize (He c Hc). lia.
          - eapply Forall_impl; [exact Hit2 |]. cbn. intros e He c Hc.
            specialize (He c Hc). lia. }
        split; [intros b; apply justified_app; auto |].
        split; [rewrite count_app; lia |].
        split; [| split; assumption].
        intros sc' fc' Hres.
        destruct (Hok2 sc' fc' Hres) as (Hsc2 & Hfc2 & Hsum & Hle).
        cbn [fst snd] in *. rewrite !count_app. cbn [length]. lia.
      * injection H as <- <-.
        destruct (process_spec _ _ _ _ _ _ _ Hp)
          as (evs1 & Hev1 & Hfr1 & Hit1 & Hj1 & Hc1 & Hok1 & Hno1 & Hfuel1).
        exists evs1.
        split; [exact Hev1 |]. split; [exact Hfr1 |].
        split; [eapply Forall_impl; [exact Hit1 |]; cbn; intros e' He c Hc;
                specialize (He c Hc); lia |].
        split; [exact Hj1 |]. split; [exact Hc1 |].
        split; [intros sc' fc'; discriminate | split; assumption].
Qed.

(** A run in which the first request to cancel arrives while the item at
    index [i + m] is processed: the loop handles the items up to that one
    and no other. *)
Lemma loop_cancelled_after todo : forall i sc fc st m,
  no_write_errors host ->
  cancelled (this st) = false ->
  (m < length todo)%nat ->
  (forall j, (i <= j < i + m)%nat ->
             cancelled_during host (length (records (this st))) j = false) ->
  cancelled_during host (length (records (this st))) (i + m) = true ->
  exists sc' fc' st' evs,
    loop host todo i sc fc st = (Ok (sc', fc'), st') /\
    events (trace st') = events (trace st) ++ evs /\
    frame (this st) (this st') /\
    (sc' + fc' = sc + fc + m + 1)%nat /\
    count is_progress evs = (m + 1)%nat /\
    Forall (fun e => forall c, event_item e = Some c ->
                               (i < c <= i + m + 1)%nat) evs.
Proof.
  induction todo as [| record rest IH]; intros i sc fc st m Hno Hflag Hm Hbefore Hat;
    [cbn in Hm; lia |].
  rewrite loop_cons, Hflag.
  destruct (process host i record sc fc st) as [res1 st1] eqn:Hp.
  destruct (process_spec _ _ _ _ _ _ _ Hp)
    as (evs1 & Hev1 & Hfr1 & Hit1 & _ & _ & Hok1 & Hno1 & _).
  destruct (Hno1 Hno) as [[sc1 fc1] ->].
  destruct (Hok1 sc1 fc1 eq_refl) as (Hsc1 & Hfc1 & Hone & Hprog1 & Hflag1).
  rewrite Hflag in Hflag1. cbn [orb fst snd] in *.
  assert (Hrec : records (this st1) = records (this st)) by apply Hfr1.
  destruct m as [| m].
  - rewrite Nat.add_0_r in Hat. rewrite Hat in Hflag1.
    destruct rest as [| record' rest].
    + exists sc1, fc1, st1, evs1. cbn [loop]. unfold ret.
      split; [reflexivity |]. split; [exact Hev1 |]. split; [exact Hfr1 |].
      split; [lia |]. split; [exact Hprog1 |].
      eapply Forall_impl; [exact Hit1 |]. cbn. intros e He c Hc.
      specialize (He c Hc). lia.
    + rewrite loop_cons, Hflag1.
      destruct ((log host "Batch processing cancelled by user" >>
                 emit EvCancelled >> ret (sc1, fc1)) st1) as [res2 st2] eqn:Hstop.
      destruct (loop_stop _ _ _ _ _ Hstop)
        as (evs2 & Hev2 & Hfr2 & Hp2 & _ & _ & _ & Hit2 & _ & _ & Hno2 & _).
      rewrite (Hno2 Hno).
      exists sc1, fc1, st2, (evs1 ++ evs2).
      split; [reflexivity |].
      split; [rewrite Hev2, Hev1, app_assoc; reflexivity |].
      split; [eapply frame_trans; eassumption |].
      split; [lia |]. split; [rewrite count_app; lia |].
      apply Forall_app. split.
      * eapply Forall_impl; [exact Hit1 |]. cbn. intros e He c Hc.
        specialize (He c Hc). lia.
      * eapply Forall_impl; [exact Hit2 |]. cbn. intros e He c Hc. congruence.
  - rewrite (Hbefore i) in Hflag1 by lia.
    destruct (IH (S i) sc1 fc1 st1 m Hno Hflag1) as (sc' & fc' & st' & evs2 & Hrun & Hev2 & Hfr2 & Hsum & Hprog2 & Hit2).
    + cbn in Hm. lia.
    + intros j Hj. rewrite Hrec. apply Hbefore. lia.
    + rewrite Hrec. replace (S i + m)%nat with (i + S m)%nat by lia. exact Hat.
    + exists sc', fc', st', (evs1 ++ evs2).
      split; [exact Hrun |].
      split; [rewrite Hev2, Hev1, app_assoc; reflexivity |].
      split; [eapply frame_trans; eassumption |].
      split; [lia |]. split; [rewrite count_app; lia |].
      apply Forall_app. split.
      * eapply Forall_impl; [exact Hit1 |]. cbn. intros e He c Hc.
        specialize (He c Hc). lia.
      * eapply Forall_impl; [exact Hit2 |]. cbn. intros e He c Hc.
        specialize (He c Hc). lia.
Qed.

(** ** The whole run *)

Ltac thrown_by_write :=
  eexists; proj;
  split; [reflexivity |]; split; [discriminate |];
  split; [intros Hno; match goal with
                      | Hw : write_error host ?n = Some _ |- _ =>
                          specialize (Hno n); congruence
                      end |];
  split; reflexivity.

(** The ways a run can go: a write fails before the loop; the loop throws;
    a write fails after the loop; or the run reaches [complete]. *)
Lemma start_cases st res st' :
  start host st = (res, st') ->
  (exists e, res = Throw e /\ e <> OutOfFuel /\ ~ no_write_errors host /\
             this st' = this st /\ events (trace st') = events (trace st))
  \/
  exists st0,
    this st0 = this st /\
    events (trace st0) = events (trace st) ++ [EvStart (length (records (this st)))] /\
    match loop host (records (this st)) 0 0 0 st0 with
    | (Throw e, st1) => res = Throw e /\ st' = st1
    | (Ok counts, st1) =>
        (exists e, res = Throw e /\ e <> OutOfFuel /\ ~ no_write_errors host /\
                   this st' = this st1 /\ events (trace st') = events (trace st1))
        \/
        (res = Ok tt /\
         this st' = with_apiKey (this st1) None /\
         exists s,
           events (trace st') = events (trace st1) ++ [EvComplete s] /\
           successCount s = fst counts /\
           failureCount s = snd counts /\
           totalProcessed s = length (records (this st)) /\
           hasFailedRecords s = Logger.hasFailedRecords (logger (this st1)))
    end.
Proof.
  intros H. unfold_run H. proj.
  repeat (branch H; proj).
  all: try (injection H as <- <-; left; thrown_by_write).
  right.
  match type of H with
  | context [loop host ?a ?b ?c ?d ?s0] =>
      exists s0; proj; split; [reflexivity |];
      split; [events_norm; reflexivity |];
      destruct (loop host a b c d s0) as [[counts | e] st1]
  end.
  2: { injection H as <- <-. split; reflexivity. }
  proj.
  repeat (branch H; proj).
  all: injection H as <- <-; proj.
  all: try (left; thrown_by_write).
  all: right; split; [reflexivity |]; split; [reflexivity |];
    eexists; split; [events_norm; reflexivity |]; repeat split; reflexivity.
Qed.

(** *** Failure events and final outcomes *)

Lemma count_zero_Forall f evs :
  count f evs = O -> Forall (fun e => f e = false) evs.
Proof.
  induction evs as [| e evs IH]; simpl; intros H; constructor.
  - destruct (f e); [discriminate | reflexivity].
  - apply IH. destruct (f e); [discriminate | exact H].
Qed.

Lemma final_failure_frame p p' e :
  frame p p' -> final_failure host p e -> final_failure host p' e.
Proof.
  intros (Hrec & Hty & Hcol & Hall & _ & _ & Hretry) H.
  destruct e; try exact I. cbn in *.
  destruct H as (record & attempt & obs & Hlook & Hid & Hrun).
  exists record, attempt, obs. unfold deleteOptions in *.
  rewrite Hrec, Hcol, Hretry, Hty, Hall. auto.
Qed.

Lemma frame_sym p p' : frame p p' -> frame p' p.
Proof.
  unfold frame. intros (H1 & H2 & H3 & H4 & H5 & H6 & H7). repeat split; congruence.
Qed.

Lemma process_failures i record sc fc st res st' evs :
  records (this st) !! i = Some record ->
  process host i record sc fc st = (res, st') ->
  events (trace st') = events (trace st) ++ evs ->
  Forall (final_failure host (this st)) evs.
Proof.
  intros Hlook Hp Hev.
  destruct (process_outcome _ _ _ _ _ _ _ Hp)
    as (outcome & obs & evs' & Hcli & Hev' & Hout).
  rewrite Hev in Hev'. apply app_inv_head in Hev'. subst evs'.
  destruct outcome as [r | error status attempt].
  - destruct Hout as (_ & Hnone & _).
    eapply Forall_impl; [apply count_zero_Forall, Hnone |].
    cbn. intros e He. destruct e; try exact I. discriminate.
  - destruct Hout as (_ & Hall & _).
    eapply Forall_impl; [exact Hall |].
    cbn. intros e He. destruct e; try exact I.
    specialize (He eq_refl). injection He as -> -> -> -> ->.
    cbn. exists record, attempt, obs. auto.
Qed.

Lemma loop_failures todo : forall i sc fc st res st' evs,
  (forall k record, todo !! k = Some record ->
                    records (this st) !! (i + k)%nat = Some record) ->
  loop host todo i sc fc st = (res, st') ->
  events (trace st') = events (trace st) ++ evs ->
  Forall (final_failure host (this st)) evs.
Proof.
  induction todo as [| record rest IH]; intros i sc fc st res st' evs Hidx H Hev.
  - cbn in H. unfold ret in H. injection H as <- <-.
    rewrite <- (app_nil_r (events (trace st))) in Hev at 1.
    apply app_inv_head in Hev. subst evs. constructor.
  - rewrite loop_cons in H.
    destruct (cancelled (this st)).
    + destruct (loop_stop _ _ _ _ _ H) as (evs0 & Hev0 & _ & _ & _ & Hf & _).
      rewrite Hev in Hev0. apply app_inv_head in Hev0. subst evs0.
      eapply Forall_impl; [apply count_zero_Forall, Hf |].
      cbn. intros e He. destruct e; try exact I. discriminate.
    + destruct (process host i record sc fc st) as [[counts | e] st1] eqn:Hp.
      * destruct (process_spec _ _ _ _ _ _ _ Hp) as (evs1 & Hev1 & Hfr1 & _).
        destruct (loop_spec _ _ _ _ _ _ _ H) as (evs2 & Hev2 & _).
        rewrite Hev2, Hev1, <- app_assoc in Hev.
        apply app_inv_head in Hev. subst evs.
        apply Forall_app. split.
        -- eapply process_failures; [| exact Hp | exact Hev1].
           rewrite <- (Nat.add_0_r i). apply Hidx. reflexivity.
        -- eapply Forall_impl;
             [eapply (IH _ _ _ _ _ _ evs2); [| exact H | exact Hev2] |].
           ++ intros k r Hk. destruct Hfr1 as [-> _].
              replace (S i + k)%nat with (i + S k)%nat by lia.
              apply Hidx. exact Hk.
           ++ cbn. intros e0 He0.
              eapply final_failure_frame; [apply frame_sym, Hfr1 | exact He0].
      * injection H as <- <-.
        eapply process_failures; [| exact Hp | exact Hev].
        rewrite <- (Nat.add_0_r i). apply Hidx. reflexivity.
Qed.

(** *** Runs that return, runs that throw *)

(** A run that returns has gone through the loop and has emitted
    [complete] last. *)
Lemma start_returns st st' :
  start host st = (Ok tt, st') ->
  exists st0 counts st1 s,
    this st0 = this st /\
    events (trace st0) = events (trace st) ++ [EvStart (length (records (this st)))] /\
    loop host (records (this st)) 0 0 0 st0 = (Ok counts, st1) /\
    this st' = with_apiKey (this st1) None /\
    events (trace st') = events (trace st1) ++ [EvComplete s] /\
    successCount s = fst counts /\
    failureCount s = snd counts /\
    totalProcessed s = length (records (this st)).
Proof.
  intros H.
  destruct (start_cases _ _ _ H) as [(e & He & _) | (st0 & Hthis & Hev & Hloop)];
    [discriminate |].
  destruct (loop host (records (this st)) 0 0 0 st0) as [[counts | e] st1] eqn:Hl.
  - destruct Hloop as [(e & He & _) | (_ & Hkey & s & Hs & Hsc & Hfc & Htot & _)];
      [discriminate |].
    exists st0, counts, st1, s. auto 10.
  - destruct Hloop as [He _]. discriminate.
Qed.

(** With a file system that accepts every write, a run returns. *)
Lemma start_total st :
  no_write_errors host -> exists st', start host st = (Ok tt, st').
Proof.
  intros Hno.
  destruct (start host st) as [res st'] eqn:H. exists st'.
  destruct (start_cases _ _ _ H)
    as [(e & _ & _ & Hbad & _) | (st0 & Hthis & Hev & Hloop)]; [contradiction |].
  destruct (loop host (records (this st)) 0 0 0 st0) as [[counts | e] st1] eqn:Hl.
  - destruct Hloop as [(e & _ & _ & Hbad & _) | (-> & _)]; [contradiction | reflexivity].
  - destruct (loop_spec _ _ _ _ _ _ _ Hl) as (_ & _ & _ & _ & _ & _ & _ & Hok & _).
    destruct (Hok Hno) as [c Hc]. discriminate.
Qed.

(** The events of any run, however it ends. *)
Lemma start_events st res st' :
  start host st = (res, st') ->
  exists evs,
    events (trace st') = events (trace st) ++ evs /\
    (forall b, justified_from b evs = true) /\
    Forall (final_failure host (this st)) evs.
Proof.
  intros H.
  destruct (start_cases _ _ _ H) as [(e & _ & _ & _ & _ & Hev) | (st0 & Hthis & Hev & Hloop)].
  - exists []. rewrite app_nil_r. repeat split; [exact Hev | constructor].
  - destruct (loop host (records (this st)) 0 0 0 st0) as [lres st1] eqn:Hl.
    destruct (loop_spec _ _ _ _ _ _ _ Hl) as (evs & Hevl & _ & _ & Hj & _).
    assert (Hff : Forall (final_failure host (this st)) evs).
    { rewrite <- Hthis. eapply loop_failures; [| exact Hl | exact Hevl].
      intros k r Hk. rewrite Hthis. exact Hk. }
    assert (Hj0 : forall b, justified_from b (EvStart (length (records (this st))) :: evs) = true)
      by (intros b; cbn; apply Hj).
    assert (Hff0 : Forall (final_failure host (this st))
                          (EvStart (length (records (this st))) :: evs))
      by (constructor; [exact I | exact Hff]).
    assert (Hbase : events (trace st1)
                    = events (trace st) ++ EvStart (length (records (this st))) :: evs)
      by (rewrite Hevl, Hev, <- app_assoc; reflexivity).
    destruct lres as [counts | e].
    + destruct Hloop as [(e & _ & _ & _ & _ & Hev') | (_ & _ & s & Hs & _)].
      * eexists. split; [rewrite Hev'; exact Hbase |]. split; assumption.
      * exists ((EvStart (length (records (this st))) :: evs) ++ [EvComplete s]).
        split; [rewrite Hs, Hbase, <- app_assoc; reflexivity |].
        split.
        -- intros b. apply justified_app; [apply Hj0 | reflexivity].
        -- apply Forall_app. split; [exact Hff0 | repeat constructor].
    + destruct Hloop as [_ ->].
      eexists. split; [exact Hbase |]. split; assumption.
Qed.

End EngineRun.

(** A 429 that a later attempt resolves: the item ends as a Success. *)
Lemma attempts_resolved {math : MathLibrary} call retry options fuel : forall attempt k r,
  attempt <= k <= maxAttempts retry ->
  call k = Resolved r ->
  (forall j, attempt <= j < k ->
             exists msg, call j = Rejected {| message := msg; err_status := Some 429 |}) ->
  (Z.to_nat (k - attempt) <= fuel)%nat ->
  exists obs, Cli.attempts call retry options fuel attempt = Some (Success r, obs).
Proof.
  induction fuel as [| fuel IH]; intros attempt k r Hk Hres Hrej Hfuel.
  - assert (attempt = k) as -> by lia. simpl. rewrite Hres. eauto.
  - destruct (Z.eq_dec attempt k) as [-> | Hne].
    + simpl. rewrite Hres. eauto.
    + destruct (Hrej attempt) as [msg Hmsg]; [lia |].
      simpl. rewrite Hmsg. simpl.
      replace (attempt <? maxAttempts retry) with true by (symmetry; apply Z.ltb_lt; lia).
      simpl.
      destruct (IH (attempt + 1) k r) as [obs ->]; [lia | exact Hres | | lia | eauto].
      intros j Hj. apply Hrej. lia.
Qed.

(** ** Cancellation and the summary *)

(** C1 on the code: when the first request to cancel arrives while item [i]
    (1-based, not the last) is processed, the run returns, no [progress],
    [success] or [failure] event is about an item beyond [i], exactly [i]
    items are processed and counted as successes or failures, and the
    summary nevertheless reports [totalProcessed] as the number of records of
    the input, which is more than [i]. *)
Theorem cancelled_run_reports_every_record {math : MathLibrary}
        (host : Host) (st : BatchProcessor.State) (i : nat) :
  no_write_errors host ->
  BatchProcessor.cancelled (BatchProcessor.this st) = false ->
  (1 <= i < length (BatchProcessor.records (BatchProcessor.this st)))%nat ->
  (forall j, (j < i - 1)%nat ->
             cancelled_during host
               (length (BatchProcessor.records (BatchProcessor.this st))) j = false) ->
  cancelled_during host
    (length (BatchProcessor.records (BatchProcessor.this st))) (i - 1) = true ->
  exists st' body s,
    BatchProcessor.start host st = (BatchProcessor.Ok tt, st') /\
    events (BatchProcessor.trace st')
    = events (BatchProcessor.trace st)
      ++ EvStart (length (BatchProcessor.records (BatchProcessor.this st)))
         :: body ++ [EvComplete s] /\
    Forall (fun e => forall c, event_item e = Some c -> (c <= i)%nat) body /\
    count is_progress body = i /\
    (successCount s + failureCount s = i)%nat /\
    totalProcessed s = length (BatchProcessor.records (BatchProcessor.this st)) /\
    (i < totalProcessed s)%nat.
Proof.
  intros Hno Hflag Hi Hbefore Hat.
  destruct (start_total host st Hno) as [st' Hrun].
  destruct (start_returns host _ _ Hrun)
    as (st0 & counts & st1 & s & Hthis & Hev0 & Hloop & _ & Hev & Hsc & Hfc & Htot).
  destruct (loop_cancelled_after host
              (BatchProcessor.records (BatchProcessor.this st)) 0 0 0 st0 (i - 1) Hno)
    as (sc' & fc' & st1' & body & Hloop' & Hevl & _ & Hsum & Hprog & Hitems).
  - rewrite Hthis. exact Hflag.
  - lia.
  - rewrite Hthis. intros j Hj. apply Hbefore. lia.
  - rewrite Hthis. exact Hat.
  - rewrite Hloop in Hloop'. injection Hloop' as -> <-.
    exists st', body, s.
    split; [exact Hrun |].
    split; [rewrite Hev, Hevl, Hev0, <- !app_assoc; reflexivity |].
    split; [eapply Forall_impl; [exact Hitems |]; cbn; intros e He c Hc;
            specialize (He c Hc); lia |].
    split; [lia |].
    cbn [fst snd] in *. split; [lia |]. split; [exact Htot | lia].
Qed.

Lemma cancelled_run_reports_every_record_witness :
  exists st' body s,
    BatchProcessor.start (math := nearest_pow) Sample.cancelling (Sample.state_of Sample.processor)
    = (BatchProcessor.Ok tt, st') /\
    events (BatchProcessor.trace st') = EvStart 3 :: body ++ [EvComplete s] /\
    Forall (fun e => forall c, event_item e = Some c -> (c <= 1)%nat) body /\
    count is_progress body = 1%nat /\
    (successCount s + failureCount s = 1)%nat /\
    totalProcessed s = 3%nat /\
    (1 < totalProcessed s)%nat.
Proof.
  apply (cancelled_run_reports_every_record (math := nearest_pow) Sample.cancelling
           (Sample.state_of Sample.processor) 1).
  - intros k. reflexivity.
  - reflexivity.
  - cbn. lia.
  - intros j Hj. lia.
  - reflexivity.
Defined.

(** C2 on the code: in every run that reaches [complete], the summary
    counts as successes and failures exactly the items that were processed,
    at most the number of records of the input, while [totalProcessed] is
    always the number of records of the input, whether or not the run was
    cancelled before the end. *)
Theorem complete_summary_counts {math : MathLibrary}
        (host : Host) (st st' : BatchProcessor.State) :
  BatchProcessor.start host st = (BatchProcessor.Ok tt, st') ->
  exists body s,
    events (BatchProcessor.trace st')
    = events (BatchProcessor.trace st)
      ++ EvStart (length (BatchProcessor.records (BatchProcessor.this st)))
         :: body ++ [EvComplete s] /\
    count is_complete body = O /\
    successCount s = count is_success body /\
    failureCount s = count is_failure body /\
    (successCount s + failureCount s = count is_progress body)%nat /\
    (count is_progress body
     <= length (BatchProcessor.records (BatchProcessor.this st)))%nat /\
    totalProcessed s = length (BatchProcessor.records (BatchProcessor.this st)).
Proof.
  intros Hrun.
  destruct (start_returns host _ _ Hrun)
    as (st0 & counts & st1 & s & Hthis & Hev0 & Hloop & _ & Hev & Hsc & Hfc & Htot).
  destruct (loop_spec host _ _ _ _ _ _ _ Hloop)
    as (body & Hevl & _ & _ & _ & Hnone & Hok & _).
  destruct counts as [sc fc].
  destruct (Hok sc fc eq_refl) as (Hs & Hf & Hsum & Hle).
  exists body, s. cbn [fst snd] in *.
  split; [rewrite Hev, Hevl, Hev0, <- !app_assoc; reflexivity |].
  repeat split; try assumption; lia.
Qed.

Lemma complete_summary_counts_witness :
  exists body s,
    events (BatchProcessor.trace
              (snd (BatchProcessor.start (math := nearest_pow) Sample.cancelling
                      (Sample.state_of Sample.processor))))
    = EvStart 3 :: body ++ [EvComplete s] /\
    count is_complete body = O /\
    successCount s = count is_success body /\
    failureCount s = count is_failure body /\
    (successCount s + failureCount s = count is_progress body)%nat /\
    (count is_progress body <= 3)%nat /\
    totalProcessed s = 3%nat.
Proof.
  apply (complete_summary_counts (math := nearest_pow) Sample.cancelling (Sample.state_of Sample.processor)).
  vm_compute. reflexivity.
Defined.

(** The summary of the sample run that is cancelled during its first item:
    one success, no failure, and three records reported as processed. *)
Example cancelled_sample_summary :
  summaries (BatchProcessor.trace
               (snd (BatchProcessor.start (math := nearest_pow) Sample.cancelling
                       (Sample.state_of Sample.processor))))
  = [{| successCount := 1;
        failureCount := 0;
        totalProcessed := 3;
        duration := "7s";
        durationMs := 7000;
        logFile := "./logs/batch-log-2024-01-01T12-00-00.txt";
        failedRecordsFile := None;
        hasFailedRecords := false |}].
Proof. vm_compute. reflexivity. Qed.

(** ** Throttling *)

(** C5: in every run, however it ends, a [rateLimit] event comes right
    after the [failure] event of an item whose final outcome is a Failure
    with status 429, and nowhere else.  An item whose 429 rejections are
    followed by a successful attempt within [maxAttempts] has no [failure]
    event, hence no [rateLimit] event.  And for each item the engine either
    emits one [rateLimit] event, moves the rate limiter by [onRateLimit] and
    the final outcome of the item is a Failure with status 429, or it emits
    no [rateLimit] event and leaves the rate limiter as it was or as
    [onSuccess] makes it. *)
Theorem rateLimit_only_after_final_429 {math : MathLibrary}
        (host : Host) (st : BatchProcessor.State)
        (res : BatchProcessor.Res unit) (st' : BatchProcessor.State)
        (i : nat) (record : gmap string string) (sc fc : nat)
        (st_i : BatchProcessor.State) (res_i : BatchProcessor.Res (nat * nat))
        (st_i' : BatchProcessor.State) :
  BatchProcessor.start host st = (res, st') ->
  BatchProcessor.process host i record sc fc st_i = (res_i, st_i') ->
  (exists evs,
      events (BatchProcessor.trace st') = events (BatchProcessor.trace st) ++ evs /\
      (forall pre oldDelay newDelay post,
          evs = pre ++ EvRateLimit oldDelay newDelay :: post ->
          exists pre' identifier error current total,
            pre = pre' ++ [EvFailure identifier error 429 current total] /\
            final_failure host (BatchProcessor.this st)
                          (EvFailure identifier error 429 current total)) /\
      (forall identifier error status current total k r,
          In (EvFailure identifier error status current total) evs ->
          1 <= k <= maxAttempts (BatchProcessor.retry (BatchProcessor.this st)) ->
          remote host (pred current) k = Resolved r ->
          (forall j, 1 <= j < k ->
                     exists msg, remote host (pred current) j
                                 = Rejected {| message := msg; err_status := Some 429 |}) ->
          False)) /\
  (exists outcome obs evs,
      Cli.deleteWithRetry (remote host i)
        (BatchProcessor.retry (BatchProcessor.this st_i))
        (BatchProcessor.deleteOptions (BatchProcessor.this st_i)
           (record !! BatchProcessor.columnName (BatchProcessor.this st_i))) 1
      = Some (outcome, obs) /\
      events (BatchProcessor.trace st_i') = events (BatchProcessor.trace st_i) ++ evs /\
      ((count is_rateLimit evs = 1%nat /\
        BatchProcessor.rateLimiter (BatchProcessor.this st_i')
        = fst (RateLimiter.onRateLimit
                 (BatchProcessor.rateLimiter (BatchProcessor.this st_i))) /\
        exists error attempt, outcome = Failure error 429 attempt)
       \/
       (count is_rateLimit evs = O /\
        (BatchProcessor.rateLimiter (BatchProcessor.this st_i')
         = BatchProcessor.rateLimiter (BatchProcessor.this st_i) \/
         BatchProcessor.rateLimiter (BatchProcessor.this st_i')
         = RateLimiter.onSuccess
             (BatchProcessor.rateLimiter (BatchProcessor.this st_i)))))).
Proof.
  intros Hrun Hitem. split.
  - destruct (start_events host _ _ _ Hrun) as (evs & Hev & Hj & Hff).
    exists evs. split; [exact Hev |]. split.
    + intros pre oldDelay newDelay post Heq.
      destruct (justified_adjacent evs false (Hj false) _ _ _ _ Heq)
        as [[_ Hc] | (pre' & identifier & error & current & total & Hpre)];
        [discriminate |].
      exists pre', identifier, error, current, total. split; [exact Hpre |].
      rewrite Forall_forall in Hff. apply Hff.
      rewrite Heq, Hpre. rewrite list_elem_of_In.
      apply in_or_app. left. apply in_or_app. right. left. reflexivity.
    + intros identifier error status current total k r Hin Hk Hres Hrej.
      rewrite Forall_forall in Hff.
      specialize (Hff _ (proj2 (list_elem_of_In _ _) Hin)). cbn in Hff.
      destruct Hff as (rec & attempt & obs & _ & _ & Hcli).
      unfold Cli.deleteWithRetry in Hcli.
      destruct (attempts_resolved (remote host (pred current))
                  (BatchProcessor.retry (BatchProcessor.this st))
                  (BatchProcessor.deleteOptions (BatchProcessor.this st) identifier)
                  (Z.to_nat (maxAttempts (BatchProcessor.retry (BatchProcessor.this st)) - 1))
                  1 k r Hk Hres Hrej) as [obs' Hok]; [lia |].
      rewrite Hok in Hcli. discriminate.
  - destruct (process_outcome host _ _ _ _ _ _ _ Hitem)
      as (outcome & obs & evs & Hcli & Hev & Hout).
    exists outcome, obs, evs. split; [exact Hcli |]. split; [exact Hev |].
    destruct outcome as [r | error status attempt].
    + destruct Hout as (Hnone & _ & Hlim). right. split; assumption.
    + destruct Hout as (_ & _ & [(Hone & -> & Hlim) | (Hnone & Hlim)]).
      * left. split; [exact Hone |]. split; [exact Hlim | eauto].
      * right. split; [exact Hnone | left; exact Hlim].
Qed.

Lemma rateLimit_only_after_final_429_witness :
  (exists evs,
      events (BatchProcessor.trace
                (snd (BatchProcessor.start (math := nearest_pow) Sample.throttling
                        (Sample.state_of Sample.processor))))
      = evs /\
      (forall pre oldDelay newDelay post,
          evs = pre ++ EvRateLimit oldDelay newDelay :: post ->
          exists pre' identifier error current total,
            pre = pre' ++ [EvFailure identifier error 429 current total] /\
            final_failure (math := nearest_pow) Sample.throttling Sample.processor
                          (EvFailure identifier error 429 current total)) /\
      (forall identifier error status current total k r,
          In (EvFailure identifier error status current total) evs ->
          1 <= k <= 3 ->
          remote Sample.throttling (pred current) k = Resolved r ->
          (forall j, 1 <= j < k ->
                     exists msg, remote Sample.throttling (pred current) j
                                 = Rejected {| message := msg; err_status := Some 429 |}) ->
          False)) /\
  (exists outcome obs evs,
      Cli.deleteWithRetry (math := nearest_pow) (remote Sample.throttling 1)
        (BatchProcessor.retry Sample.processor)
        (BatchProcessor.deleteOptions Sample.processor (Some "b@x.io")) 1
      = Some (outcome, obs) /\
      events (BatchProcessor.trace
                (snd (BatchProcessor.process (math := nearest_pow) Sample.throttling 1 (Sample.record "b@x.io")
                        0 0 (Sample.state_of Sample.processor))))
      = evs /\
      ((count is_rateLimit evs = 1%nat /\
        BatchProcessor.rateLimiter
          (BatchProcessor.this
             (snd (BatchProcessor.process (math := nearest_pow) Sample.throttling 1 (Sample.record "b@x.io")
                     0 0 (Sample.state_of Sample.processor))))
        = fst (RateLimiter.onRateLimit (BatchProcessor.rateLimiter Sample.processor)) /\
        exists error attempt, outcome = Failure error 429 attempt)
       \/
       (count is_rateLimit evs = O /\
        (BatchProcessor.rateLimiter
           (BatchProcessor.this
              (snd (BatchProcessor.process (math := nearest_pow) Sample.throttling 1 (Sample.record "b@x.io")
                      0 0 (Sample.state_of Sample.processor))))
         = BatchProcessor.rateLimiter Sample.processor \/
         BatchProcessor.rateLimiter
           (BatchProcessor.this
              (snd (BatchProcessor.process (math := nearest_pow) Sample.throttling 1 (Sample.record "b@x.io")
                      0 0 (Sample.state_of Sample.processor))))
         = RateLimiter.onSuccess (BatchProcessor.rateLimiter Sample.processor))))).
Proof.
  exact (rateLimit_only_after_final_429 (math := nearest_pow) Sample.throttling
           (Sample.state_of Sample.processor) _ _
           1%nat (Sample.record "b@x.io") 0%nat 0%nat
           (Sample.state_of Sample.processor) _ _
           (surjective_pairing _) (surjective_pairing _)).
Defined.

(** The events of the sample run in which the second item is throttled at
    every attempt and the third item once: one [rateLimit], after the
    [failure] of the second item. *)
Example throttling_sample_events :
  map (fun e => (is_failure e, is_rateLimit e, event_item e))
      (events (BatchProcessor.trace
                 (snd (BatchProcessor.start (math := nearest_pow) Sample.throttling
                         (Sample.state_of Sample.processor)))))
  = [(false, false, None);
     (false, false, Some 1%nat); (false, false, Some 1%nat);
     (false, false, Some 2%nat); (true, false, Some 2%nat); (false, true, None);
     (false, false, Some 3%nat); (false, false, Some 3%nat);
     (false, false, None)].
Proof. vm_compute. reflexivity. Qed.

(** ** The credential *)

(** C6 on the code: a run that returns (completed, or cancelled) leaves the
    processor without its API key; a run that is aborted by an exception
    leaves the processor with the API key it had. *)
Theorem apiKey_kept_when_run_throws {math : MathLibrary}
        (host : Host) (st : BatchProcessor.State)
        (res : BatchProcessor.Res unit) (st' : BatchProcessor.State) :
  BatchProcessor.start host st = (res, st') ->
  match res with
  | BatchProcessor.Ok _ =>
      BatchProcessor.apiKey (BatchProcessor.this st') = None
  | BatchProcessor.Throw _ =>
      BatchProcessor.apiKey (BatchProcessor.this st')
      = BatchProcessor.apiKey (BatchProcessor.this st)
  end.
Proof.
  intros Hrun.
  destruct (start_cases host _ _ _ Hrun)
    as [(e & -> & _ & _ & Hthis & _) | (st0 & Hthis & _ & Hloop)].
  - rewrite Hthis. reflexivity.
  - destruct (BatchProcessor.loop host _ 0 0 0 st0) as [lres st1] eqn:Hl.
    destruct (loop_spec host _ _ _ _ _ _ _ Hl) as (_ & _ & Hfr & _).
    assert (Hkey : BatchProcessor.apiKey (BatchProcessor.this st1)
                   = BatchProcessor.apiKey (BatchProcessor.this st))
      by (rewrite <- Hthis; apply Hfr).
    destruct lres as [counts | e].
    + destruct Hloop as [(e & -> & _ & _ & Hthis' & _) | (-> & Hthis' & _)].
      * rewrite Hthis'. exact Hkey.
      * rewrite Hthis'. reflexivity.
    + destruct Hloop as [-> ->]. exact Hkey.
Qed.

Lemma apiKey_kept_when_run_throws_witness :
  fst (BatchProcessor.start (math := nearest_pow) Sample.disk_full (Sample.state_of Sample.processor))
  = BatchProcessor.Throw
      (BatchProcessor.JsThrow {| message := "ENOSPC: no space left on device";
                                 err_status := None |}) /\
  BatchProcessor.apiKey
    (BatchProcessor.this
       (snd (BatchProcessor.start (math := nearest_pow) Sample.disk_full (Sample.state_of Sample.processor))))
  = Some "secret".
Proof.
  split; [reflexivity |].
  exact (apiKey_kept_when_run_throws (math := nearest_pow) Sample.disk_full
           (Sample.state_of Sample.processor) _ _ (surjective_pairing _)).
Defined.


(** * Further properties *)

(** ** The rate limiter, continued *)

Lemma Qmin_left (x y : Q) : (x <= y)%Q -> Qmin x y = x.
Proof.
  intros H. unfold Qmin, GenericMinMax.gmin.
  destruct (x ?= y)%Q eqn:E; try reflexivity.
  apply Qgt_alt in E. exfalso. apply (Qlt_not_le _ _ E). exact H.
Qed.

Lemma Qgtb_irrefl (x : Q) : Qgtb x x = false.
Proof.
  unfold Qgtb. apply negb_false_iff. apply Qle_bool_iff. apply Qle_refl.
Qed.

(** X1: with a non-negative current delay and a multiplier of at least one,
    [onSuccess] never raises the delay; when moreover the current delay is
    at most the maximum, [onRateLimit] never lowers it. *)
Theorem limiter_moves_one_way (r : RateLimiter.t) :
  (0 <= RateLimiter.currentDelay r)%Q ->
  (1 <= RateLimiter.backoffMultiplier r)%Q ->
  (RateLimiter.currentDelay r <= RateLimiter.maxDelay r)%Q ->
  (RateLimiter.currentDelay (RateLimiter.onSuccess r) <= RateLimiter.currentDelay r)%Q /\
  (RateLimiter.currentDelay r
   <= RateLimiter.currentDelay (fst (RateLimiter.onRateLimit r)))%Q.
Proof.
  intros Hpos Hmul Hmax. split.
  - unfold RateLimiter.onSuccess.
    destruct ((10 <=? S (RateLimiter.consecutiveSuccesses r))%nat
              && Qgtb (RateLimiter.currentDelay r) (RateLimiter.baseDelay r)) eqn:E;
      cbn [RateLimiter.currentDelay]; [| apply Qle_refl].
    apply andb_true_iff in E as [_ E].
    unfold Qgtb in E. apply negb_true_iff in E.
    apply Q.max_lub.
    + apply Qnot_lt_le. intros Hlt.
      assert (Hle : Qle_bool (RateLimiter.currentDelay r) (RateLimiter.baseDelay r) = true)
        by (apply Qle_bool_iff, Qlt_le_weak, Hlt).
      congruence.
    + apply shrink_le; assumption.
  - cbn [RateLimiter.onRateLimit fst RateLimiter.currentDelay].
    apply Q.min_glb; [exact Hmax | apply grow_ge; assumption].
Qed.

Lemma limiter_moves_one_way_witness :
  (RateLimiter.currentDelay
     (RateLimiter.onSuccess
        (RateLimiter.run {| baseDelayMs := 100; maxDelayMs := 5000;
                            rate_backoffMultiplier := 3 # 2 |}
                         [RateLimiter.Throttled]))
   <= 150)%Q /\
  (100 <= RateLimiter.currentDelay
            (fst (RateLimiter.onRateLimit
                    (RateLimiter.new {| baseDelayMs := 100; maxDelayMs := 5000;
                                        rate_backoffMultiplier := 3 # 2 |}))))%Q.
Proof.
  split.
  - apply (limiter_moves_one_way
             (RateLimiter.run {| baseDelayMs := 100; maxDelayMs := 5000;
                                 rate_backoffMultiplier := 3 # 2 |}
                              [RateLimiter.Throttled])); discriminate.
  - apply (limiter_moves_one_way
             (RateLimiter.new {| baseDelayMs := 100; maxDelayMs := 5000;
                                 rate_backoffMultiplier := 3 # 2 |})); discriminate.
Defined.

(** X2: a limiter that only ever sees successes stays at the base delay,
    whatever the configuration and however many successes there are (its
    counter of consecutive successes is then never reset). *)
Theorem successes_keep_base_delay (config : RateConfig) (n : nat) :
  RateLimiter.currentDelay (RateLimiter.run config (repeat RateLimiter.Succeeded n))
  = baseDelayMs config /\
  RateLimiter.consecutiveSuccesses
    (RateLimiter.run config (repeat RateLimiter.Succeeded n)) = n.
Proof.
  unfold RateLimiter.run.
  assert (H : forall r,
             RateLimiter.currentDelay r = RateLimiter.baseDelay r ->
             RateLimiter.currentDelay
               (fold_left RateLimiter.feed (repeat RateLimiter.Succeeded n) r)
             = RateLimiter.currentDelay r /\
             RateLimiter.consecutiveSuccesses
               (fold_left RateLimiter.feed (repeat RateLimiter.Succeeded n) r)
             = (RateLimiter.consecutiveSuccesses r + n)%nat).
  { induction n as [| n IH]; intros r Hr; simpl.
    - split; [reflexivity | lia].
    - assert (Hstep : RateLimiter.onSuccess r
                      = {| RateLimiter.currentDelay := RateLimiter.currentDelay r;
                           RateLimiter.baseDelay := RateLimiter.baseDelay r;
                           RateLimiter.maxDelay := RateLimiter.maxDelay r;
                           RateLimiter.backoffMultiplier := RateLimiter.backoffMultiplier r;
                           RateLimiter.consecutiveSuccesses :=
                             S (RateLimiter.consecutiveSuccesses r) |}).
      { unfold RateLimiter.onSuccess. rewrite Hr, Qgtb_irrefl, andb_false_r.
        reflexivity. }
      rewrite Hstep.
      match goal with
      | |- context [fold_left _ _ ?r'] => destruct (IH r' Hr) as [Hd Hc]
      end.
      cbn in Hd, Hc. split; [exact Hd | rewrite Hc; lia]. }
  destruct (H (RateLimiter.new config) eq_refl) as [Hd Hc]. split; assumption.
Qed.



(** The sample limiter, throttled once, is back at its base delay after ten
    successes in a row (150 / 1.5 = 100). *)
Example recovery_sample :
  (RateLimiter.currentDelay
     (Nat.iter 10 RateLimiter.onSuccess
        (fst (RateLimiter.onRateLimit
                (RateLimiter.new {| baseDelayMs := 100; maxDelayMs := 5000;
                                    rate_backoffMultiplier := 3 # 2 |}))))
   == 100)%Q.
Proof. vm_compute. reflexivity. Qed.

(** X4: the maximum is absorbing for throttling: at the maximum delay, with
    a non-negative maximum and a multiplier of at least one, [onRateLimit]
    leaves the delay at the maximum and reports the same old and new
    delay. *)
Theorem throttling_saturates (r : RateLimiter.t) :
  RateLimiter.currentDelay r = RateLimiter.maxDelay r ->
  (0 <= RateLimiter.maxDelay r)%Q ->
  (1 <= RateLimiter.backoffMultiplier r)%Q ->
  RateLimiter.currentDelay (fst (RateLimiter.onRateLimit r)) = RateLimiter.maxDelay r /\
  snd (RateLimiter.onRateLimit r) = (RateLimiter.maxDelay r, RateLimiter.maxDelay r).
Proof.
  intros Hcur Hpos Hmul.
  cbn [RateLimiter.onRateLimit fst snd RateLimiter.currentDelay].
  rewrite Hcur, Qmin_left by (apply grow_ge; assumption).
  split; reflexivity.
Qed.

Lemma throttling_saturates_witness :
  RateLimiter.currentDelay
    (fst (RateLimiter.onRateLimit
            (RateLimiter.run {| baseDelayMs := 100; maxDelayMs := 120;
                                rate_backoffMultiplier := 3 # 2 |}
                             [RateLimiter.Throttled])))
  = 120%Q.
Proof.
  apply (throttling_saturates
           (RateLimiter.run {| baseDelayMs := 100; maxDelayMs := 120;
                               rate_backoffMultiplier := 3 # 2 |}
                            [RateLimiter.Throttled])).
  - reflexivity.
  - discriminate.
  - discriminate.
Defined.


(** ** The retry policy, continued *)

Section RetryCharacterized.

Context {math : MathLibrary}.

Variable call : Z -> CallResult.
Variable retry : RetryConfig.
Variable options : DeleteOptions.

Lemma attempts_characterized fuel : forall attempt outcome obs,
  Cli.attempts call retry options fuel attempt = Some (outcome, obs) ->
  exists n,
    Call options attempt :: obs = prescribed retry options attempt n /\
    (forall j, attempt <= j < attempt + Z.of_nat n ->
               j < maxAttempts retry /\
               exists e, call j = Rejected e /\ retryable (status_or_500 e) = true) /\
    match outcome with
    | Success r => call (attempt + Z.of_nat n) = Resolved r
    | Failure error status k =>
        k = attempt + Z.of_nat n /\
        exists e, call k = Rejected e /\ error = message e /\
                  status = status_or_500 e /\
                  (retryable status = false \/ maxAttempts retry <= k)
    end.
Proof.
  induction fuel as [| fuel IH]; intros attempt outcome obs; simpl;
    destruct (call attempt) as [r | e] eqn:Hcall.
  1, 3: intros [= <- <-]; exists O; simpl; rewrite Z.add_0_r;
    split; [reflexivity |]; split; [intros j Hj; lia | exact Hcall].
  all: destruct (attempt <? maxAttempts retry) eqn:Hlt; simpl;
    destruct ((status_or_500 e =? 429) || (500 <=? status_or_500 e)) eqn:Hre; simpl;
    try discriminate.
  all: try (intros [= <- <-]; exists O; simpl; rewrite Z.add_0_r;
            split; [reflexivity |]; split; [intros j Hj; lia |];
            split; [reflexivity |]; exists e;
            split; [exact Hcall |]; split; [reflexivity |]; split; [reflexivity |];
            first [left; exact Hre | right; apply Z.ltb_ge; exact Hlt]).
  destruct (Cli.attempts call retry options fuel (attempt + 1))
    as [[out' obs'] |] eqn:Hrec; [| discriminate].
  intros [= <- <-].
  destruct (IH _ _ _ Hrec) as (n & Hshape & Hbefore & Hout).
  apply Z.ltb_lt in Hlt.
  exists (S n). rewrite prescribed_S. unfold backoff. rewrite <- Hshape.
  split; [reflexivity |]. split.
  - intros j Hj. destruct (Z.eq_dec j attempt) as [-> | Hne].
    + split; [exact Hlt |]. exists e. split; [exact Hcall | exact Hre].
    + apply Hbefore. lia.
  - replace (attempt + Z.of_nat (S n)) with (attempt + 1 + Z.of_nat n) by lia.
    exact Hout.
Qed.

Lemma prescribed_In n : forall k j,
  In (Call options j) (prescribed retry options k n) -> k <= j <= k + Z.of_nat n.
Proof.
  induction n as [| n IH]; intros k j.
  - cbn. intros [[= ->] | []]. lia.
  - rewrite prescribed_S. cbn [In].
    intros [[= ->] | [H | H]]; [lia | discriminate H |].
    apply IH in H. lia.
Qed.

(** In a prescribed trace every call that is retried is followed by its
    suspension and by the next call. *)
Lemma prescribed_split n : forall k j,
  k <= j < k + Z.of_nat n ->
  exists pre post,
    prescribed retry options k n
    = pre ++ Call options j :: Sleep (backoff retry j) :: Call options (j + 1) :: post.
Proof.
  induction n as [| n IH]; intros k j Hj; [lia |].
  rewrite prescribed_S.
  destruct (Z.eq_dec j k) as [-> | Hne].
  - exists []. rewrite (prescribed_head retry options (k + 1)). eexists. reflexivity.
  - destruct (IH (k + 1) j) as (pre & post & Heq); [lia |].
    exists (Call options k :: Sleep (backoff retry k) :: pre), post.
    rewrite Heq. reflexivity.
Qed.

(** And every suspension of a prescribed trace is one of these. *)
Lemma prescribed_sleep n : forall k pre d post,
  prescribed retry options k n = pre ++ Sleep d :: post ->
  exists pre' j post',
    pre = pre' ++ [Call options j] /\
    post = Call options (j + 1) :: post' /\
    d = backoff retry j /\
    k <= j < k + Z.of_nat n.
Proof.
  induction n as [| n IH]; intros k pre d post Heq.
  - destruct pre as [| x [| y pre]]; discriminate.
  - rewrite prescribed_S in Heq.
    destruct pre as [| x [| y pre]]; [discriminate | |].
    + injection Heq as <- <- <-.
      exists [], k. rewrite (prescribed_head retry options (k + 1)). eexists.
      repeat split; lia.
    + injection Heq as <- <- Heq.
      destruct (IH _ _ _ _ Heq) as (pre' & j & post' & -> & -> & -> & Hj).
      exists (Call options k :: Sleep (backoff retry k) :: pre'), j, post'.
      repeat split; lia.
Qed.

End RetryCharacterized.

Lemma retryable_failure_spec e :
  retryable_failure e <-> retryable (status_or_500 e) = true.
Proof.
  unfold retryable_failure, retryable, status_or_500.
  destruct (err_status e) as [s |]; [| split; [reflexivity | exact (fun _ => I)]].
  destruct (s =? 0) eqn:H0.
  - apply Z.eqb_eq in H0. subst s. split; [reflexivity | auto].
  - apply Z.eqb_neq in H0. rewrite orb_true_iff, Z.eqb_eq, Z.leb_le. tauto.
Qed.

(** C7 on the code: the suspension after a retryable failure.
    [deleteWithRetry] returns, in the engine and, with the same outcome and
    trace, on the command line, and its trace starts with attempt 1.  Every
    attempt [k] that is made, is rejected with a retryable status and is
    below [maxAttempts] is followed at once by a suspension and by attempt
    [k + 1]; there is no other suspension; and the suspension that follows
    attempt [k] is the double that the program computes for
    [initialDelayMs * Math.pow(backoffMultiplier, k - 1)]: the product,
    rounded to the nearest double, of the initial delay and of the value of
    [Math.pow].  It is the number [initialDelay * backoffMultiplier^(k-1)]
    of the specification whenever [Math.pow] returns the power and the
    product needs no rounding. *)
Theorem retry_suspension_exact
        {math : MathLibrary}
        (p : BatchProcessor.t) (call : Z -> CallResult)
        (identifier : option string) (env : gmap string string) :
  let retry := BatchProcessor.retry p in
  let options := BatchProcessor.deleteOptions p identifier in
  let delay k :=
    times (initialDelayMs retry) (Math_pow (retry_backoffMultiplier retry) (k - 1)) in
  exists outcome env' rest,
    BatchProcessor.deleteWithRetry p call identifier 1 env
    = Some (outcome, env', Call options 1 :: rest) /\
    Cli.deleteWithRetry call retry options 1 = Some (outcome, Call options 1 :: rest) /\
    (forall k e,
        In (Call options k) (Call options 1 :: rest) ->
        call k = Rejected e ->
        retryable_failure e ->
        k < maxAttempts retry ->
        exists pre post,
          Call options 1 :: rest
          = pre ++ Call options k :: Sleep (delay k) :: Call options (k + 1) :: post) /\
    (forall pre d post,
        Call options 1 :: rest = pre ++ Sleep d :: post ->
        exists pre' k e post',
          pre = pre' ++ [Call options k] /\
          post = Call options (k + 1) :: post' /\
          d = delay k /\
          call k = Rejected e /\
          retryable_failure e /\
          k < maxAttempts retry) /\
    (forall pre k d post,
        Call options 1 :: rest = pre ++ Call options k :: Sleep d :: post ->
        d = delay k /\
        ((Math_pow (retry_backoffMultiplier retry) (k - 1)
          == Qpower (retry_backoffMultiplier retry) (k - 1))%Q ->
         (delay k
          == initialDelayMs retry * Math_pow (retry_backoffMultiplier retry) (k - 1))%Q ->
         (d == spec_delay retry k)%Q)).
Proof.
  intros retry options delay.
  destruct (deleteWithRetry_total p call identifier 1 env)
    as (outcome & env' & obs & Hrun).
  pose proof (deleteWithRetry_forget p call identifier 1 env) as Hcli.
  rewrite Hrun in Hcli. cbn in Hcli. symmetry in Hcli.
  change (Cli.deleteWithRetry call retry options 1 = Some (outcome, obs)) in Hcli.
  pose proof Hcli as Hatt. unfold Cli.deleteWithRetry in Hatt.
  destruct (Cli.attempts call retry options _ 1) as [[out rest] |] eqn:Hrest;
    [| discriminate].
  injection Hatt as -> <-.
  destruct (attempts_characterized _ _ _ _ _ _ _ Hrest) as (n & Hshape & Hbefore & Hlast).
  exists outcome, env', rest.
  split; [exact Hrun |]. split; [exact Hcli |].
  rewrite Hshape. split; [| split].
  - intros k e Hin Hcall Hretry Hlt.
    apply retryable_failure_spec in Hretry.
    apply prescribed_In in Hin.
    apply prescribed_split.
    destruct (Z.eq_dec k (1 + Z.of_nat n)) as [-> | Hne]; [exfalso | lia].
    destruct outcome as [r | error status last].
    + rewrite Hcall in Hlast. discriminate.
    + destruct Hlast as (-> & e' & He' & _ & -> & [Hstop | Hstop]); [| lia].
      rewrite Hcall in He'. injection He' as <-. congruence.
  - intros pre d post Heq.
    destruct (prescribed_sleep _ _ _ _ _ _ _ Heq)
      as (pre' & k & post' & Hpre & Hpost & Hd & Hk).
    destruct (Hbefore k Hk) as (Hlt & e & Hcall & Hretry).
    apply retryable_failure_spec in Hretry.
    exists pre', k, e, post'. auto 10.
  - intros pre k d post Heq.
    destruct (prescribed_adjacent _ _ _ _ _ _ _ _ Heq) as [Hd _].
    split; [exact Hd |].
    intros Hpow Hexact. rewrite Hd.
    apply Qeq_trans with (1 := Hexact).
    unfold spec_delay. rewrite Hpow. reflexivity.
Qed.

(** The original wording of C7 fails on the code: with the initial delay
    1000 and the multiplier 1.1, on a runtime whose [Math.pow] is rounded to
    the nearest double, the suspension after the third failed attempt is the
    double 1210.0000000000002 (that is [5321636278435841 / 2^42]), which is
    neither [1000 * 1.1^2] for the double written 1.1 nor the number 1210. *)
Lemma retry_delay_is_rounded :
  let p :=
    BatchProcessor.new Sample.iso 0
      {| BatchProcessor.cfg_records := [Sample.record "a@x.io"];
         BatchProcessor.cfg_identifierType := "email";
         BatchProcessor.cfg_columnName := "email";
         BatchProcessor.cfg_deleteAll := false;
         BatchProcessor.cfg_apiKey := Some "secret";
         BatchProcessor.cfg_region := "us";
         BatchProcessor.cfg_rateLimit := None;
         BatchProcessor.cfg_retry := Some slow_growth |} in
  let options := BatchProcessor.deleteOptions p (Some "a@x.io") in
  let d := 5321636278435841 # 4398046511104 in
  (exists env',
      BatchProcessor.deleteWithRetry (math := nearest_pow) p
        (fun _ => Sample.rejected 500) (Some "a@x.io") 1 ∅
      = Some (Failure "API Error" 500 4, env',
              [Call options 1; Sleep 1000; Call options 2; Sleep 1100;
               Call options 3; Sleep d; Call options 4])) /\
  Cli.deleteWithRetry (math := nearest_pow)
    (fun _ => Sample.rejected 500) slow_growth options 1
  = Some (Failure "API Error" 500 4,
          [Call options 1; Sleep 1000; Call options 2; Sleep 1100;
           Call options 3; Sleep d; Call options 4]) /\
  ~ (d == spec_delay slow_growth 3)%Q /\
  ~ (d == 1000 * Qpower (11 # 10) 2)%Q /\
  (1000 * Qpower (11 # 10) 2 == 1210)%Q.
Proof.
  intros p options d.
  split; [eexists; vm_compute; reflexivity |].
  split; [vm_compute; reflexivity |].
  split; [| split]; vm_compute; congruence.
Qed.

(** The rounding of the model on known doubles: the doubles written 0.1
    and 1.1, the product [0.1 * 3], which is 0.30000000000000004, and a tie,
    which goes to the even significand. *)
Example nearest_double_samples :
  nearest_double (1 # 10) = 3602879701896397 # 36028797018963968 /\
  nearest_double (11 # 10) = one_point_one /\
  times (nearest_double (1 # 10)) 3 = 1351079888211149 # 4503599627370496 /\
  nearest_double 9007199254740993 = 9007199254740992%Q /\
  nearest_double 9007199254740995 = 9007199254740996%Q.
Proof. vm_compute. repeat split. Qed.

(** The delays of the default retry configuration need no rounding: 1000
    and 2000 milliseconds before the second and the third attempt. *)
Example default_retry_delays :
  suspensions
    (match BatchProcessor.deleteWithRetry (math := nearest_pow) Sample.processor
             (fun _ => Sample.rejected 500) (Some "a@x.io") 1 ∅ with
     | Some (_, _, obs) => obs
     | None => []
     end)
  = [spec_delay (BatchProcessor.retry Sample.processor) 1;
     spec_delay (BatchProcessor.retry Sample.processor) 2].
Proof. vm_compute. reflexivity. Qed.

(** X5: what [deleteWithRetry] amounts to.  It always returns; it makes
    attempts 1, 2, ... and stops at the first attempt that resolves, or is
    rejected with a status that is not retryable, or is not below
    [maxAttempts]; every earlier attempt was below [maxAttempts] and
    rejected with a retryable status.  So it makes at least one call and at
    most [max(1, maxAttempts)], a Success carries the result of the last
    call, and a Failure carries the message and status of the last
    rejection and the number of calls made. *)
Theorem retry_policy_characterized {math : MathLibrary}
        (p : BatchProcessor.t) (call : Z -> CallResult)
        (identifier : option string) (env : gmap string string) :
  exists outcome env' obs n,
    BatchProcessor.deleteWithRetry p call identifier 1 env = Some (outcome, env', obs) /\
    call_attempts obs = seqZ 1 n /\
    1 <= n <= Z.max 1 (maxAttempts (BatchProcessor.retry p)) /\
    (forall j, 1 <= j < n ->
               exists e, call j = Rejected e /\ retryable (status_or_500 e) = true) /\
    match outcome with
    | Success r => call n = Resolved r
    | Failure error status k =>
        k = n /\
        exists e, call n = Rejected e /\ error = message e /\
                  status = status_or_500 e /\
                  (retryable status = false \/ maxAttempts (BatchProcessor.retry p) <= n)
    end.
Proof.
  destruct (deleteWithRetry_total p call identifier 1 env)
    as (outcome & env' & obs & Hrun).
  pose proof (deleteWithRetry_forget p call identifier 1 env) as Hcli.
  rewrite Hrun in Hcli. simpl in Hcli. unfold Cli.deleteWithRetry in Hcli.
  destruct (Cli.attempts call (BatchProcessor.retry p)
              (BatchProcessor.deleteOptions p identifier)
              (Z.to_nat (maxAttempts (BatchProcessor.retry p) - 1)) 1)
    as [[out obs'] |] eqn:Hatt; [| discriminate].
  injection Hcli as Hout Hobs.
  destruct (attempts_characterized _ _ _ _ _ _ _ Hatt) as (n & Hshape & Hbefore & Hlast).
  exists outcome, env', obs, (1 + Z.of_nat n).
  split; [exact Hrun |].
  split.
  { rewrite Hobs, Hshape, call_attempts_prescribed. f_equal. lia. }
  split.
  { destruct n as [| n]; [lia |].
    destruct (Hbefore (1 + Z.of_nat n)) as [Hlt _]; lia. }
  split.
  { intros j Hj. destruct (Hbefore j) as [_ He]; [lia | exact He]. }
  subst out. destruct outcome as [r | error status k]; [exact Hlast |].
  destruct Hlast as (-> & e & Hcall & Herr & Hst & Hstop).
  split; [reflexivity |]. exists e. auto.
Qed.

(** ** The process environment, continued *)

Section EnvironmentAfterRetries.

Context {math : MathLibrary}.

Import BatchProcessor.

Variable p : t.
Variable call : Z -> CallResult.
Variable identifier : option string.

Lemma lookup_restore_other originalKey env k :
  k <> KEY -> restore originalKey env !! k = env !! k.
Proof.
  intros Hk. unfold restore. destruct originalKey as [v |].
  - destruct (truthy (Some v)).
    + apply lookup_insert_ne. congruence.
    + apply lookup_delete_ne. congruence.
  - apply lookup_delete_ne. congruence.
Qed.

Lemma lookup_override_other env k :
  k <> KEY -> k <> REGION -> snd (override p env) !! k = env !! k.
Proof.
  intros Hk Hr. unfold override. cbn [snd].
  rewrite !lookup_insert_ne by congruence. reflexivity.
Qed.

Lemma lookup_override_REGION env :
  snd (override p env) !! REGION = Some (region p).
Proof. unfold override. cbn [snd]. apply lookup_insert_eq. Qed.

Lemma restored_idempotent v : restored (restored v) = restored v.
Proof. unfold restored. destruct (truthy v) eqn:E; [rewrite E |]; reflexivity. Qed.

Lemma call_attempts_retry d o a obs :
  call_attempts (Sleep d :: Call o a :: obs) = a :: call_attempts obs.
Proof. reflexivity. Qed.

(** The environment when the call made at [attempt] and all its retries
    have settled. *)
Lemma settle_env fuel : forall attempt originalKey env outcome env' obs,
  settle p call identifier fuel attempt originalKey env = Some (outcome, env', obs) ->
  env' !! KEY
  = (if Nat.even (length (call_attempts obs)) then restored originalKey
     else restored (env !! KEY)) /\
  (env !! REGION = Some (region p) -> env' !! REGION = Some (region p)) /\
  (forall k, k <> KEY -> k <> REGION -> env' !! k = env !! k).
Proof.
  induction fuel as [| fuel IH]; intros attempt originalKey env outcome env' obs; simpl;
    destruct (call attempt) as [r | e].
  1, 3: intros [= <- <- <-]; cbn [call_attempts omap list_omap length Nat.even];
    split; [apply lookup_restore_KEY |];
    split; [rewrite lookup_restore_REGION; auto
           | intros k Hk _; apply lookup_restore_other, Hk].
  all: destruct ((attempt <? maxAttempts (retry p))
                 && ((status_or_500 e =? 429) || (500 <=? status_or_500 e)));
    try discriminate.
  all: try (intros [= <- <- <-]; cbn [call_attempts omap list_omap length Nat.even];
            split; [apply lookup_restore_KEY |];
            split; [rewrite lookup_restore_REGION; auto
                   | intros k Hk _; apply lookup_restore_other, Hk]).
  destruct (settle p call identifier fuel (attempt + 1) (env !! KEY) _)
    as [[[out env3] obs'] |] eqn:Hrec; [| discriminate].
  intros [= <- <- <-].
  destruct (IH _ _ _ _ _ _ Hrec) as (Hkey & Hregion & Hother).
  rewrite call_attempts_retry. cbn [length]. rewrite Nat.even_succ, <- Nat.negb_even.
  split; [| split].
  - rewrite Hkey, lookup_restore_KEY.
    change (if truthy originalKey then originalKey else None) with (restored originalKey).
    rewrite restored_idempotent.
    destruct (Nat.even (length (call_attempts obs'))); reflexivity.
  - intros _. apply Hregion. rewrite lookup_restore_REGION. apply lookup_insert_eq.
  - intros k Hk Hr. rewrite (Hother k Hk Hr), lookup_restore_other by exact Hk.
    rewrite !lookup_insert_ne by congruence. reflexivity.
Qed.

End EnvironmentAfterRetries.

(** X6: where [deleteWithRetry] leaves [BLUESHIFT_USER_API_KEY].  After an
    odd number of calls of [deleteCustomer] the variable is back to what it
    was before, when that was a non-empty string, and is absent otherwise;
    after an even number of calls it holds the API key of the engine (or is
    absent when that key is the empty string). *)
Theorem env_key_after_retries {math : MathLibrary}
        (p : BatchProcessor.t) (call : Z -> CallResult)
        (identifier : option string) (attempt : Z) (env : gmap string string) :
  exists outcome env' obs,
    BatchProcessor.deleteWithRetry p call identifier attempt env
    = Some (outcome, env', obs) /\
    env' !! KEY
    = if Nat.even (length (call_attempts obs))
      then restored (Some (env_string (BatchProcessor.apiKey p)))
      else restored (env !! KEY).
Proof.
  destruct (deleteWithRetry_total p call identifier attempt env)
    as (outcome & env' & obs & Hrun).
  exists outcome, env', obs. split; [exact Hrun |].
  unfold BatchProcessor.deleteWithRetry in Hrun.
  destruct (BatchProcessor.override p env) as [originalKey env1] eqn:Hov.
  destruct (BatchProcessor.settle p call identifier _ attempt originalKey env1)
    as [[[out env2] obs'] |] eqn:Hs; [| discriminate].
  injection Hrun as <- <- <-.
  destruct (settle_env p call identifier _ _ _ _ _ _ _ Hs) as (Hkey & _ & _).
  assert (Hold : originalKey = env !! KEY)
    by (unfold BatchProcessor.override in Hov; congruence).
  assert (Hnew : env1 !! KEY = Some (env_string (BatchProcessor.apiKey p))).
  { replace env1 with (snd (BatchProcessor.override p env)) by (rewrite Hov; reflexivity).
    apply lookup_override_KEY. }
  change (call_attempts (Call (BatchProcessor.deleteOptions p identifier) attempt :: obs'))
    with (attempt :: call_attempts obs').
  cbn [length]. rewrite Nat.even_succ, <- Nat.negb_even, Hkey, Hnew, Hold.
  destruct (Nat.even (length (call_attempts obs'))); reflexivity.
Qed.

(** X7: [deleteWithRetry] touches two variables of the environment and no
    other: when it returns, [BLUESHIFT_REGION] holds the region of the
    engine, whatever it held before, and every variable other than
    [BLUESHIFT_USER_API_KEY] and [BLUESHIFT_REGION] is as it was. *)
Theorem env_frame_of_deleteWithRetry {math : MathLibrary}
        (p : BatchProcessor.t) (call : Z -> CallResult)
        (identifier : option string) (attempt : Z) (env : gmap string string) :
  exists outcome env' obs,
    BatchProcessor.deleteWithRetry p call identifier attempt env
    = Some (outcome, env', obs) /\
    env' !! REGION = Some (BatchProcessor.region p) /\
    forall k, k <> KEY -> k <> REGION -> env' !! k = env !! k.
Proof.
  destruct (deleteWithRetry_total p call identifier attempt env)
    as (outcome & env' & obs & Hrun).
  exists outcome, env', obs. split; [exact Hrun |].
  unfold BatchProcessor.deleteWithRetry in Hrun.
  destruct (BatchProcessor.override p env) as [originalKey env1] eqn:Hov.
  destruct (BatchProcessor.settle p call identifier _ attempt originalKey env1)
    as [[[out env2] obs'] |] eqn:Hs; [| discriminate].
  injection Hrun as <- <- <-.
  destruct (settle_env p call identifier _ _ _ _ _ _ _ Hs) as (_ & Hregion & Hother).
  assert (Henv1 : env1 = snd (BatchProcessor.override p env)) by (rewrite Hov; reflexivity).
  split.
  - apply Hregion. rewrite Henv1. apply lookup_override_REGION.
  - intros k Hk Hr. rewrite (Hother k Hk Hr), Henv1.
    apply lookup_override_other; assumption.
Qed.

(** X8: the outcome of the engine's [deleteWithRetry] and the calls and
    suspensions it makes do not depend on the process environment, and they
    are those of the command-line [deleteWithRetry] of [batch-delete.js] for
    the same retry configuration and options. *)
Theorem engine_retry_agrees_with_command_line {math : MathLibrary}
        (p : BatchProcessor.t) (call : Z -> CallResult)
        (identifier : option string) (attempt : Z) (env1 env2 : gmap string string) :
  exists outcome obs env1' env2',
    BatchProcessor.deleteWithRetry p call identifier attempt env1
    = Some (outcome, env1', obs) /\
    BatchProcessor.deleteWithRetry p call identifier attempt env2
    = Some (outcome, env2', obs) /\
    Cli.deleteWithRetry call (BatchProcessor.retry p)
                        (BatchProcessor.deleteOptions p identifier) attempt
    = Some (outcome, obs).
Proof.
  destruct (deleteWithRetry_total p call identifier attempt env1)
    as (outcome & env1' & obs & Hrun1).
  pose proof (deleteWithRetry_forget p call identifier attempt env1) as Hcli.
  rewrite Hrun1 in Hcli. cbn in Hcli. symmetry in Hcli.
  destruct (deleteWithRetry_of_cli p call identifier attempt env2 _ _ Hcli)
    as (env2' & Hrun2).
  exists outcome, obs, env1', env2'. auto.
Qed.

(** ** What a run touches *)

Section Footprint.

Context {math : MathLibrary}.

Import BatchProcessor.

Variable host : Host.

Lemma string_app_nil_r (s : string) : (s ++ EmptyString)%string = s.
Proof.
  induction s as [| c s IH]; [reflexivity |].
  change (String c (s ++ EmptyString) = String c s). rewrite IH. reflexivity.
Qed.

Lemma footprint_refl st : footprint st st.
Proof.
  unfold footprint. repeat split; try reflexivity.
  intros _. exists EmptyString. symmetry. apply string_app_nil_r.
Qed.

Lemma footprint_trans st1 st2 st3 :
  footprint st1 st2 -> footprint st2 st3 -> footprint st1 st3.
Proof.
  unfold footprint.
  intros (Hl1 & Hf1 & Hfiles1 & Hlog1 & Henv1) (Hl2 & Hf2 & Hfiles2 & Hlog2 & Henv2).
  rewrite Hl1, Hf1 in *.
  split; [congruence |]. split; [congruence |]. split; [| split].
  - intros path H1 H2. rewrite Hfiles2, Hfiles1 by assumption. reflexivity.
  - intros Hne. destruct (Hlog1 Hne) as [s1 Hs1]. destruct (Hlog2 Hne) as [s2 Hs2].
    exists (s1 ++ s2)%string. rewrite Hs2, Hs1. apply string_app_assoc.
  - intros k H1 H2. rewrite Henv2, Henv1 by assumption. reflexivity.
Qed.

(** A step that leaves the logger's paths, the files and the environment
    alone. *)
Lemma footprint_same st st' :
  Logger.logFile (logger (this st')) = Logger.logFile (logger (this st)) ->
  Logger.failedRecordsFile (logger (this st'))
  = Logger.failedRecordsFile (logger (this st)) ->
  files st' = files st ->
  env st' = env st ->
  footprint st st'.
Proof.
  intros Hl Hf Hfiles Henv. unfold footprint. rewrite Hl, Hf, Hfiles, Henv.
  repeat split; try reflexivity.
  intros _. exists EmptyString. symmetry. apply string_app_nil_r.
Qed.

Lemma within_ret {A} (a : A) : within_footprint (ret a).
Proof. intros st res st' [= <- <-]. apply footprint_refl. Qed.

Lemma within_throw {A} e : within_footprint (@throw A e).
Proof. intros st res st' [= <- <-]. apply footprint_refl. Qed.

Lemma within_gets {A} (f : State -> A) : within_footprint (gets f).
Proof. intros st res st' [= <- <-]. apply footprint_refl. Qed.

Lemma within_bind {A B} (m : M A) (k : A -> M B) :
  within_footprint m -> (forall a, within_footprint (k a)) ->
  within_footprint (bind m k).
Proof.
  intros Hm Hk st res st'. unfold bind.
  destruct (m st) as [[a | e] st1] eqn:E; intros H.
  - eapply footprint_trans; [eapply Hm, E | eapply Hk, H].
  - injection H as <- <-. eapply Hm, E.
Qed.

Lemma within_emit e : within_footprint (emit e).
Proof. intros st res st' [= <- <-]. apply footprint_same; reflexivity. Qed.

Lemma within_sleep ms : within_footprint (sleep ms).
Proof. intros st res st' [= <- <-]. apply footprint_same; reflexivity. Qed.

Lemma within_now : within_footprint (now host).
Proof. intros st res st' [= <- <-]. apply footprint_same; reflexivity. Qed.

Lemma within_cancel : within_footprint cancel.
Proof. intros st res st' [= <- <-]. apply footprint_same; reflexivity. Qed.

Lemma within_suspended a : within_footprint (suspended host a).
Proof.
  unfold suspended. destruct (cancel_at host a); [apply within_cancel | apply within_ret].
Qed.

Lemma within_onSuccess : within_footprint onSuccess.
Proof. intros st res st' [= <- <-]. apply footprint_same; reflexivity. Qed.

Lemma within_onRateLimit : within_footprint onRateLimit.
Proof.
  intros st res st'. unfold onRateLimit.
  destruct (RateLimiter.onRateLimit (rateLimiter (this st))) as [r delays].
  intros [= <- <-]. apply footprint_same; reflexivity.
Qed.

Lemma within_addFailedRecord identifier error status :
  within_footprint (addFailedRecord identifier error status).
Proof. intros st res st' [= <- <-]. apply footprint_same; reflexivity. Qed.

Lemma text_insert_eq (fs : gmap string string) path content :
  text (<[path := content]> fs) path = content.
Proof. unfold text. rewrite lookup_insert_eq. reflexivity. Qed.

Lemma text_insert_ne (fs : gmap string string) path path' content :
  path <> path' -> text (<[path := content]> fs) path' = text fs path'.
Proof. intros Hne. unfold text. rewrite lookup_insert_ne by exact Hne. reflexivity. Qed.

(** A line added to the log. *)
Lemma within_log message : within_footprint (log host message).
Proof.
  intros st res st'. unfold log, bind, now, gets, writeFileSync.
  cbn [this env files writes clock_reads trace with_clock_reads with_writes with_files].
  destruct (write_error host (writes st)); intros [= <- <-].
  - apply footprint_same; reflexivity.
  - unfold footprint.
    cbn [this env files writes clock_reads trace with_clock_reads with_writes with_files].
    repeat split; try reflexivity.
    + intros path Hlog _. apply lookup_insert_ne. congruence.
    + intros _. eexists. rewrite text_insert_eq. reflexivity.
Qed.

(** The failed-records file, written at once. *)
Lemma within_saveFailedRecords column : within_footprint (saveFailedRecords host column).
Proof.
  intros st res st'. unfold saveFailedRecords, bind, gets, ret, writeFileSync.
  cbn [this env files writes clock_reads trace with_clock_reads with_writes with_files].
  destruct (length (Logger.failedRecords (logger (this st))) =? 0)%nat;
    [intros [= <- <-]; apply footprint_refl |].
  destruct (write_error host (writes st)); intros [= <- <-].
  - apply footprint_same; reflexivity.
  - unfold footprint.
    cbn [this env files writes clock_reads trace with_clock_reads with_writes with_files].
    repeat split; try reflexivity.
    + intros path _ Hfailed. apply lookup_insert_ne. congruence.
    + intros Hne. exists EmptyString.
      rewrite text_insert_ne by congruence. symmetry. apply string_app_nil_r.
Qed.

Lemma within_await_deleteWithRetry i identifier :
  within_footprint (await_deleteWithRetry host i identifier).
Proof.
  intros st res st'. unfold await_deleteWithRetry. unfold bind at 1. unfold gets.
  destruct (deleteWithRetry (this st) (remote host i) identifier 1 (env st))
    as [[[outcome env'] obs] |] eqn:Hrun; [| intros [= <- <-]; apply footprint_refl].
  assert (Henv : forall k, k <> KEY -> k <> REGION -> env' !! k = env st !! k).
  { unfold deleteWithRetry in Hrun.
    destruct (override (this st) (env st)) as [originalKey env1] eqn:Hov.
    destruct (settle (this st) (remote host i) identifier _ 1 originalKey env1)
      as [[[out env2] obs'] |] eqn:Hs; [| discriminate].
    injection Hrun as <- <- <-.
    destruct (settle_env _ _ _ _ _ _ _ _ _ _ Hs) as (_ & _ & Hother).
    intros k Hk Hr. rewrite (Hother k Hk Hr).
    replace env1 with (snd (override (this st) (env st))) by (rewrite Hov; reflexivity).
    apply lookup_override_other; assumption. }
  unfold bind at 1. unfold modify. intros H.
  eapply footprint_trans;
    [| eapply (within_bind (suspended host (InDelete i)) (fun _ => ret outcome));
       [apply within_suspended | intros _; apply within_ret | exact H]].
  unfold footprint. cbn [this env files with_trace with_env].
  repeat split; try reflexivity; [| exact Henv].
  intros _. exists EmptyString. symmetry. apply string_app_nil_r.
Qed.

Lemma within_await_wait i : within_footprint (await_wait host i).
Proof.
  unfold await_wait. apply within_bind; [apply within_gets | intros r].
  apply within_bind; [apply within_sleep | intros _; apply within_suspended].
Qed.

Lemma within_process i record sc fc : within_footprint (process host i record sc fc).
Proof.
  unfold process.
  repeat first
    [ apply within_ret | apply within_gets | apply within_emit | apply within_log
    | apply within_onSuccess | apply within_onRateLimit | apply within_addFailedRecord
    | apply within_await_deleteWithRetry | apply within_await_wait
    | apply within_bind; [| intros ?]
    | match goal with
      | |- within_footprint (match ?o with Success _ => _ | Failure _ _ _ => _ end) =>
          destruct o
      | |- within_footprint (if ?c then _ else _) => destruct c
      end ].
Qed.

Lemma within_loop todo : forall i sc fc, within_footprint (loop host todo i sc fc).
Proof.
  induction todo as [| record rest IH]; intros i sc fc; cbn [loop];
    [apply within_ret |].
  apply within_bind; [apply within_gets | intros stop].
  destruct stop.
  - repeat first [apply within_ret | apply within_emit | apply within_log
                 | apply within_bind; [| intros ?]].
  - apply within_bind; [apply within_process | intros counts; apply IH].
Qed.

(** The last statement of [start]. *)
Lemma within_clear_apiKey :
  within_footprint (modify (fun st => with_this st (with_apiKey (this st) None))).
Proof. intros st res st' [= <- <-]. apply footprint_same; reflexivity. Qed.

Lemma within_start : within_footprint (start host).
Proof.
  unfold start.
  repeat first
    [ apply within_ret | apply within_gets | apply within_emit | apply within_log
    | apply within_now | apply within_loop | apply within_saveFailedRecords
    | apply within_clear_apiKey
    | apply within_bind; [| intros ?] ].
Qed.

End Footprint.

(** ** Requests, failures and events of a run *)

Section RunEffects.

Context {math : MathLibrary}.

Import BatchProcessor.

Variable host : Host.

Ltac unfold_run H :=
  unfold start, process, await_deleteWithRetry, await_wait, suspended, cancel, log,
    onSuccess, onRateLimit, addFailedRecord, saveFailedRecords, emit, sleep, now,
    writeFileSync, bind, gets, modify, ret, throw, RateLimiter.onRateLimit in H.

Ltac proj :=
  cbn [this env trace writes clock_reads files with_trace with_env with_this
       with_files with_writes with_clock_reads records identifierType columnName
       deleteAll apiKey region rateLimit retry cancelled rateLimiter logger
       with_apiKey with_cancelled with_rateLimiter with_logger fst snd
       Logger.addFailedRecord Logger.with_failedRecords Logger.failedRecords
       Logger.logFile Logger.failedRecordsFile Logger.logDir Logger.timestamp] in *.

Ltac branch H :=
  match type of H with
  | context [match write_error ?h ?n with _ => _ end] =>
      let E := fresh "Hwrite" in destruct (write_error h n) eqn:E
  | context [if ?c then _ else _] =>
      let E := fresh "Hcond" in destruct c eqn:E
  | context [match ?o with Success _ => _ | Failure _ _ _ => _ end] =>
      destruct o
  end.

Ltac events_norm :=
  repeat rewrite events_app; cbn [events omap list_omap]; rewrite <- ?app_assoc.

Lemma requested_app a b : requested (a ++ b) = requested a ++ requested b.
Proof. apply omap_app. Qed.

Lemma failures_app a b : failures (a ++ b) = failures a ++ failures b.
Proof. apply omap_app. Qed.

(** Retries are not first attempts. *)
Lemma settle_requested p call identifier fuel :
  forall attempt originalKey env outcome env' obs,
    1 <= attempt ->
    settle p call identifier fuel attempt originalKey env = Some (outcome, env', obs) ->
    requested obs = [].
Proof.
  induction fuel as [| fuel IH]; intros attempt originalKey env outcome env' obs Hat; simpl;
    destruct (call attempt) as [r | e]; try (intros [= <- <- <-]; reflexivity);
    destruct ((attempt <? maxAttempts (retry p))
              && ((status_or_500 e =? 429) || (500 <=? status_or_500 e)));
    try discriminate; try (intros [= <- <- <-]; reflexivity).
  destruct (settle p call identifier fuel (attempt + 1) (env !! KEY) _)
    as [[[out env3] obs'] |] eqn:Hrec; [| discriminate].
  intros [= <- <- <-]. cbn [requested omap list_omap].
  replace (attempt + 1 =? 1) with false by (symmetry; apply Z.eqb_neq; lia).
  eapply IH; [| exact Hrec]. lia.
Qed.

Lemma deleteWithRetry_requested p call identifier env outcome env' obs :
  deleteWithRetry p call identifier 1 env = Some (outcome, env', obs) ->
  requested obs = [identifier].
Proof.
  unfold deleteWithRetry.
  destruct (override p env) as [originalKey env1].
  destruct (settle p call identifier _ 1 originalKey env1)
    as [[[out env2] obs'] |] eqn:Hs; [| discriminate].
  intros [= <- <- <-]. cbn [requested omap list_omap Z.eqb Pos.eqb deleteOptions
                            opt_identifier].
  erewrite settle_requested; [reflexivity | | exact Hs]. lia.
Qed.

(** What processing one item adds to the requests, to the events and to
    the failures recorded by the logger, however it ends. *)
Lemma process_effects i record sc fc st res st' :
  process host i record sc fc st = (res, st') ->
  exists evs,
    events (trace st') = events (trace st) ++ evs /\
    count is_progress evs = 1%nat /\
    requested (trace st') = requested (trace st) ++ [record !! columnName (this st)] /\
    Logger.failedRecords (logger (this st'))
    = Logger.failedRecords (logger (this st)) ++ failures evs /\
    (never_cancelled host -> count is_cancelled evs = O).
Proof.
  intros H. unfold_run H.
  destruct (deleteWithRetry_total (this st) (remote host i)
              (record !! columnName (this st)) 1 (env st))
    as (outcome & env' & obs & Hrun).
  pose proof (deleteWithRetry_no_events _ _ _ _ _ _ _ _ Hrun) as Hsilent.
  pose proof (deleteWithRetry_requested _ _ _ _ _ _ _ Hrun) as Hreq.
  proj. rewrite Hrun in H.
  repeat (branch H; proj).
  all: injection H as <- <-; proj.
  all: eexists; split; [events_norm; rewrite ?Hsilent; cbn [app]; reflexivity |].
  all: cbn [events omap list_omap app].
  all: split; [reflexivity |].
  all: split;
    [repeat rewrite requested_app; cbn [requested omap list_omap]; rewrite Hreq;
     rewrite ?app_nil_r; reflexivity |].
  all: split; [cbn [failures omap list_omap failure_record];
               first [reflexivity | symmetry; apply app_nil_r] |].
  all: intros Hnever; try reflexivity.
  all: match goal with
       | Hc : cancel_at host ?a = true |- _ => rewrite (Hnever a) in Hc; discriminate
       end.
Qed.

(** Leaving the loop on the cancellation flag requests and records
    nothing. *)
Lemma stop_effects (sc fc : nat) st res st' :
  (log host "Batch processing cancelled by user" >>
   emit EvCancelled >> ret (sc, fc)) st = (res, st') ->
  exists evs,
    events (trace st') = events (trace st) ++ evs /\
    count is_progress evs = O /\
    requested (trace st') = requested (trace st) /\
    Logger.failedRecords (logger (this st')) = Logger.failedRecords (logger (this st)) /\
    failures evs = [].
Proof.
  intros H. unfold_run H. proj.
  repeat (branch H; proj).
  all: injection H as <- <-; proj.
  all: eexists; split;
    [events_norm; first [reflexivity | symmetry; apply app_nil_r] |].
  all: repeat split; try reflexivity.
  all: repeat rewrite requested_app; cbn [requested omap list_omap];
    rewrite ?app_nil_r; reflexivity.
Qed.

Lemma loop_effects todo : forall i sc fc st res st',
  loop host todo i sc fc st = (res, st') ->
  exists evs,
    events (trace st') = events (trace st) ++ evs /\
    (count is_progress evs <= length todo)%nat /\
    requested (trace st')
    = requested (trace st)
      ++ map (fun record => record !! columnName (this st))
             (take (count is_progress evs) todo) /\
    Logger.failedRecords (logger (this st'))
    = Logger.failedRecords (logger (this st)) ++ failures evs /\
    (never_cancelled host -> cancelled (this st) = false ->
     count is_cancelled evs = O /\
     forall c, res = Ok c -> count is_progress evs = length todo).
Proof.
  induction todo as [| record rest IH]; intros i sc fc st res st' H.
  - cbn in H. unfold ret in H. injection H as <- <-.
    exists []. rewrite !app_nil_r. cbn. repeat split; auto.
  - rewrite loop_cons in H.
    destruct (cancelled (this st)) eqn:Hflag.
    + destruct (stop_effects _ _ _ _ _ H) as (evs & Hev & Hp & Hreq & Hrec & Hfail).
      exists evs. rewrite Hp, Hfail, app_nil_r. cbn [take map length].
      rewrite app_nil_r.
      repeat split; try assumption; try lia; discriminate.
    + destruct (process host i record sc fc st) as [res1 st1] eqn:Hp.
      destruct (process_effects _ _ _ _ _ _ _ Hp)
        as (evs1 & Hev1 & Hprog1 & Hreq1 & Hrec1 & Hcan1).
      destruct (process_spec host _ _ _ _ _ _ _ Hp)
        as (evs1' & Hev1' & Hfr1 & _ & _ & _ & Hok1 & _ & _).
      rewrite Hev1 in Hev1'. apply app_inv_head in Hev1'. subst evs1'.
      destruct res1 as [counts | e].
      * destruct (IH _ _ _ _ _ _ H) as (evs2 & Hev2 & Hle2 & Hreq2 & Hrec2 & Hcan2).
        assert (Hcol : columnName (this st1) = columnName (this st)) by apply Hfr1.
        exists (evs1 ++ evs2).
        split; [rewrite Hev2, Hev1, app_assoc; reflexivity |].
        rewrite count_app, Hprog1. cbn [Nat.add take map length].
        split; [lia |].
        split; [rewrite Hreq2, Hreq1, Hcol, <- app_assoc; reflexivity |].
        split; [rewrite Hrec2, Hrec1, failures_app, app_assoc; reflexivity |].
        intros Hnever _. rewrite count_app.
        destruct counts as [sc1 fc1].
        destruct (Hok1 sc1 fc1 eq_refl) as (_ & _ & _ & _ & Hflag1).
        rewrite Hflag in Hflag1. unfold cancelled_during in Hflag1.
        rewrite !Hnever, andb_false_r in Hflag1. cbn in Hflag1.
        destruct (Hcan2 Hnever Hflag1) as [Hnone Hall].
        rewrite (Hcan1 Hnever), Hnone. split; [reflexivity |].
        intros c Hc. rewrite (Hall c Hc). reflexivity.
      * injection H as <- <-.
        exists evs1. rewrite Hprog1. cbn [take map length].
        split; [exact Hev1 |]. split; [lia |]. rewrite take_0.
        split; [exact Hreq1 |]. split; [exact Hrec1 |].
        intros Hnever _. split; [apply Hcan1, Hnever | discriminate].
Qed.

Lemma length_failures evs : length (failures evs) = count is_failure evs.
Proof.
  unfold failures. induction evs as [| e evs IH]; [reflexivity |].
  destruct e; simpl; rewrite <- ?IH; reflexivity.
Qed.

Ltac thrown :=
  eexists; proj; split; [reflexivity |];
  split; [repeat rewrite requested_app; cbn [requested omap list_omap];
          rewrite ?app_nil_r; reflexivity |];
  events_norm; rewrite ?app_nil_r; reflexivity.

(** The ways a run can go, with what each part of it requests, writes and
    reports. *)
Lemma start_anatomy st res st' :
  start host st = (res, st') ->
  (exists e, res = Throw e /\
             requested (trace st') = requested (trace st) /\
             events (trace st') = events (trace st))
  \/
  exists st0,
    this st0 = this st /\
    events (trace st0) = events (trace st) ++ [EvStart (length (records (this st)))] /\
    requested (trace st0) = requested (trace st) /\
    match loop host (records (this st)) 0 0 0 st0 with
    | (Throw e, st1) => res = Throw e /\ st' = st1
    | (Ok counts, st1) =>
        (exists e, res = Throw e /\
                   requested (trace st') = requested (trace st1) /\
                   events (trace st') = events (trace st1))
        \/
        (res = Ok tt /\
         this st' = with_apiKey (this st1) None /\
         exists s,
           events (trace st') = events (trace st1) ++ [EvComplete s] /\
           requested (trace st') = requested (trace st1) /\
           successCount s = fst counts /\
           failureCount s = snd counts /\
           totalProcessed s = length (records (this st)) /\
           logFile s = Logger.logFile (logger (this st1)) /\
           hasFailedRecords s = Logger.hasFailedRecords (logger (this st1)) /\
           match Logger.failedRecords (logger (this st1)) with
           | [] => failedRecordsFile s = None
           | _ :: _ =>
               failedRecordsFile s = Some (Logger.failedRecordsFile (logger (this st1))) /\
               (Logger.logFile (logger (this st1))
                <> Logger.failedRecordsFile (logger (this st1)) ->
                files st' !! Logger.failedRecordsFile (logger (this st1))
                = Some (Logger.csvHeader (columnName (this st))
                        ++ Logger.csvRows (logger (this st1)))%string)
           end)
    end.
Proof.
  intros H. unfold_run H. proj.
  repeat (branch H; proj).
  all: try (injection H as <- <-; left; thrown).
  right.
  match type of H with
  | context [loop host ?a ?b ?c ?d ?s0] =>
      exists s0; proj; split; [reflexivity |];
      split; [events_norm; reflexivity |];
      split; [repeat rewrite requested_app; cbn [requested omap list_omap];
              rewrite ?app_nil_r; reflexivity |];
      destruct (loop host a b c d s0) as [[counts | e] st1]
  end.
  2: { injection H as <- <-. split; reflexivity. }
  proj.
  destruct (Logger.failedRecords (logger (this st1))) as [| r rs] eqn:Hrecs;
    cbn [length Nat.eqb] in H.
  all: repeat (branch H; proj).
  all: injection H as <- <-; proj.
  all: try (left; thrown).
  all: right; split; [reflexivity |]; split; [reflexivity |].
  all: eexists; split; [events_norm; reflexivity |].
  all: split; [repeat rewrite requested_app; cbn [requested omap list_omap];
               rewrite ?app_nil_r; reflexivity |].
  all: cbn [successCount failureCount totalProcessed logFile hasFailedRecords
            failedRecordsFile Logger.getLogFile].
  all: repeat (split; [reflexivity |]).
  all: rewrite ?Hrecs; try reflexivity.
  all: intros Hne; rewrite !lookup_insert_ne by congruence.
  all: rewrite lookup_insert_eq; unfold Logger.csvRows; rewrite Hrecs; reflexivity.
Qed.

(** *** Success events and resolved attempts *)

Lemma confirmed_success_frame p p' e :
  frame p p' -> confirmed_success host p e -> confirmed_success host p' e.
Proof.
  intros (Hrec & Hty & Hcol & Hall & _ & _ & Hretry) H.
  destruct e; try exact I. cbn in *.
  destruct H as (record & k & r & Hlook & Hid & Hk & Hres).
  exists record, k, r. rewrite Hrec, Hcol, Hretry. auto.
Qed.

(** A Success of the retry policy comes from an attempt that resolved. *)
Lemma success_resolved call retry options outcome obs r :
  Cli.deleteWithRetry call retry options 1 = Some (outcome, obs) ->
  outcome = Success r ->
  exists k, 1 <= k <= Z.max 1 (maxAttempts retry) /\ call k = Resolved r.
Proof.
  unfold Cli.deleteWithRetry. intros H ->.
  destruct (Cli.attempts call retry options _ 1) as [[out obs'] |] eqn:Hatt;
    [| discriminate].
  injection H as -> <-.
  destruct (attempts_characterized _ _ _ _ _ _ _ Hatt) as (n & _ & Hbefore & Hlast).
  exists (1 + Z.of_nat n). split; [| exact Hlast].
  destruct n as [| n]; [lia |].
  destruct (Hbefore (Z.of_nat (S n))) as [Hlt _]; lia.
Qed.

(** The [success] events of one item. *)
Lemma process_successes i record sc fc st res st' :
  process host i record sc fc st = (res, st') ->
  exists outcome obs evs,
    Cli.deleteWithRetry (remote host i) (retry (this st))
      (deleteOptions (this st) (record !! columnName (this st))) 1
    = Some (outcome, obs) /\
    events (trace st') = events (trace st) ++ evs /\
    Forall (fun e => is_success e = true ->
                     e = EvSuccess (record !! columnName (this st)) (S i)
                                   (length (records (this st))) /\
                     exists r, outcome = Success r) evs.
Proof.
  intros H. unfold_run H.
  destruct (deleteWithRetry_total (this st) (remote host i)
              (record !! columnName (this st)) 1 (env st))
    as (outcome & env' & obs & Hrun).
  pose proof (deleteWithRetry_no_events _ _ _ _ _ _ _ _ Hrun) as Hsilent.
  pose proof (deleteWithRetry_forget (this st) (remote host i)
                (record !! columnName (this st)) 1 (env st)) as Hcli.
  rewrite Hrun in Hcli. simpl in Hcli. symmetry in Hcli.
  proj. rewrite Hrun in H.
  exists outcome, obs.
  repeat (branch H; proj).
  all: injection H as <- <-; proj.
  all: eexists; split; [exact Hcli |].
  all: split; [events_norm; rewrite ?Hsilent; cbn [app]; reflexivity |].
  all: cbn [events omap list_omap app].
  all: repeat (apply List.Forall_cons;
               [cbn [is_success]; intros Hs;
                first [discriminate Hs | split; [reflexivity | eauto]] |]).
  all: apply List.Forall_nil.
Qed.

Lemma process_confirmed i record sc fc st res st' evs :
  records (this st) !! i = Some record ->
  process host i record sc fc st = (res, st') ->
  events (trace st') = events (trace st) ++ evs ->
  Forall (confirmed_success host (this st)) evs.
Proof.
  intros Hlook Hp Hev.
  destruct (process_successes _ _ _ _ _ _ _ Hp)
    as (outcome & obs & evs' & Hcli & Hev' & Hall).
  rewrite Hev in Hev'. apply app_inv_head in Hev'. subst evs'.
  eapply Forall_impl; [exact Hall |].
  cbn. intros e He. destruct e; try exact I.
  destruct (He eq_refl) as [Heq [r Hout]]. injection Heq as -> -> ->.
  destruct (success_resolved _ _ _ _ _ _ Hcli Hout) as (k & Hk & Hres).
  cbn. exists record, k, r. auto.
Qed.

Lemma loop_confirmed todo : forall i sc fc st res st' evs,
  (forall k record, todo !! k = Some record ->
                    records (this st) !! (i + k)%nat = Some record) ->
  loop host todo i sc fc st = (res, st') ->
  events (trace st') = events (trace st) ++ evs ->
  Forall (confirmed_success host (this st)) evs.
Proof.
  induction todo as [| record rest IH]; intros i sc fc st res st' evs Hidx H Hev.
  - cbn in H. unfold ret in H. injection H as <- <-.
    rewrite <- (app_nil_r (events (trace st))) in Hev at 1.
    apply app_inv_head in Hev. subst evs. constructor.
  - rewrite loop_cons in H.
    destruct (cancelled (this st)).
    + destruct (loop_stop host _ _ _ _ _ H) as (evs0 & Hev0 & _ & _ & Hs & _).
      rewrite Hev in Hev0. apply app_inv_head in Hev0. subst evs0.
      eapply Forall_impl; [apply count_zero_Forall, Hs |].
      cbn. intros e He. destruct e; try exact I. discriminate.
    + destruct (process host i record sc fc st) as [[counts | e] st1] eqn:Hp.
      * destruct (process_spec host _ _ _ _ _ _ _ Hp) as (evs1 & Hev1 & Hfr1 & _).
        destruct (loop_spec host _ _ _ _ _ _ _ H) as (evs2 & Hev2 & _).
        rewrite Hev2, Hev1, <- app_assoc in Hev.
        apply app_inv_head in Hev. subst evs.
        apply Forall_app. split.
        -- eapply process_confirmed; [| exact Hp | exact Hev1].
           rewrite <- (Nat.add_0_r i). apply Hidx. reflexivity.
        -- eapply Forall_impl;
             [eapply (IH _ _ _ _ _ _ evs2); [| exact H | exact Hev2] |].
           ++ intros k r Hk. destruct Hfr1 as [-> _].
              replace (S i + k)%nat with (i + S k)%nat by lia.
              apply Hidx. exact Hk.
           ++ cbn. intros e0 He0.
              eapply confirmed_success_frame; [apply frame_sym, Hfr1 | exact He0].
      * injection H as <- <-.
        eapply process_confirmed; [| exact Hp | exact Hev].
        rewrite <- (Nat.add_0_r i). apply Hidx. reflexivity.
Qed.

(** The events of any run: its successes are confirmed, its failures are
    final. *)
Lemma start_outcomes st res st' :
  start host st = (res, st') ->
  exists evs,
    events (trace st') = events (trace st) ++ evs /\
    Forall (confirmed_success host (this st)) evs /\
    Forall (final_failure host (this st)) evs.
Proof.
  intros H.
  destruct (start_events host _ _ _ H) as (evs & Hev & _ & Hff).
  exists evs. split; [exact Hev |]. split; [| exact Hff].
  destruct (start_cases host _ _ _ H)
    as [(e & _ & _ & _ & _ & Hev') | (st0 & Hthis & Hev0 & Hloop)].
  - rewrite Hev in Hev'. rewrite <- (app_nil_r (events (trace st))) in Hev' at 2.
    apply app_inv_head in Hev'. subst evs. constructor.
  - destruct (loop host (records (this st)) 0 0 0 st0) as [lres st1] eqn:Hl.
    destruct (loop_spec host _ _ _ _ _ _ _ Hl) as (body & Hevl & _).
    assert (Hcs : Forall (confirmed_success host (this st)) body).
    { rewrite <- Hthis. eapply loop_confirmed; [| exact Hl | exact Hevl].
      intros k r Hk. rewrite Hthis. exact Hk. }
    assert (Hbase : events (trace st1)
                    = events (trace st) ++ EvStart (length (records (this st))) :: body)
      by (rewrite Hevl, Hev0, <- app_assoc; reflexivity).
    assert (Hcs0 : Forall (confirmed_success host (this st))
                          (EvStart (length (records (this st))) :: body))
      by (constructor; [exact I | exact Hcs]).
    destruct lres as [counts | e].
    + destruct Hloop as [(e & _ & _ & _ & _ & Hev') | (_ & _ & s & Hs & _)].
      * rewrite Hev', Hbase in Hev. apply app_inv_head in Hev. subst evs. exact Hcs0.
      * rewrite Hs, Hbase, <- app_assoc in Hev. apply app_inv_head in Hev. subst evs.
        apply Forall_app. split; [exact Hcs0 | repeat constructor].
    + destruct Hloop as [_ ->].
      rewrite Hbase in Hev. apply app_inv_head in Hev. subst evs. exact Hcs0.
Qed.

(** *** The rate limiter during a run *)

(** What one item does to the rate limiter, and the delays it reports. *)
Lemma process_limiter i record sc fc st res st' :
  process host i record sc fc st = (res, st') ->
  let r := rateLimiter (this st) in
  exists evs,
    events (trace st') = events (trace st) ++ evs /\
    (rateLimiter (this st') = r \/
     rateLimiter (this st') = RateLimiter.onSuccess r \/
     rateLimiter (this st') = fst (RateLimiter.onRateLimit r)) /\
    Forall (fun e => forall oldDelay newDelay,
                e = EvRateLimit oldDelay newDelay ->
                oldDelay = RateLimiter.currentDelay r /\
                newDelay = RateLimiter.currentDelay (fst (RateLimiter.onRateLimit r)))
           evs.
Proof.
  intros H r. subst r. unfold_run H.
  destruct (deleteWithRetry_total (this st) (remote host i)
              (record !! columnName (this st)) 1 (env st))
    as (outcome & env' & obs & Hrun).
  pose proof (deleteWithRetry_no_events _ _ _ _ _ _ _ _ Hrun) as Hsilent.
  proj. rewrite Hrun in H.
  repeat (branch H; proj).
  all: injection H as <- <-; proj.
  all: eexists; split; [events_norm; rewrite ?Hsilent; cbn [app]; reflexivity |].
  all: cbn [events omap list_omap app].
  all: split; [first [left; reflexivity | right; left; reflexivity
                     | right; right; reflexivity] |].
  all: repeat (apply List.Forall_cons;
               [intros oldDelay newDelay Heq;
                first [discriminate Heq
                      | injection Heq as <- <-; split; reflexivity] |]).
  all: apply List.Forall_nil.
Qed.

Section Tuned.

Variable config : RateConfig.
Hypothesis base_nonneg : (0 <= baseDelayMs config)%Q.
Hypothesis base_le_max : (baseDelayMs config <= maxDelayMs config)%Q.
Hypothesis multiplier_ge_1 : (1 <= rate_backoffMultiplier config)%Q.

Lemma tuned_reports r :
  RateLimiter.tuned config r ->
  (baseDelayMs config <= RateLimiter.currentDelay r)%Q /\
  (RateLimiter.currentDelay r
   <= RateLimiter.currentDelay (fst (RateLimiter.onRateLimit r)))%Q /\
  (RateLimiter.currentDelay (fst (RateLimiter.onRateLimit r)) <= maxDelayMs config)%Q.
Proof.
  intros Ht.
  pose proof (tuned_onRateLimit config base_nonneg multiplier_ge_1 r Ht)
    as (_ & Hm' & _ & _ & Hhi').
  pose proof (current_nonneg config base_nonneg r Ht) as Hpos.
  destruct Ht as (Hb & Hm & Hk & Hlo & Hhi).
  split; [rewrite <- Hb; exact Hlo |].
  split; [| rewrite <- Hm'; exact Hhi'].
  cbn [RateLimiter.onRateLimit fst RateLimiter.currentDelay].
  apply Q.min_glb; [exact Hhi | apply grow_ge; [exact Hpos | rewrite Hk; assumption]].
Qed.

Lemma process_tuned i record sc fc st res st' evs :
  RateLimiter.tuned config (rateLimiter (this st)) ->
  process host i record sc fc st = (res, st') ->
  events (trace st') = events (trace st) ++ evs ->
  RateLimiter.tuned config (rateLimiter (this st')) /\
  Forall (bounded_rateLimit config) evs.
Proof.
  intros Ht Hp Hev.
  destruct (process_limiter _ _ _ _ _ _ _ Hp) as (evs' & Hev' & Hlim & Hall).
  rewrite Hev in Hev'. apply app_inv_head in Hev'. subst evs'.
  split.
  - destruct Hlim as [-> | [-> | ->]];
      [exact Ht
      | apply (tuned_onSuccess config base_nonneg multiplier_ge_1), Ht
      | apply (tuned_onRateLimit config base_nonneg multiplier_ge_1), Ht].
  - eapply Forall_impl; [exact Hall |].
    cbn. intros e He. destruct e; try exact I.
    destruct (He _ _ eq_refl) as [-> ->]. cbn. apply tuned_reports, Ht.
Qed.

Lemma loop_tuned todo : forall i sc fc st res st' evs,
  RateLimiter.tuned config (rateLimiter (this st)) ->
  loop host todo i sc fc st = (res, st') ->
  events (trace st') = events (trace st) ++ evs ->
  RateLimiter.tuned config (rateLimiter (this st')) /\
  Forall (bounded_rateLimit config) evs.
Proof.
  induction todo as [| record rest IH]; intros i sc fc st res st' evs Ht H Hev.
  - cbn in H. unfold ret in H. injection H as <- <-.
    rewrite <- (app_nil_r (events (trace st))) in Hev at 1.
    apply app_inv_head in Hev. subst evs. split; [exact Ht | constructor].
  - rewrite loop_cons in H.
    destruct (cancelled (this st)).
    + assert (Hsame : rateLimiter (this st') = rateLimiter (this st) /\
                      count is_rateLimit evs = O).
      { unfold_run H. proj. repeat (branch H; proj).
        all: injection H as <- <-; proj.
        all: split; [reflexivity |].
        all: revert Hev; proj; events_norm; rewrite ?app_nil_r; intros Hev.
        all: first [apply app_inv_head in Hev
                   | rewrite <- (app_nil_r (events (trace st))) in Hev at 1;
                     apply app_inv_head in Hev].
        all: subst evs; reflexivity. }
      destruct Hsame as [-> Hnone]. split; [exact Ht |].
      eapply Forall_impl; [apply count_zero_Forall, Hnone |].
      cbn. intros e He. destruct e; try exact I. discriminate.
    + destruct (process host i record sc fc st) as [[counts | e] st1] eqn:Hp.
      * destruct (process_spec host _ _ _ _ _ _ _ Hp) as (evs1 & Hev1 & _).
        destruct (loop_spec host _ _ _ _ _ _ _ H) as (evs2 & Hev2 & _).
        rewrite Hev2, Hev1, <- app_assoc in Hev.
        apply app_inv_head in Hev. subst evs.
        destruct (process_tuned _ _ _ _ _ _ _ _ Ht Hp Hev1) as [Ht1 Hb1].
        destruct (IH _ _ _ _ _ _ _ Ht1 H Hev2) as [Ht2 Hb2].
        split; [exact Ht2 | apply Forall_app; split; assumption].
      * injection H as <- <-. eapply process_tuned; eassumption.
Qed.

Lemma start_tuned st res st' :
  RateLimiter.tuned config (rateLimiter (this st)) ->
  start host st = (res, st') ->
  exists evs,
    events (trace st') = events (trace st) ++ evs /\
    RateLimiter.tuned config (rateLimiter (this st')) /\
    Forall (bounded_rateLimit config) evs.
Proof.
  intros Ht H.
  destruct (start_cases host _ _ _ H)
    as [(e & _ & _ & _ & Hthis & Hev) | (st0 & Hthis & Hev0 & Hloop)].
  - exists []. rewrite app_nil_r, Hthis.
    split; [exact Hev |]. split; [exact Ht | constructor].
  - destruct (loop host (records (this st)) 0 0 0 st0) as [lres st1] eqn:Hl.
    destruct (loop_spec host _ _ _ _ _ _ _ Hl) as (body & Hevl & _).
    rewrite <- Hthis in Ht.
    destruct (loop_tuned _ _ _ _ _ _ _ _ Ht Hl Hevl) as [Ht1 Hb].
    assert (Hbase : events (trace st1)
                    = events (trace st) ++ EvStart (length (records (this st))) :: body)
      by (rewrite Hevl, Hev0, <- app_assoc; reflexivity).
    assert (Hb0 : Forall (bounded_rateLimit config)
                         (EvStart (length (records (this st))) :: body))
      by (constructor; [exact I | exact Hb]).
    destruct lres as [counts | e].
    + destruct Hloop as [(e & _ & _ & _ & Hthis' & Hev') | (_ & Hthis' & s & Hs & _)].
      * eexists. split; [rewrite Hev'; exact Hbase |]. rewrite Hthis'. auto.
      * exists ((EvStart (length (records (this st))) :: body) ++ [EvComplete s]).
        split; [rewrite Hs, Hbase, <- app_assoc; reflexivity |].
        rewrite Hthis'. split; [exact Ht1 |].
        apply Forall_app. split; [exact Hb0 | repeat constructor].
    + destruct Hloop as [_ ->]. eexists. split; [exact Hbase |]. auto.
Qed.

End Tuned.

(** *** The [cancelled] events of a run *)

Ltac rewrite_conds :=
  repeat match goal with
         | H : ?x = true |- context [?x] => rewrite H
         | H : ?x = false |- context [?x] => rewrite H
         end.

(** The [cancelled] events of one item: one for each request served during
    its deletion or during the wait that follows it. *)
Lemma process_cancelled i record sc fc st c st' evs :
  process host i record sc fc st = (Ok c, st') ->
  events (trace st') = events (trace st) ++ evs ->
  count is_cancelled evs
  = (Nat.b2n (cancel_at host (InDelete i))
     + Nat.b2n ((Z.of_nat i <? Z.of_nat (length (records (this st))) - 1)%Z
                && cancel_at host (InWait i)))%nat.
Proof.
  intros H Hev. unfold_run H.
  destruct (deleteWithRetry_total (this st) (remote host i)
              (record !! columnName (this st)) 1 (env st))
    as (outcome & env' & obs & Hrun).
  pose proof (deleteWithRetry_no_events _ _ _ _ _ _ _ _ Hrun) as Hsilent.
  proj. rewrite Hrun in H.
  repeat (branch H; proj).
  all: try discriminate H.
  all: injection H as <- <-; proj.
  all: revert Hev; events_norm; rewrite ?Hsilent; cbn [app]; intros Hev.
  all: apply app_inv_head in Hev; subst evs.
  all: rewrite_conds; reflexivity.
Qed.

(** The [cancelled] event of the loop, when it stops on the flag. *)
Lemma stop_cancelled (sc fc : nat) st c st' evs :
  (log host "Batch processing cancelled by user" >>
   emit EvCancelled >> ret (sc, fc)) st = (Ok c, st') ->
  events (trace st') = events (trace st) ++ evs ->
  evs = [EvCancelled].
Proof.
  intros H Hev. unfold_run H. proj.
  repeat (branch H; proj).
  all: try discriminate H.
  all: injection H as <- <-; proj.
  all: revert Hev; events_norm; intros Hev.
  all: apply app_inv_head in Hev; subst evs; reflexivity.
Qed.

Lemma loop_cancelled_count todo : forall i sc fc st m res st' evs,
  no_write_errors host ->
  cancelled (this st) = false ->
  (m < length todo)%nat ->
  (i + length todo = length (records (this st)))%nat ->
  (forall j, (i <= j < i + m)%nat ->
             cancelled_during host (length (records (this st))) j = false) ->
  cancelled_during host (length (records (this st))) (i + m) = true ->
  loop host todo i sc fc st = (res, st') ->
  events (trace st') = events (trace st) ++ evs ->
  count is_cancelled evs
  = (Nat.b2n (cancel_at host (InDelete (i + m)))
     + if (S (i + m) <? length (records (this st)))%nat
       then Nat.b2n (cancel_at host (InWait (i + m))) + 1
       else 0)%nat.
Proof.
  induction todo as [| record rest IH];
    intros i sc fc st m res st' evs Hno Hflag Hm Hlen Hbefore Hat H Hev;
    [cbn in Hm; lia |].
  rewrite loop_cons, Hflag in H.
  destruct (process host i record sc fc st) as [res1 st1] eqn:Hp.
  destruct (process_spec host _ _ _ _ _ _ _ Hp)
    as (evs1 & Hev1 & Hfr1 & _ & _ & _ & Hok1 & Hno1 & _).
  destruct (Hno1 Hno) as [[sc1 fc1] ->].
  destruct (Hok1 sc1 fc1 eq_refl) as (_ & _ & _ & _ & Hflag1).
  rewrite Hflag in Hflag1. cbn [orb fst snd] in *.
  assert (Hrec : records (this st1) = records (this st)) by apply Hfr1.
  pose proof (process_cancelled _ _ _ _ _ _ _ _ Hp Hev1) as Hcount1.
  destruct (loop_spec host _ _ _ _ _ _ _ H) as (evs2 & Hev2 & _).
  rewrite Hev2, Hev1, <- app_assoc in Hev. apply app_inv_head in Hev. subst evs.
  rewrite count_app, Hcount1.
  cbn [length] in Hlen.
  destruct m as [| m].
  - rewrite Nat.add_0_r in *. rewrite Hat in Hflag1.
    destruct rest as [| record' rest].
    + cbn in H. unfold ret in H. injection H as <- <-.
      rewrite <- (app_nil_r (events (trace st1))) in Hev2 at 1.
      apply app_inv_head in Hev2. subst evs2.
      cbn [length] in Hlen.
      replace (Z.of_nat i <? Z.of_nat (length (records (this st))) - 1) with false
        by (symmetry; apply Z.ltb_ge; lia).
      replace (S i <? length (records (this st)))%nat with false
        by (symmetry; apply Nat.ltb_ge; lia).
      cbn. lia.
    + rewrite loop_cons, Hflag1 in H.
      destruct ((log host "Batch processing cancelled by user" >>
                 emit EvCancelled >> ret (sc1, fc1)) st1) as [res2 st2] eqn:Hstop.
      destruct (loop_stop host _ _ _ _ _ Hstop)
        as (_ & _ & _ & _ & _ & _ & _ & _ & _ & _ & Hno2 & _).
      rewrite (Hno2 Hno) in Hstop. injection H as <- <-.
      rewrite (stop_cancelled _ _ _ _ _ _ Hstop Hev2).
      cbn [length] in Hlen.
      replace (Z.of_nat i <? Z.of_nat (length (records (this st))) - 1) with true
        by (symmetry; apply Z.ltb_lt; lia).
      replace (S i <? length (records (this st)))%nat with true
        by (symmetry; apply Nat.ltb_lt; lia).
      cbn. lia.
  - pose proof (Hbefore i ltac:(lia)) as Hnot.
    rewrite Hnot in Hflag1.
    unfold cancelled_during in Hnot. apply orb_false_iff in Hnot as [Hd Hw].
    rewrite Hd, Hw. cbn [Nat.b2n Nat.add].
    replace (i + S m)%nat with (S i + m)%nat by lia.
    rewrite <- Hrec.
    eapply (IH (S i) sc1 fc1 st1 m); try eassumption.
    + cbn in Hm. lia.
    + rewrite Hrec. lia.
    + intros j Hj. rewrite Hrec. apply Hbefore. lia.
    + rewrite Hrec. replace (S i + m)%nat with (i + S m)%nat by lia. exact Hat.
Qed.

End RunEffects.

(** X9: whatever the remote calls answer, whenever [cancel()] is called and
    whether or not a write fails, a run of [start] keeps the paths of its
    logger, writes no file other than its log file and its failed-records
    file, only appends to the log file (when the two paths differ), and
    changes no variable of the environment other than
    [BLUESHIFT_USER_API_KEY] and [BLUESHIFT_REGION]. *)
Theorem run_stays_within_footprint {math : MathLibrary} (host : Host) (st : BatchProcessor.State) :
  footprint st (snd (BatchProcessor.start host st)).
Proof. eapply within_start. apply surjective_pairing. Qed.

(** X10: deletions are requested in the order of the input, without gaps:
    in any run, however it ends, the identifiers of the first attempts made
    are those of the first [k] records, in order, where [k] is the number
    of [progress] events of the run. *)
Theorem requests_follow_input_order {math : MathLibrary} (host : Host) (st : BatchProcessor.State) :
  let p := BatchProcessor.this st in
  let st' := snd (BatchProcessor.start host st) in
  exists evs,
    events (BatchProcessor.trace st') = events (BatchProcessor.trace st) ++ evs /\
    (count is_progress evs <= length (BatchProcessor.records p))%nat /\
    requested (BatchProcessor.trace st')
    = requested (BatchProcessor.trace st)
      ++ map (fun record => record !! BatchProcessor.columnName p)
             (take (count is_progress evs) (BatchProcessor.records p)).
Proof.
  intros p st'.
  destruct (BatchProcessor.start host st) as [res st''] eqn:Hrun.
  subst st'. cbn [snd].
  destruct (start_anatomy host _ _ _ Hrun)
    as [(e & _ & Hreq & Hev) | (st0 & Hthis & Hev0 & Hreq0 & Hloop)].
  - exists []. rewrite app_nil_r, Hreq, Hev. cbn. rewrite take_0, app_nil_r.
    repeat split; lia.
  - destruct (BatchProcessor.loop host _ 0 0 0 st0) as [lres st1] eqn:Hl.
    destruct (loop_effects host _ _ _ _ _ _ _ Hl) as (evs & Hevl & Hle & Hreql & _).
    rewrite Hthis, Hreq0 in Hreql. fold p in Hreql, Hle.
    assert (Hbase : events (BatchProcessor.trace st1)
                    = events (BatchProcessor.trace st)
                      ++ EvStart (length (BatchProcessor.records p)) :: evs)
      by (rewrite Hevl, Hev0, <- app_assoc; reflexivity).
    destruct lres as [counts | e].
    + destruct Hloop as [(e & _ & Hreq & Hev) | (_ & _ & s & Hev & Hreq & _)].
      * exists (EvStart (length (BatchProcessor.records p)) :: evs).
        rewrite Hev, Hreq. cbn [count is_progress Nat.add]. auto.
      * exists ((EvStart (length (BatchProcessor.records p)) :: evs) ++ [EvComplete s]).
        rewrite Hev, Hreq, Hbase, <- app_assoc, count_app.
        cbn [count is_progress Nat.add]. rewrite Nat.add_0_r. auto.
    + destruct Hloop as [_ ->].
      exists (EvStart (length (BatchProcessor.records p)) :: evs).
      cbn [count is_progress Nat.add]. auto.
Qed.

(** X11: a run that is never cancelled and whose writes succeed processes
    every record: it returns, emits one [progress] event per record and no
    [cancelled] event, requests the deletion of every record in order, and
    its summary has [successCount + failureCount = totalProcessed], the
    number of records. *)
Theorem uncancelled_run_processes_every_record {math : MathLibrary}
        (host : Host) (st : BatchProcessor.State) :
  no_write_errors host ->
  never_cancelled host ->
  BatchProcessor.cancelled (BatchProcessor.this st) = false ->
  exists st' body s,
    BatchProcessor.start host st = (BatchProcessor.Ok tt, st') /\
    events (BatchProcessor.trace st')
    = events (BatchProcessor.trace st)
      ++ EvStart (length (BatchProcessor.records (BatchProcessor.this st)))
         :: body ++ [EvComplete s] /\
    count is_progress body = length (BatchProcessor.records (BatchProcessor.this st)) /\
    count is_cancelled body = O /\
    requested (BatchProcessor.trace st')
    = requested (BatchProcessor.trace st)
      ++ map (fun record =>
                record !! BatchProcessor.columnName (BatchProcessor.this st))
             (BatchProcessor.records (BatchProcessor.this st)) /\
    (successCount s + failureCount s = totalProcessed s)%nat /\
    totalProcessed s = length (BatchProcessor.records (BatchProcessor.this st)).
Proof.
  intros Hno Hnever Hflag.
  destruct (start_total host st Hno) as [st' Hrun].
  destruct (start_anatomy host _ _ _ Hrun)
    as [(e & He & _) | (st0 & Hthis & Hev0 & Hreq0 & Hloop)]; [discriminate |].
  destruct (BatchProcessor.loop host _ 0 0 0 st0) as [[counts | e] st1] eqn:Hl;
    [| destruct Hloop as [He _]; discriminate].
  destruct Hloop as [(e & He & _) | (_ & _ & s & Hev & Hreq & Hsc & Hfc & Htot & _)];
    [discriminate |].
  destruct (loop_effects host _ _ _ _ _ _ _ Hl) as (body & Hevl & _ & Hreql & _ & Hcan).
  destruct (loop_spec host _ _ _ _ _ _ _ Hl) as (body' & Hevl' & _ & _ & _ & _ & Hok & _).
  rewrite Hevl in Hevl'. apply app_inv_head in Hevl'. subst body'.
  destruct counts as [sc fc]. destruct (Hok sc fc eq_refl) as (Hs & Hf & Hsum & _).
  rewrite Hthis in Hcan, Hreql. destruct (Hcan Hnever Hflag) as [Hnone Hall].
  specialize (Hall _ eq_refl).
  exists st', body, s. cbn [fst snd] in *.
  split; [exact Hrun |].
  split; [rewrite Hev, Hevl, Hev0, <- !app_assoc; reflexivity |].
  split; [exact Hall |]. split; [exact Hnone |].
  split; [rewrite Hreq, Hreql, Hreq0, Hall, firstn_all; reflexivity |].
  split; [lia | exact Htot].
Qed.

Lemma uncancelled_run_processes_every_record_witness :
  exists st' body s,
    BatchProcessor.start (math := nearest_pow) Sample.calm (Sample.state_of Sample.processor)
    = (BatchProcessor.Ok tt, st') /\
    events (BatchProcessor.trace st') = EvStart 3 :: body ++ [EvComplete s] /\
    count is_progress body = 3%nat /\
    count is_cancelled body = O /\
    requested (BatchProcessor.trace st')
    = [Some "a@x.io"; Some "b@x.io"; Some "c@x.io"] /\
    (successCount s + failureCount s = totalProcessed s)%nat /\
    totalProcessed s = 3%nat.
Proof.
  apply (uncancelled_run_processes_every_record (math := nearest_pow) Sample.calm
           (Sample.state_of Sample.processor)).
  - intros k. reflexivity.
  - intros a. reflexivity.
  - reflexivity.
Defined.

(** X12: the failed-records file lists the failures of the run.  In a run
    that returns, the logger holds the failures it held before followed by
    one entry per [failure] event, in order and with the identifier, error
    and status of the event; the summary has [hasFailedRecords] exactly
    when that list is not empty; then it names the failed-records file of
    the logger, which holds the header and one row per entry (when its path
    is not that of the log), and otherwise it names no file.  For a
    processor that starts with no recorded failure, [failureCount] is the
    number of entries. *)
Theorem failed_records_file_lists_failures {math : MathLibrary}
        (host : Host) (st st' : BatchProcessor.State) :
  let p := BatchProcessor.this st in
  let l := BatchProcessor.logger p in
  BatchProcessor.start host st = (BatchProcessor.Ok tt, st') ->
  Logger.logFile l <> Logger.failedRecordsFile l ->
  exists body s,
    events (BatchProcessor.trace st')
    = events (BatchProcessor.trace st)
      ++ EvStart (length (BatchProcessor.records p)) :: body ++ [EvComplete s] /\
    failureCount s = length (failures body) /\
    let entries := Logger.failedRecords l ++ failures body in
    Logger.failedRecords (BatchProcessor.logger (BatchProcessor.this st')) = entries /\
    match entries with
    | [] => hasFailedRecords s = false /\ failedRecordsFile s = None
    | _ :: _ =>
        hasFailedRecords s = true /\
        failedRecordsFile s = Some (Logger.failedRecordsFile l) /\
        BatchProcessor.files st' !! Logger.failedRecordsFile l
        = Some (Logger.csvHeader (BatchProcessor.columnName p)
                ++ join_lines (map Logger.csvRow entries))%string
    end.
Proof.
  intros p l Hrun Hne.
  destruct (start_anatomy host _ _ _ Hrun)
    as [(e & He & _) | (st0 & Hthis & Hev0 & Hreq0 & Hloop)]; [discriminate |].
  destruct (BatchProcessor.loop host _ 0 0 0 st0) as [[counts | e] st1] eqn:Hl;
    [| destruct Hloop as [He _]; discriminate].
  destruct Hloop
    as [(e & He & _)
       | (_ & Hlast & s & Hev & Hreq & Hsc & Hfc & Htot & Hlog & Hhas & Hfile)];
    [discriminate |].
  destruct (loop_effects host _ _ _ _ _ _ _ Hl) as (body & Hevl & _ & _ & Hrecs & _).
  destruct (loop_spec host _ _ _ _ _ _ _ Hl) as (body' & Hevl' & _ & _ & _ & _ & Hok & _).
  rewrite Hevl in Hevl'. apply app_inv_head in Hevl'. subst body'.
  destruct counts as [sc fc]. destruct (Hok sc fc eq_refl) as (_ & Hf & _ & _).
  destruct (within_loop host _ _ _ _ _ _ _ Hl) as (Hlf & Hff & _).
  rewrite Hthis in Hrecs, Hlf, Hff. fold p l in Hrecs, Hlf, Hff.
  exists body, s. cbn [fst snd] in *.
  split; [rewrite Hev, Hevl, Hev0, <- !app_assoc; reflexivity |].
  split; [rewrite length_failures; lia |].
  cbn zeta. split; [rewrite Hlast; exact Hrecs |].
  rewrite <- Hrecs. rewrite Hhas. unfold Logger.hasFailedRecords.
  destruct (Logger.failedRecords (BatchProcessor.logger (BatchProcessor.this st1)))
    as [| r rs] eqn:Hentries.
  - split; [reflexivity | exact Hfile].
  - destruct Hfile as [Hsome Hwritten].
    rewrite Hlf, Hff in *.
    split; [reflexivity |]. split; [exact Hsome |].
    rewrite (Hwritten Hne). unfold Logger.csvRows. rewrite Hentries. reflexivity.
Qed.

Lemma failed_records_file_lists_failures_witness :
  let st := Sample.state_of Sample.processor in
  let st' := snd (BatchProcessor.start (math := nearest_pow) Sample.throttling st) in
  exists body s,
    events (BatchProcessor.trace st') = EvStart 3 :: body ++ [EvComplete s] /\
    failureCount s = length (failures body) /\
    let entries := failures body in
    Logger.failedRecords (BatchProcessor.logger (BatchProcessor.this st')) = entries /\
    match entries with
    | [] => hasFailedRecords s = false /\ failedRecordsFile s = None
    | _ :: _ =>
        hasFailedRecords s = true /\
        failedRecordsFile s = Some "./logs/failed-records-2024-01-01T12-00-00.csv" /\
        BatchProcessor.files st' !! "./logs/failed-records-2024-01-01T12-00-00.csv"
        = Some (Logger.csvHeader "email" ++ join_lines (map Logger.csvRow entries))%string
    end.
Proof.
  apply (failed_records_file_lists_failures (math := nearest_pow) Sample.throttling
           (Sample.state_of Sample.processor)).
  - vm_compute. reflexivity.
  - vm_compute. discriminate.
Defined.

(** The failed-records file of the sample run in which the second item is
    throttled at every attempt. *)
Example throttling_sample_file :
  BatchProcessor.files
    (snd (BatchProcessor.start (math := nearest_pow) Sample.throttling (Sample.state_of Sample.processor)))
  !! "./logs/failed-records-2024-01-01T12-00-00.csv"
  = Some ("email,error,status" ++ newline
          ++ quote ++ "b@x.io" ++ quote ++ "," ++ quote ++ "API Error" ++ quote
          ++ ",429")%string.
Proof. vm_compute. reflexivity. Qed.

(** ** The files of the logger *)

Lemma replace_colon_dot_app a b :
  replace_colon_dot (a ++ b) = (replace_colon_dot a ++ replace_colon_dot b)%string.
Proof.
  induction a as [| c a IH]; [reflexivity |].
  change (replace_colon_dot (String c (a ++ b))
          = String (if (Ascii.eqb c ":" || Ascii.eqb c ".")%bool then "-"%char else c)
                   (replace_colon_dot a ++ replace_colon_dot b)).
  cbn [replace_colon_dot]. rewrite IH. reflexivity.
Qed.

Lemma replace_colon_dot_length s :
  String.length (replace_colon_dot s) = String.length s.
Proof. induction s as [| c s IH]; [reflexivity |]. cbn. rewrite IH. reflexivity. Qed.

Lemma string_app_length a b :
  String.length (a ++ b) = (String.length a + String.length b)%nat.
Proof.
  induction a as [| c a IH]; [reflexivity |].
  change (S (String.length (a ++ b)) = S (String.length a + String.length b)).
  rewrite IH. reflexivity.
Qed.

Lemma substring_prefix a b :
  String.substring 0 (String.length a) (a ++ b) = a.
Proof.
  induction a as [| c a IH].
  - destruct b; reflexivity.
  - change (String c (String.substring 0 (String.length a) (a ++ b)) = String c a).
    rewrite IH. reflexivity.
Qed.

Lemma replace_colon_dot_clean s :
  occurs ":" (replace_colon_dot s) = false /\ occurs "." (replace_colon_dot s) = false.
Proof.
  induction s as [| c s [IH1 IH2]]; [split; reflexivity |].
  cbn [replace_colon_dot occurs]. rewrite IH1, IH2, !orb_false_r.
  destruct (Ascii.eqb c ":") eqn:E1; [split; reflexivity |].
  destruct (Ascii.eqb c ".") eqn:E2; [split; reflexivity |].
  cbn [orb]. rewrite E1, E2. split; reflexivity.
Qed.

Lemma occurs_substring c s : forall n m,
  occurs c s = false -> occurs c (String.substring n m s) = false.
Proof.
  induction s as [| c' s IH]; intros n m H.
  - destruct n, m; reflexivity.
  - cbn [occurs] in H. apply orb_false_iff in H as [Hc Hs].
    destruct n as [| n]; destruct m as [| m]; cbn [String.substring occurs];
      try reflexivity.
    + rewrite Hc. cbn [orb]. apply IH, Hs.
    + apply IH, Hs.
    + apply IH, Hs.
Qed.

(** X13: the two files of a logger.  Whatever the clock says, the timestamp
    in their names holds neither a colon nor a dot, and the log file and the
    failed-records file are different files, so that writing the one never
    replaces the other. *)
Theorem logger_files_are_distinct (toISOString : Z -> string) (now : Z) :
  let l := Logger.new toISOString now in
  Logger.logFile l <> Logger.failedRecordsFile l /\
  occurs ":" (Logger.timestamp l) = false /\
  occurs "." (Logger.timestamp l) = false.
Proof.
  intros l. subst l. unfold Logger.new.
  cbn [Logger.logFile Logger.failedRecordsFile Logger.timestamp].
  split.
  - generalize (slice_0_minus5 (replace_colon_dot (toISOString now))). intros ts.
    cbv [String.append]. intros H. discriminate H.
  - unfold slice_0_minus5.
    destruct (replace_colon_dot_clean (toISOString now)) as [H1 H2].
    split; apply occurs_substring; assumption.
Qed.

(** X14: the names of the files have the resolution of a second.  Two
    loggers made at instants whose ISO strings differ only in their last
    five characters (the milliseconds and the [Z]) are the same logger: the
    same log file and the same failed-records file. *)
Theorem loggers_of_one_second_share_files
        (toISOString : Z -> string) (a b : Z) (upToSeconds ta tb : string) :
  toISOString a = (upToSeconds ++ ta)%string ->
  toISOString b = (upToSeconds ++ tb)%string ->
  String.length ta = 5%nat ->
  String.length tb = 5%nat ->
  Logger.new toISOString a = Logger.new toISOString b.
Proof.
  intros Ha Hb Hta Htb.
  assert (Hts : forall t, String.length t = 5%nat ->
                  slice_0_minus5 (replace_colon_dot (upToSeconds ++ t))
                  = replace_colon_dot upToSeconds).
  { intros t Ht. unfold slice_0_minus5.
    rewrite replace_colon_dot_length, string_app_length, Ht, replace_colon_dot_app.
    replace (String.length upToSeconds + 5 - 5)%nat
      with (String.length (replace_colon_dot upToSeconds))
      by (rewrite replace_colon_dot_length; lia).
    apply substring_prefix. }
  unfold Logger.new. rewrite Ha, Hb, (Hts ta Hta), (Hts tb Htb). reflexivity.
Qed.

Lemma loggers_of_one_second_share_files_witness :
  Logger.new (fun ms => if ms =? 0 then "2024-01-01T12:00:00.000Z"
                        else "2024-01-01T12:00:00.999Z") 0
  = Logger.new (fun ms => if ms =? 0 then "2024-01-01T12:00:00.000Z"
                          else "2024-01-01T12:00:00.999Z") 999.
Proof.
  apply (loggers_of_one_second_share_files _ 0 999 "2024-01-01T12:00:00" ".000Z" ".999Z");
    reflexivity.
Defined.

(** ** The remote call *)

Section RemoteCall.

Import DeleteCustomer.

Variable runtime : Runtime.

(** X15: how [deleteCustomer] settles, as [deleteWithRetry] sees it.  A call
    sends at most one request.  When it sends none, it prints nothing and
    rejects with an error without status.  When the response is [ok], it
    resolves with the status and the data of the response, and otherwise it
    rejects with the status of the response.  When [fetch] rejects with an
    error that has no status of its own, the error gets status 503 for the
    code [ECONNREFUSED], 500 for any other code, and no status without a
    code, so that the retry policy reads 503 or 500, both retryable. *)
Theorem deleteCustomer_settles
        (CONFIG : Config) (options : Options) (fetch : Request -> FetchResult) :
  let r := deleteCustomer runtime CONFIG options fetch in
  match requests r with
  | [] =>
      console r = [] /\
      exists msg, settled r = Rejected {| message := msg; err_status := None |}
  | request :: more =>
      more = [] /\
      match fetch request with
      | FetchResponse ok status _ json =>
          let data := match json with Some d => d | None => "{}" end in
          if ok then settled r = Resolved {| res_status := status; res_data := data |}
          else exists msg,
                 settled r = Rejected {| message := msg; err_status := Some status |}
      | FetchError msg status code =>
          exists status',
            settled r = Rejected {| message := msg; err_status := status' |} /\
            match status with
            | Some s =>
                if s =? 0 then
                  status_or_500 {| message := msg; err_status := status' |}
                  = if String.eqb (template code) "ECONNREFUSED" then 503 else 500
                else status' = Some s
            | None =>
                status_or_500 {| message := msg; err_status := status' |}
                = if String.eqb (template code) "ECONNREFUSED" then 503 else 500
            end
      end
  end.
Proof.
  intros r. subst r. unfold deleteCustomer.
  destruct (truthy (userApiKey CONFIG)); cbn [negb requests console settled];
    [| split; [reflexivity | eauto]].
  destruct (existsb _ (identifiers options)); cbn [negb requests console settled];
    [| split; [reflexivity | eauto]].
  match goal with
  | |- context [fetch ?rq] => generalize rq; intros request
  end.
  destruct (fetch request) as [msg status code | ok status statusText json] eqn:Hfetch;
    cbn [requests settled].
  - split; [reflexivity |]. rewrite Hfetch. unfold rethrow. cbn [fst].
    eexists. split; [reflexivity |].
    destruct status as [s |]; [destruct (s =? 0) eqn:Hs |]; cbn [andb];
      try reflexivity.
    all: destruct code as [c |];
      [cbn [truthy template]; destruct (String.eqb c EmptyString) eqn:Hc;
       [apply String.eqb_eq in Hc; subst c |]; cbn [negb] |].
    all: unfold status_or_500; cbn; rewrite ?Hs; try reflexivity.
    all: destruct (String.eqb c "ECONNREFUSED"); reflexivity.
  - destruct ok; cbn [negb requests settled]; (split; [reflexivity |]);
      rewrite Hfetch; cbn zeta; [reflexivity |].
    unfold rethrow. cbn [fst andb truthy]. rewrite andb_false_r. eauto.
Qed.

Lemma deleteCustomer_silent CONFIG options fetch :
  silent options = true ->
  console (deleteCustomer runtime CONFIG options fetch) = [].
Proof.
  intros Hs. unfold deleteCustomer, rethrow. rewrite Hs.
  destruct (truthy (userApiKey CONFIG)); [| reflexivity].
  destruct (existsb _ (identifiers options)); [| reflexivity].
  cbn [negb].
  match goal with
  | |- context [fetch ?rq] => destruct (fetch rq) as [msg status code | [|] status text json]
  end; reflexivity.
Qed.

(** The request of a call that sends one. *)
Lemma deleteCustomer_request CONFIG options fetch request :
  In request (requests (deleteCustomer runtime CONFIG options fetch)) ->
  truthy (userApiKey CONFIG) = true /\
  existsb (fun id => truthy (snd id)) (identifiers options) = true /\
  request
  = {| url := getBaseUrl (region CONFIG) ++ "/api/v1/customers/delete"
              ++ (if deleteAll options then "?delete_all_matching_customers=true"
                  else EmptyString);
       method := "POST";
       headers := [("Authorization",
                    ("Basic " ++ base64 runtime (template (userApiKey CONFIG) ++ ":"))%string);
                   ("Content-Type", "application/json")];
       body := stringify runtime
                 (omap (fun id => if truthy (snd id)
                                  then Some (fst id, template (snd id)) else None)
                       (identifiers options)) |}.
Proof.
  unfold deleteCustomer.
  destruct (truthy (userApiKey CONFIG)); [| intros []].
  destruct (existsb _ (identifiers options)); [| intros []].
  cbn [negb].
  match goal with
  | |- context [fetch ?rq] => destruct (fetch rq) as [msg status code | [|] status text json]
  end; cbn [requests In]; intros [<- | []]; auto.
Qed.

Lemma of_call_has_identifier o :
  existsb (fun id => truthy (snd id)) (identifiers (of_call o))
  = existsb (String.eqb (opt_identifierType o)) identifier_names
    && truthy (opt_identifier o).
Proof.
  unfold identifiers, of_call, identifier_names.
  cbn [email customer_id cookie device_id existsb snd].
  destruct (String.eqb (opt_identifierType o) "email");
    destruct (String.eqb (opt_identifierType o) "customer_id");
    destruct (String.eqb (opt_identifierType o) "cookie");
    destruct (String.eqb (opt_identifierType o) "device_id");
    destruct (truthy (opt_identifier o)); reflexivity.
Qed.

Lemma of_call_body o :
  existsb (fun id => truthy (snd id)) (identifiers (of_call o)) = true ->
  omap (fun id : string * option string =>
          if truthy (snd id) then Some (fst id, template (snd id)) else None)
       (identifiers (of_call o))
  = [(opt_identifierType o, template (opt_identifier o))].
Proof.
  rewrite of_call_has_identifier.
  unfold identifiers, of_call, identifier_names.
  cbn [email customer_id cookie device_id existsb snd fst omap list_omap].
  generalize (opt_identifierType o). intros ty.
  destruct (String.eqb ty "email") eqn:E1, (String.eqb ty "customer_id") eqn:E2,
    (String.eqb ty "cookie") eqn:E3, (String.eqb ty "device_id") eqn:E4.
  all: repeat match goal with
              | H : String.eqb _ _ = true |- _ => apply String.eqb_eq in H
              end.
  all: try congruence.
  all: destruct (truthy (opt_identifier o)); cbn; intros H; try discriminate.
  all: subst ty; reflexivity.
Qed.

End RemoteCall.

(** X16: the requests of the engine use the configuration read when the
    module [delete-customer.js] was loaded.  A call made by
    [deleteWithRetry] prints nothing, and a request it sends is a POST to
    the delete endpoint of the region found in the environment at load time
    (the European host for [eu], the default host for anything else), with
    [delete_all_matching_customers=true] exactly when the engine has
    [deleteAll], authorized with the API key found in the environment at
    load time, and its body holds the one identifier of the record under
    the identifier type of the engine.  Neither the API key nor the region
    given to the engine occurs in it. *)
Theorem engine_requests_use_load_time_configuration
        (runtime : DeleteCustomer.Runtime) (env0 : gmap string string)
        (p : BatchProcessor.t) (identifier : option string)
        (fetch : DeleteCustomer.Request -> DeleteCustomer.FetchResult) :
  let r :=
    DeleteCustomer.deleteCustomer runtime (DeleteCustomer.load env0)
      (DeleteCustomer.of_call (BatchProcessor.deleteOptions p identifier)) fetch in
  DeleteCustomer.console r = [] /\
  forall request, In request (DeleteCustomer.requests r) ->
    exists key id,
      env0 !! KEY = Some key /\
      identifier = Some id /\
      In (BatchProcessor.identifierType p) ["email"; "customer_id"; "cookie"; "device_id"] /\
      DeleteCustomer.url request
      = (DeleteCustomer.getBaseUrl
           (match env0 !! REGION with
            | Some region => if String.eqb region EmptyString then "us" else region
            | None => "us"
            end)
         ++ "/api/v1/customers/delete"
         ++ (if BatchProcessor.deleteAll p then "?delete_all_matching_customers=true"
             else EmptyString))%string /\
      DeleteCustomer.method request = "POST" /\
      DeleteCustomer.headers request
      = [("Authorization",
          ("Basic " ++ DeleteCustomer.base64 runtime (key ++ ":"))%string);
         ("Content-Type", "application/json")] /\
      DeleteCustomer.body request
      = DeleteCustomer.stringify runtime [(BatchProcessor.identifierType p, id)].
Proof.
  intros r. subst r. split; [apply deleteCustomer_silent; reflexivity |].
  intros request Hin.
  apply deleteCustomer_request in Hin as (Hkey & Hid & ->).
  rewrite (of_call_body _ Hid). rewrite of_call_has_identifier in Hid.
  apply andb_true_iff in Hid as [Hty Hsome].
  cbn [DeleteCustomer.load DeleteCustomer.userApiKey DeleteCustomer.region] in *.
  cbn [BatchProcessor.deleteOptions opt_identifierType opt_identifier opt_deleteAll
       DeleteCustomer.of_call DeleteCustomer.deleteAll] in *.
  destruct (env0 !! KEY) as [key |] eqn:Hk; [| discriminate].
  destruct identifier as [id |]; [| discriminate].
  exists key, id.
  split; [reflexivity |]. split; [reflexivity |].
  split.
  { apply existsb_exists in Hty as (name & Hin & Heq).
    apply String.eqb_eq in Heq. rewrite Heq. exact Hin. }
  cbn [DeleteCustomer.url DeleteCustomer.method DeleteCustomer.headers
       DeleteCustomer.body template].
  repeat split.
  destruct (env0 !! REGION) as [region |]; [| reflexivity].
  cbn [truthy template]. destruct (String.eqb region EmptyString); reflexivity.
Qed.

(** A call that [deleteCustomer] refuses before it sends anything: the API
    key was missing when the module was loaded, the record has no identifier
    in its column, or the identifier type is not one that [deleteCustomer]
    reads. *)
Lemma refused_call runtime CONFIG p identifier fetch :
  truthy (DeleteCustomer.userApiKey CONFIG) = false \/
  truthy identifier = false \/
  ~ In (BatchProcessor.identifierType p) identifier_names ->
  let r :=
    DeleteCustomer.deleteCustomer runtime CONFIG
      (DeleteCustomer.of_call (BatchProcessor.deleteOptions p identifier)) fetch in
  DeleteCustomer.requests r = [] /\
  exists msg,
    DeleteCustomer.settled r = Rejected {| message := msg; err_status := None |} /\
    forall fetch',
      DeleteCustomer.settled
        (DeleteCustomer.deleteCustomer runtime CONFIG
           (DeleteCustomer.of_call (BatchProcessor.deleteOptions p identifier)) fetch')
      = Rejected {| message := msg; err_status := None |}.
Proof.
  intros Hwhy r. subst r. unfold DeleteCustomer.deleteCustomer.
  destruct (truthy (DeleteCustomer.userApiKey CONFIG)) eqn:Hkey; cbn [negb];
    [| split; [reflexivity | eexists; split; [reflexivity | intros; reflexivity]]].
  rewrite of_call_has_identifier.
  cbn [BatchProcessor.deleteOptions opt_identifierType opt_identifier].
  destruct Hwhy as [Hno | [Hno | Hno]]; [discriminate | rewrite Hno, andb_false_r |].
  - split; [reflexivity | eexists; split; [reflexivity | intros; reflexivity]].
  - destruct (existsb (String.eqb (BatchProcessor.identifierType p)) identifier_names)
      eqn:Hty.
    + exfalso. apply Hno. apply existsb_exists in Hty as (name & Hin & Heq).
      apply String.eqb_eq in Heq. rewrite Heq. exact Hin.
    + split; [reflexivity | eexists; split; [reflexivity | intros; reflexivity]].
Qed.

(** X17: a call that cannot succeed is retried all the same.  When the API
    key was missing at load time, or the record has no identifier in its
    column, or the identifier type of the engine is not one of the four
    that [deleteCustomer] reads, every attempt is refused without a request
    being sent; the error has no status, which the retry policy reads as
    500: [deleteWithRetry] makes [max(1, maxAttempts)] attempts, with the
    suspensions between them, and reports a Failure with status 500. *)
Theorem refused_call_is_retried {math : MathLibrary}
        (runtime : DeleteCustomer.Runtime) (CONFIG : DeleteCustomer.Config)
        (p : BatchProcessor.t) (identifier : option string)
        (fetch : Z -> DeleteCustomer.Request -> DeleteCustomer.FetchResult)
        (env : gmap string string) :
  let options := DeleteCustomer.of_call (BatchProcessor.deleteOptions p identifier) in
  let call attempt :=
    DeleteCustomer.settled
      (DeleteCustomer.deleteCustomer runtime CONFIG options (fetch attempt)) in
  let n := Z.max 1 (maxAttempts (BatchProcessor.retry p)) in
  truthy (DeleteCustomer.userApiKey CONFIG) = false \/
  truthy identifier = false \/
  ~ In (BatchProcessor.identifierType p) ["email"; "customer_id"; "cookie"; "device_id"] ->
  exists error env' obs,
    BatchProcessor.deleteWithRetry p call identifier 1 env
    = Some (Failure error 500 n, env', obs) /\
    call_attempts obs = seqZ 1 n /\
    suspensions obs = map (backoff (BatchProcessor.retry p)) (seqZ 1 (n - 1)) /\
    forall attempt,
      call attempt = Rejected {| message := error; err_status := None |} /\
      DeleteCustomer.requests
        (DeleteCustomer.deleteCustomer runtime CONFIG options (fetch attempt)) = [].
Proof.
  intros options call n Hwhy.
  destruct (refused_call runtime CONFIG p identifier (fetch 1) Hwhy)
    as (_ & error & _ & Hall).
  assert (Hcall : forall attempt,
             call attempt = Rejected {| message := error; err_status := None |})
    by (intros attempt; apply Hall).
  destruct (deleteWithRetry_total p call identifier 1 env)
    as (outcome & env' & obs & Hrun).
  pose proof (deleteWithRetry_forget p call identifier 1 env) as Hcli.
  rewrite Hrun in Hcli. cbn in Hcli. symmetry in Hcli.
  unfold Cli.deleteWithRetry in Hcli.
  destruct (Cli.attempts call (BatchProcessor.retry p)
              (BatchProcessor.deleteOptions p identifier) _ 1)
    as [[out obs'] |] eqn:Hatt; [| discriminate].
  injection Hcli as <- <-.
  destruct (attempts_characterized _ _ _ _ _ _ _ Hatt) as (k & Hshape & Hbefore & Hlast).
  destruct out as [r | err status last].
  { rewrite Hcall in Hlast. discriminate. }
  destruct Hlast as (-> & e & He & -> & -> & Hstop).
  rewrite Hcall in He. injection He as <-.
  change (status_or_500 {| message := error; err_status := None |}) with 500 in *.
  destruct Hstop as [Hstop | Hstop]; [discriminate |].
  assert (Hn : 1 + Z.of_nat k = n).
  { subst n. destruct k as [| k]; [lia |].
    destruct (Hbefore (Z.of_nat (S k))) as [Hlt _]; lia. }
  exists error, env', (Call (BatchProcessor.deleteOptions p identifier) 1 :: obs').
  rewrite Hn in Hrun. split; [exact Hrun |].
  rewrite Hshape, call_attempts_prescribed, suspensions_prescribed.
  split; [f_equal; lia |]. split; [f_equal; f_equal; lia |].
  intros attempt. split; [apply Hcall |].
  apply (refused_call runtime CONFIG p identifier (fetch attempt) Hwhy).
Qed.

Lemma refused_call_is_retried_witness :
  let runtime :=
    {| DeleteCustomer.base64 := fun s => s;
       DeleteCustomer.toUpperCase := fun s => s;
       DeleteCustomer.stringify := fun _ => "{}";
       DeleteCustomer.stringify_indented := fun _ => "{}";
       DeleteCustomer.indented := fun s => s |} in
  let options :=
    DeleteCustomer.of_call (BatchProcessor.deleteOptions Sample.processor (Some "a@x.io")) in
  let call attempt :=
    DeleteCustomer.settled
      (DeleteCustomer.deleteCustomer runtime (DeleteCustomer.load ∅) options
         (fun _ => DeleteCustomer.FetchResponse true 200 "OK" None)) in
  exists error env' obs,
    BatchProcessor.deleteWithRetry (math := nearest_pow) Sample.processor call (Some "a@x.io") 1 ∅
    = Some (Failure error 500 3, env', obs) /\
    call_attempts obs = [1; 2; 3] /\
    suspensions obs = map (backoff (math := nearest_pow) (BatchProcessor.retry Sample.processor)) [1; 2] /\
    forall attempt,
      call attempt = Rejected {| message := error; err_status := None |} /\
      DeleteCustomer.requests
        (DeleteCustomer.deleteCustomer runtime (DeleteCustomer.load ∅) options
           (fun _ => DeleteCustomer.FetchResponse true 200 "OK" None)) = [].
Proof.
  intros runtime options call.
  apply (refused_call_is_retried (math := nearest_pow) runtime (DeleteCustomer.load ∅) Sample.processor
           (Some "a@x.io")
           (fun _ _ => DeleteCustomer.FetchResponse true 200 "OK" None) ∅).
  left. reflexivity.
Defined.

(** ** What a run reports *)

(** X18: a run never reports a deletion that the remote side did not
    accept.  In any run, however it ends, every [success] event carries the
    identifier of the record at its position in the input, and one of the
    attempts that the retry policy allows for that record resolved. *)
Theorem reported_deletions_are_confirmed {math : MathLibrary} (host : Host) (st : BatchProcessor.State) :
  exists evs,
    events (BatchProcessor.trace (snd (BatchProcessor.start host st)))
    = events (BatchProcessor.trace st) ++ evs /\
    Forall (confirmed_success host (BatchProcessor.this st)) evs.
Proof.
  destruct (start_outcomes host st _ _ (surjective_pairing _)) as (evs & Hev & Hcs & _).
  eauto.
Qed.

Lemma missing_key_rejects runtime CONFIG options fetch :
  truthy (DeleteCustomer.userApiKey CONFIG) = false ->
  DeleteCustomer.settled (DeleteCustomer.deleteCustomer runtime CONFIG options fetch)
  = Rejected {| message :=
                  "Missing User API key. Please set BLUESHIFT_USER_API_KEY in .env file";
                err_status := None |}.
Proof. intros H. unfold DeleteCustomer.deleteCustomer. rewrite H. reflexivity. Qed.

Lemma count_zero_of_Forall f evs :
  Forall (fun e => f e = false) evs -> count f evs = O.
Proof.
  induction 1 as [| e evs He _ IH]; [reflexivity |].
  cbn [count]. rewrite He, IH. reflexivity.
Qed.

(** X19: a server started without [BLUESHIFT_USER_API_KEY] in its
    environment deletes nothing, whatever API key is given to the engine.
    When the variable was absent or empty as [delete-customer.js] was
    loaded, and the remote calls of the run are calls of [deleteCustomer],
    then in any run no [success] event is emitted, and every [failure]
    event has status 500 and the message of the missing key. *)
Theorem run_without_load_time_key_deletes_nothing {math : MathLibrary}
        (runtime : DeleteCustomer.Runtime) (env0 : gmap string string)
        (host : Host) (st : BatchProcessor.State) :
  truthy (env0 !! KEY) = false ->
  (forall i attempt, exists options fetch,
      remote host i attempt
      = DeleteCustomer.settled
          (DeleteCustomer.deleteCustomer runtime (DeleteCustomer.load env0)
             options fetch)) ->
  exists evs,
    events (BatchProcessor.trace (snd (BatchProcessor.start host st)))
    = events (BatchProcessor.trace st) ++ evs /\
    count is_success evs = O /\
    Forall (fun e =>
              forall identifier error status current total,
                e = EvFailure identifier error status current total ->
                status = 500 /\
                error
                = "Missing User API key. Please set BLUESHIFT_USER_API_KEY in .env file")
           evs.
Proof.
  intros Hkey Hremote.
  assert (Hrej : forall i attempt,
             remote host i attempt
             = Rejected {| message :=
                             "Missing User API key. Please set BLUESHIFT_USER_API_KEY in .env file";
                           err_status := None |}).
  { intros i attempt. destruct (Hremote i attempt) as (options & fetch & ->).
    apply missing_key_rejects. exact Hkey. }
  destruct (start_outcomes host st _ _ (surjective_pairing _)) as (evs & Hev & Hcs & Hff).
  exists evs. split; [exact Hev |]. split.
  - apply count_zero_of_Forall. eapply Forall_impl; [exact Hcs |].
    cbn. intros e He. destruct e; try reflexivity.
    destruct He as (record & k & r & _ & _ & _ & Hres).
    rewrite Hrej in Hres. discriminate.
  - eapply Forall_impl; [exact Hff |].
    cbn. intros e He identifier error status current total ->.
    destruct He as (record & attempt & obs & _ & _ & Hcli).
    unfold Cli.deleteWithRetry in Hcli.
    destruct (Cli.attempts _ _ _ _ 1) as [[out obs'] |] eqn:Hatt; [| discriminate].
    injection Hcli as -> <-.
    destruct (attempts_characterized _ _ _ _ _ _ _ Hatt) as (n & _ & _ & Hlast).
    destruct Hlast as (_ & e & He & -> & -> & _).
    rewrite Hrej in He. injection He as <-. split; reflexivity.
Qed.

Lemma run_without_load_time_key_deletes_nothing_witness :
  exists evs,
    events (BatchProcessor.trace
              (snd (BatchProcessor.start (math := nearest_pow) Keyless.host (Sample.state_of Sample.processor))))
    = evs /\
    count is_success evs = O /\
    Forall (fun e =>
              forall identifier error status current total,
                e = EvFailure identifier error status current total ->
                status = 500 /\
                error
                = "Missing User API key. Please set BLUESHIFT_USER_API_KEY in .env file")
           evs.
Proof.
  apply (run_without_load_time_key_deletes_nothing (math := nearest_pow) Keyless.runtime ∅ Keyless.host
           (Sample.state_of Sample.processor)).
  - reflexivity.
  - intros i attempt.
    exists (DeleteCustomer.of_call
              (BatchProcessor.deleteOptions Sample.processor
                 (match BatchProcessor.records Sample.processor !! i with
                  | Some record => record !! "email"
                  | None => None
                  end))), Keyless.fetch.
    reflexivity.
Defined.

(** The summary of the sample run on a server started without an API key:
    the engine holds the key [secret], and the three records fail. *)
Example keyless_sample_summary :
  map (fun s => (successCount s, failureCount s, hasFailedRecords s))
      (summaries (BatchProcessor.trace
                    (snd (BatchProcessor.start (math := nearest_pow) Keyless.host
                            (Sample.state_of Sample.processor)))))
  = [(0%nat, 3%nat, true)].
Proof. vm_compute. reflexivity. Qed.

(** ** Durations *)

(** X20: what [formatDuration] shows.  For a duration that is not negative
    it shows the whole hours [h], the minutes [m] and the seconds [s] of the
    duration, with [m] and [s] below 60 and [3600 h + 60 m + s] the whole
    seconds of the duration, and it leaves out the hours when there are
    none, and then the minutes when there are none.  For a negative
    duration (the clock was set back during the run) it shows the negative
    number of seconds, rounded down. *)
Theorem formatDuration_components (ms : Z) :
  let h := ms / 3600000 in
  let m := (ms / 60000) mod 60 in
  let s := (ms / 1000) mod 60 in
  (0 <= ms -> 0 <= h /\ 0 <= m < 60 /\ 0 <= s < 60 /\ 3600 * h + 60 * m + s = ms / 1000) /\
  formatDuration ms
  = if ms <? 0 then (Z_to_string (ms / 1000) ++ "s")%string
    else if 0 <? h then
      (Z_to_string h ++ "h " ++ Z_to_string m ++ "m " ++ Z_to_string s ++ "s")%string
    else if 0 <? m then (Z_to_string m ++ "m " ++ Z_to_string s ++ "s")%string
    else (Z_to_string s ++ "s")%string.
Proof.
  intros h m s.
  assert (Hmin : ms / 1000 / 60 = ms / 60000)
    by (rewrite Z.div_div by lia; reflexivity).
  assert (Hhour : ms / 1000 / 60 / 60 = ms / 3600000)
    by (rewrite !Z.div_div by lia; reflexivity).
  split.
  - intros Hms. subst h m s.
    pose proof (Z.mod_pos_bound (ms / 60000) 60 ltac:(lia)).
    pose proof (Z.mod_pos_bound (ms / 1000) 60 ltac:(lia)).
    pose proof (Z.div_pos ms 3600000 Hms ltac:(lia)).
    repeat split; try lia.
    rewrite <- Hhour, <- Hmin.
    pose proof (Z.div_mod (ms / 1000) 60 ltac:(lia)).
    pose proof (Z.div_mod (ms / 1000 / 60) 60 ltac:(lia)).
    lia.
  - unfold formatDuration. cbn zeta. rewrite Hhour, Hmin. fold h.
    destruct (ms <? 0) eqn:Hneg.
    + apply Z.ltb_lt in Hneg.
      assert (h < 0) by (apply Z.div_lt_upper_bound; lia).
      assert (ms / 60000 < 0) by (apply Z.div_lt_upper_bound; lia).
      replace (0 <? h) with false by (symmetry; apply Z.ltb_ge; lia).
      replace (0 <? ms / 60000) with false by (symmetry; apply Z.ltb_ge; lia).
      reflexivity.
    + apply Z.ltb_ge in Hneg.
      assert (0 <= ms / 1000) by (apply Z.div_pos; lia).
      assert (0 <= ms / 60000) by (apply Z.div_pos; lia).
      rewrite !Z.rem_mod_nonneg by lia. fold m s.
      destruct (0 <? h) eqn:Hh; [reflexivity |].
      apply Z.ltb_ge in Hh.
      assert (h = 0) by (pose proof (Z.div_pos ms 3600000 Hneg ltac:(lia)); lia).
      assert (Hm : m = ms / 60000).
      { subst m. apply Z.mod_small. split; [lia |].
        pose proof (Z.div_mod (ms / 60000) 60 ltac:(lia)) as Hdm.
        assert (ms / 60000 / 60 = 0) by (rewrite Z.div_div by lia; exact H1).
        pose proof (Z.mod_pos_bound (ms / 60000) 60 ltac:(lia)). lia. }
      rewrite <- Hm.
      destruct (0 <? m) eqn:Hpos; [reflexivity |].
      apply Z.ltb_ge in Hpos.
      assert (Hs : s = ms / 1000).
      { subst s. apply Z.mod_small. split; [lia |].
        pose proof (Z.div_mod (ms / 1000) 60 ltac:(lia)) as Hdm.
        pose proof (Z.mod_pos_bound (ms / 1000) 60 ltac:(lia)).
        rewrite Hmin in Hdm. lia. }
      rewrite <- Hs. reflexivity.
Qed.

(** ** The rate limiter in a run *)

(** X21: the delays of a run stay within the bounds of the configuration.
    For a configuration with a non-negative base delay and a backoff
    multiplier of at least one, and a processor whose rate limiter belongs
    to it and is within its bounds (as the constructor leaves it when
    [baseDelay <= maxDelay]), in any run, however it ends, every
    [rateLimit] event reports delays with
    [baseDelay <= oldDelay <= newDelay <= maxDelay], and the rate limiter
    is within the bounds when the run ends. *)
Theorem rate_limit_events_within_bounds {math : MathLibrary}
        (host : Host) (config : RateConfig) (st : BatchProcessor.State) :
  (0 <= baseDelayMs config)%Q ->
  (1 <= rate_backoffMultiplier config)%Q ->
  RateLimiter.tuned config (BatchProcessor.rateLimiter (BatchProcessor.this st)) ->
  let st' := snd (BatchProcessor.start host st) in
  exists evs,
    events (BatchProcessor.trace st') = events (BatchProcessor.trace st) ++ evs /\
    RateLimiter.tuned config (BatchProcessor.rateLimiter (BatchProcessor.this st')) /\
    Forall (bounded_rateLimit config) evs.
Proof.
  intros Hbase Hmul Ht st'.
  apply (start_tuned host config Hbase Hmul st _ _ Ht (surjective_pairing _)).
Qed.

Lemma rate_limit_events_within_bounds_witness :
  let config := {| baseDelayMs := 100; maxDelayMs := 5000;
                   rate_backoffMultiplier := 3 # 2 |} in
  let st' := snd (BatchProcessor.start (math := nearest_pow) Sample.throttling
                    (Sample.state_of Sample.processor)) in
  exists evs,
    events (BatchProcessor.trace st') = evs /\
    RateLimiter.tuned config (BatchProcessor.rateLimiter (BatchProcessor.this st')) /\
    Forall (bounded_rateLimit config) evs.
Proof.
  intros config st'.
  apply (rate_limit_events_within_bounds (math := nearest_pow) Sample.throttling config
           (Sample.state_of Sample.processor)).
  - discriminate.
  - discriminate.
  - repeat split; discriminate.
Defined.

(** ** The [cancelled] events *)

(** X22: how often a cancellation is announced.  When the first requests to
    cancel arrive while the record at index [i] is processed and the writes
    succeed, the run returns, and it emits one [cancelled] event for each
    [cancel()] served during that record (during its deletion, and during
    the wait that follows it when it is not the last record), and one more
    when the loop stops before the end of the input, that is, unless the
    record was the last one.  A single [cancel()] during a record that is
    not the last is thus announced twice. *)
Theorem cancellation_is_announced_again {math : MathLibrary}
        (host : Host) (st : BatchProcessor.State) (i : nat) :
  let n := length (BatchProcessor.records (BatchProcessor.this st)) in
  no_write_errors host ->
  BatchProcessor.cancelled (BatchProcessor.this st) = false ->
  (i < n)%nat ->
  (forall j, (j < i)%nat -> cancelled_during host n j = false) ->
  cancelled_during host n i = true ->
  exists st' body s,
    BatchProcessor.start host st = (BatchProcessor.Ok tt, st') /\
    events (BatchProcessor.trace st')
    = events (BatchProcessor.trace st) ++ EvStart n :: body ++ [EvComplete s] /\
    count is_cancelled body
    = (Nat.b2n (cancel_at host (InDelete i))
       + if (S i <? n)%nat then Nat.b2n (cancel_at host (InWait i)) + 1 else 0)%nat.
Proof.
  intros n Hno Hflag Hi Hbefore Hat.
  destruct (start_total host st Hno) as [st' Hrun].
  destruct (start_returns host _ _ Hrun)
    as (st0 & counts & st1 & s & Hthis & Hev0 & Hloop & _ & Hev & _).
  destruct (loop_spec host _ _ _ _ _ _ _ Hloop) as (body & Hevl & _).
  exists st', body, s.
  split; [exact Hrun |].
  split; [rewrite Hev, Hevl, Hev0, <- !app_assoc; reflexivity |].
  pose proof (loop_cancelled_count host
                (BatchProcessor.records (BatchProcessor.this st)) 0 0 0 st0 i
                (BatchProcessor.Ok counts) st1 body Hno) as Hcount.
  rewrite Hthis in Hcount. cbn [Nat.add] in Hcount.
  apply Hcount; try assumption; try reflexivity.
  intros j Hj. apply Hbefore. lia.
Qed.

Lemma cancellation_is_announced_again_witness :
  exists st' body s,
    BatchProcessor.start (math := nearest_pow) Sample.cancelling (Sample.state_of Sample.processor)
    = (BatchProcessor.Ok tt, st') /\
    events (BatchProcessor.trace st') = EvStart 3 :: body ++ [EvComplete s] /\
    count is_cancelled body = 2%nat.
Proof.
  apply (cancellation_is_announced_again Sample.cancelling
           (Sample.state_of Sample.processor) 0).
  - intros k. reflexivity.
  - reflexivity.
  - cbn. lia.
  - intros j Hj. lia.
  - reflexivity.
Defined.
